(** * Force-feedback driver: device session and oscillation loop

    Shallow embedding of [enhanced_force_feedback_minimal.c].

    The program talks to COM / DirectInput and to the system clock.  Those
    are modelled as an environment ([Env]) that fixes the outcome of every
    platform call; the program itself is a state transformer over its three
    global pointers, and every platform call it makes is appended to a
    chronological trace.  The polling loop has no static bound (it runs
    until the clock passes [endTime]), so it is given fuel; a run whose
    fuel runs out is reported as still running, with the state and trace
    it has reached. *)

From Stdlib Require Import ZArith List String Bool Lia QArith.
Import ListNotations.
Local Open Scope Z_scope.

(** ** Platform types and constants *)

Definition HRESULT := Z.
Definition FAILED (hr : HRESULT) : bool := hr <? 0.
Definition SUCCEEDED (hr : HRESULT) : bool := 0 <=? hr.

(** COM interface pointers; a null pointer is [None]. *)
Definition HANDLE := nat.

(** [DWORD] arithmetic wraps modulo 2^32. *)
Definition DWORD_MOD : Z := 2 ^ 32.
Definition dword (z : Z) : Z := z mod DWORD_MOD.

(** [(LONG)] applied to a floating value truncates toward zero.  The only
    multipliers the program uses are 0 and 1, which are exact, so the
    floating product is carried as a rational. *)
Definition LONG_of_float (q : Q) : Z := Z.quot (Qnum q) (Zpos (Qden q)).

Definition FEEDBACK_NONE : Z := 0.
Definition FEEDBACK_OBSTACLE : Z := 1.
Definition FEEDBACK_MOVEMENT : Z := 2.

Definition FORCE_STRENGTH : Z := 1.
Definition OSCILLATION_DURATION : Z := 300.

(** Modelled from the spec: the platform header [dinput.h] is not part of
    the repository; the spec calls [DI_FFNOMINALMAX] the platform-defined
    nominal maximum and names Cartesian direction with object-offset
    addressing and no trigger button.  The values are the SDK's. *)
Definition DI_FFNOMINALMAX : Z := 10000.
Definition DIEFF_CARTESIAN : Z := 16.
Definition DIEFF_OBJECTOFFSETS : Z := 2.
Definition DIEB_NOTRIGGER : Z := 4294967295.
Definition DIJOFS_X : Z := 0.
Definition DIJOFS_Y : Z := 4.
Definition DISCL_EXCLUSIVE : Z := 1.
Definition DISCL_BACKGROUND : Z := 8.

(** The constant-force effect descriptor handed to [CreateEffect]
    ([DIEFFECT] together with its [DICONSTANTFORCE] payload). *)
Record DIEFFECT := mkDIEFFECT {
  dwFlags : Z;
  dwDuration : Z;
  dwSamplePeriod : Z;
  dwGain : Z;
  dwTriggerButton : Z;
  dwTriggerRepeatInterval : Z;
  cAxes : Z;
  rgdwAxes : list Z;
  rglDirection : list Z;
  lpEnvelope : option unit;
  lMagnitude : Z;
  dwStartDelay : Z
}.

(** ** Trace of platform calls *)

Inductive printf_arg :=
| ArgInt (n : Z)
| ArgStr (s : string).

Inductive event :=
| EPrintf (fmt : string) (args : list printf_arg)
| ECoInitialize
| ECoUninitialize
| EDirectInput8Create (out : option HANDLE)
| EEnumDevices
| ECreateDevice (out : option HANDLE)
| ESetCooperativeLevel (dev : HANDLE) (flags : Z)
| ESetDataFormat (dev : HANDLE)
| EAcquire (dev : HANDLE)
| EGetTickCount (t : Z)
| ECreateEffect (dev : option HANDLE) (eff : DIEFFECT) (out : option HANDLE)
| EEffectStart (h : HANDLE) (iterations flags : Z)
| EEffectStop (h : HANDLE)
| EEffectRelease (h : HANDLE)
| ESleep (ms : Z)
| EUnacquire (dev : HANDLE)
| EDeviceRelease (dev : HANDLE)
| EDIRelease (h : HANDLE).

(** The format strings, spelled as in the source. *)
Module Fmt.
Local Open Scope string_scope.
Definition banner := "Minimal Force Feedback - Type: %d\n".
Definition com_failed := "Failed to initialize COM. Error: 0x%lx\n".
Definition no_feedback := "No feedback requested\n".
Definition di_failed := "Failed to create DirectInput object. Error: 0x%lx\n".
Definition looking := "Looking for Force Feedback joystick...\n".
Definition no_joystick := "Failed to find Force Feedback joystick. Error: 0x%lx\n".
Definition coop_failed := "Failed to set cooperative level. Error: 0x%lx\n".
Definition format_failed := "Failed to set data format. Error: 0x%lx\n".
Definition acquire_failed := "Failed to acquire joystick. Error: 0x%lx\n".
Definition init_ok := "DirectInput initialized successfully\n".
Definition obstacle := "obstacle feedback pattern...\n".
Definition movement := "Applying fast movement feedback pattern...\n".
Definition default := "Applying default feedback pattern...\n".
Definition create_failed := "Failed to create oscillation effect. Error: 0x%lx\n".
Definition start_failed := "Failed to start oscillation effect. Error: 0x%lx\n".
Definition found := "Found: %s\n".
Definition device_ok := "Successfully created device interface\n".
Definition device_failed := "Failed to create device interface. Error: 0x%lx\n".
Definition cleanup := "Cleanup complete\n".
End Fmt.

(** ** Environment *)

(** One attached force-feedback game controller, as enumeration reports
    it: its product name and what [CreateDevice] answers for it. *)
Record DeviceInstance := mkDeviceInstance {
  tszProductName : string;
  hr_CreateDevice : HRESULT
}.

Record Env := mkEnv {
  hr_CoInitialize : HRESULT;
  hr_DirectInput8Create : HRESULT;
  attached : list DeviceInstance;
  hr_EnumDevices : HRESULT;
  hr_SetCooperativeLevel : HRESULT;
  hr_SetDataFormat : HRESULT;
  hr_Acquire : HRESULT;
  (** the n-th reading of the millisecond clock *)
  tick : nat -> Z;
  (** the answer to the n-th [CreateEffect] call *)
  hr_CreateEffect : nat -> HRESULT;
  (** the answer to [Start] on the effect made by the n-th [CreateEffect] *)
  hr_Start : nat -> HRESULT
}.

(** ** Program state: the globals, the call counters, the trace *)

(** The three global pointers, the number of clock readings and of
    [CreateEffect] calls made so far (they index the answers of the
    environment), and the calls made so far, oldest first.  The fourth
    global, [g_bRunning], is never read or written by the program and is
    left out. *)

Record state := mkState {
  g_pDI : option HANDLE;
  g_pJoystick : option HANDLE;
  g_pEffect : option HANDLE;
  n_ticks : nat;
  n_effects : nat;
  trace : list event
}.

Definition initial_state : state :=
  {| g_pDI := None; g_pJoystick := None; g_pEffect := None;
     n_ticks := 0; n_effects := 0; trace := [] |}.

Definition emit (e : event) (st : state) : state :=
  {| g_pDI := g_pDI st; g_pJoystick := g_pJoystick st; g_pEffect := g_pEffect st;
     n_ticks := n_ticks st; n_effects := n_effects st;
     trace := trace st ++ [e] |}.

Definition set_g_pDI (p : option HANDLE) (st : state) : state :=
  {| g_pDI := p; g_pJoystick := g_pJoystick st; g_pEffect := g_pEffect st;
     n_ticks := n_ticks st; n_effects := n_effects st; trace := trace st |}.

Definition set_g_pJoystick (p : option HANDLE) (st : state) : state :=
  {| g_pDI := g_pDI st; g_pJoystick := p; g_pEffect := g_pEffect st;
     n_ticks := n_ticks st; n_effects := n_effects st; trace := trace st |}.

Definition set_g_pEffect (p : option HANDLE) (st : state) : state :=
  {| g_pDI := g_pDI st; g_pJoystick := g_pJoystick st; g_pEffect := p;
     n_ticks := n_ticks st; n_effects := n_effects st; trace := trace st |}.

Definition printf (fmt : string) (args : list printf_arg) (st : state) : state :=
  emit (EPrintf fmt args) st.

(** ** Platform calls *)

Definition GetTickCount (env : Env) (st : state) : Z * state :=
  let t := dword (tick env (n_ticks st)) in
  (t, emit (EGetTickCount t)
        {| g_pDI := g_pDI st; g_pJoystick := g_pJoystick st; g_pEffect := g_pEffect st;
           n_ticks := S (n_ticks st); n_effects := n_effects st; trace := trace st |}).

Definition Sleep (ms : Z) (st : state) : state := emit (ESleep ms) st.

(** [DirectInput8Create]: on success the context pointer is stored in
    [g_pDI]; on failure the out-parameter stays null. *)
Definition DirectInput8Create (env : Env) (st : state) : HRESULT * state :=
  let hr := hr_DirectInput8Create env in
  if FAILED hr then (hr, emit (EDirectInput8Create None) st)
  else (hr, set_g_pDI (Some 0%nat) (emit (EDirectInput8Create (Some 0%nat)) st)).

(** [CreateDevice] for the [idx]-th enumerated instance. *)
Definition CreateDevice (d : DeviceInstance) (idx : nat) (st : state) : HRESULT * state :=
  let hr := hr_CreateDevice d in
  if SUCCEEDED hr then (hr, set_g_pJoystick (Some idx) (emit (ECreateDevice (Some idx)) st))
  else (hr, emit (ECreateDevice None) st).

(** [CreateEffect]: the n-th call yields effect number n on success and
    leaves the out-parameter as it was on failure. *)
Definition CreateEffect (env : Env) (eff : DIEFFECT) (st : state) : HRESULT * state :=
  let n := n_effects st in
  let hr := hr_CreateEffect env n in
  let st1 :=
    {| g_pDI := g_pDI st; g_pJoystick := g_pJoystick st; g_pEffect := g_pEffect st;
       n_ticks := n_ticks st; n_effects := S n; trace := trace st |} in
  if FAILED hr then (hr, emit (ECreateEffect (g_pJoystick st) eff None) st1)
  else (hr, set_g_pEffect (Some n) (emit (ECreateEffect (g_pJoystick st) eff (Some n)) st1)).

Definition EffectStart (env : Env) (h : HANDLE) (st : state) : HRESULT * state :=
  (hr_Start env h, emit (EEffectStart h 1 0) st).

(** ** The program *)

(** [CleanupAll] (lines 238-257). *)
Definition CleanupAll (st : state) : state :=
  let st1 :=
    match g_pEffect st with
    | Some e => set_g_pEffect None (emit (EEffectRelease e) st)
    | None => st
    end in
  let st2 :=
    match g_pJoystick st1 with
    | Some j =>
        set_g_pJoystick None (emit (EDeviceRelease j) (emit (EUnacquire j) st1))
    | None => st1
    end in
  let st3 :=
    match g_pDI st2 with
    | Some d => set_g_pDI None (emit (EDIRelease d) st2)
    | None => st2
    end in
  printf Fmt.cleanup [] st3.

(** [EnumDevicesCallback] (lines 221-236); [true] is [DIENUM_CONTINUE],
    [false] is [DIENUM_STOP]. *)
Definition EnumDevicesCallback (d : DeviceInstance) (idx : nat) (st : state)
  : bool * state :=
  let st1 := printf Fmt.found [ArgStr (tszProductName d)] st in
  let '(hr, st2) := CreateDevice d idx st1 in
  if SUCCEEDED hr then (false, printf Fmt.device_ok [] st2)
  else (true, printf Fmt.device_failed [ArgInt hr] st2).

(** The enumeration itself: the callback is invoked on each attached
    force-feedback controller in turn until it answers [DIENUM_STOP]. *)
Fixpoint enumerate (ds : list DeviceInstance) (idx : nat) (st : state) : state :=
  match ds with
  | [] => st
  | d :: ds' =>
      let '(continue, st1) := EnumDevicesCallback d idx st in
      if continue then enumerate ds' (S idx) st1 else st1
  end.

Definition EnumDevices (env : Env) (st : state) : HRESULT * state :=
  (hr_EnumDevices env, enumerate (attached env) 0%nat (emit EEnumDevices st)).

(** [InitializeDirectInput] (lines 80-124). *)
Definition InitializeDirectInput (env : Env) (st : state) : bool * state :=
  let '(hr, st1) := DirectInput8Create env st in
  if FAILED hr then (false, printf Fmt.di_failed [ArgInt hr] st1)
  else
    let st2 := printf Fmt.looking [] st1 in
    let '(hr, st3) := EnumDevices env st2 in
    match g_pJoystick st3 with
    | None => (false, printf Fmt.no_joystick [ArgInt hr] st3)
    | Some j =>
        if FAILED hr then (false, printf Fmt.no_joystick [ArgInt hr] st3)
        else
          let hr := hr_SetCooperativeLevel env in
          let st4 :=
            emit (ESetCooperativeLevel j (Z.lor DISCL_EXCLUSIVE DISCL_BACKGROUND)) st3 in
          if FAILED hr then (false, printf Fmt.coop_failed [ArgInt hr] st4)
          else
            let hr := hr_SetDataFormat env in
            let st5 := emit (ESetDataFormat j) st4 in
            if FAILED hr then (false, printf Fmt.format_failed [ArgInt hr] st5)
            else
              let hr := hr_Acquire env in
              let st6 := emit (EAcquire j) st5 in
              if FAILED hr then (false, printf Fmt.acquire_failed [ArgInt hr] st6)
              else (true, printf Fmt.init_ok [] st6)
    end.

(** The [switch] on the feedback type (lines 136-156): the switch
    interval in milliseconds, the strength multiplier and the line that is
    printed. *)
Definition oscillation_params (feedbackType : Z) : Z * Q * string :=
  if feedbackType =? FEEDBACK_OBSTACLE then (25, 1%Q, Fmt.obstacle)
  else if feedbackType =? FEEDBACK_MOVEMENT then (25, 1%Q, Fmt.movement)
  else (0, 0%Q, Fmt.default).

(** The effect descriptor built at each switch (lines 168-188). *)
Definition build_effect (switchInterval : Z) (strengthMultiplier : Q) (direction : Z)
  : DIEFFECT :=
  {| dwFlags := Z.lor DIEFF_CARTESIAN DIEFF_OBJECTOFFSETS;
     dwDuration := dword (switchInterval * 1000);
     dwSamplePeriod := 0;
     dwGain := DI_FFNOMINALMAX;
     dwTriggerButton := DIEB_NOTRIGGER;
     dwTriggerRepeatInterval := 0;
     cAxes := 2;
     rgdwAxes := [DIJOFS_X; DIJOFS_Y];
     rglDirection := [direction; 0];
     lpEnvelope := None;
     lMagnitude :=
       LONG_of_float
         (inject_Z DI_FFNOMINALMAX * inject_Z FORCE_STRENGTH * strengthMultiplier)%Q;
     dwStartDelay := 0 |}.

(** How one pass through the loop body ends. *)
Inductive body_result :=
| Continue (direction lastSwitchTime : Z) (st : state)
| Break (st : state)      (* the loop condition is false *)
| Return (st : state).    (* the [return] of line 200 *)

(** The direction switch (lines 164-207), entered with the clock reading
    [currentTime]. *)
Definition switch_direction (env : Env) (switchInterval : Z) (strengthMultiplier : Q)
    (direction currentTime : Z) (st : state) : body_result :=
  let direction := direction * -1 in
  let lastSwitchTime := currentTime in
  let eff := build_effect switchInterval strengthMultiplier direction in
  let st1 :=
    match g_pEffect st with
    | Some e => set_g_pEffect None (emit (EEffectRelease e) st)
    | None => st
    end in
  let '(hr, st2) := CreateEffect env eff st1 in
  if FAILED hr then Return (printf Fmt.create_failed [ArgInt hr] st2)
  else
    match g_pEffect st2 with
    | Some e =>
        let '(hr, st3) := EffectStart env e st2 in
        let st4 := if FAILED hr then printf Fmt.start_failed [ArgInt hr] st3 else st3 in
        Continue direction lastSwitchTime (Sleep 10 st4)
    | None =>
        (* not reached: a successful [CreateEffect] has stored the pointer *)
        Continue direction lastSwitchTime (Sleep 10 st2)
    end.

(** One evaluation of the loop condition followed by the body
    (lines 161-212). *)
Definition loop_body (env : Env) (endTime switchInterval : Z) (strengthMultiplier : Q)
    (direction lastSwitchTime : Z) (st : state) : body_result :=
  let '(currentTime, st1) := GetTickCount env st in
  if currentTime <? endTime then
    if dword (currentTime - lastSwitchTime) >? dword switchInterval then
      switch_direction env switchInterval strengthMultiplier direction currentTime st1
    else Continue direction lastSwitchTime (Sleep 10 st1)
  else Break st1.

(** How the loop is left: its condition became false, the [return] of
    line 200 was taken, or the fuel ran out while it was still polling. *)
Inductive loop_exit := LoopDone | LoopReturn | LoopPolling.

Fixpoint oscillation_loop (fuel : nat) (env : Env) (endTime switchInterval : Z)
    (strengthMultiplier : Q) (direction lastSwitchTime : Z) (st : state)
  : loop_exit * state :=
  match fuel with
  | O => (LoopPolling, st)
  | S fuel' =>
      match loop_body env endTime switchInterval strengthMultiplier
              direction lastSwitchTime st with
      | Continue direction' lastSwitchTime' st' =>
          oscillation_loop fuel' env endTime switchInterval strengthMultiplier
            direction' lastSwitchTime' st'
      | Break st' => (LoopDone, st')
      | Return st' => (LoopReturn, st')
      end
  end.

(** The stop after the loop (lines 214-217). *)
Definition stop_effect (st : state) : state :=
  match g_pEffect st with
  | Some e => emit (EEffectStop e) st
  | None => st
  end.

(** [ApplyGentleOscillation] (lines 126-218); the flag tells whether the
    function returned ([true]) or is still polling ([false]). *)
Definition ApplyGentleOscillation (fuel : nat) (env : Env) (feedbackType : Z)
    (st : state) : bool * state :=
  let '(startTime, st1) := GetTickCount env st in
  let endTime := dword (startTime + OSCILLATION_DURATION) in
  let direction := 1 in
  let '(switchInterval, strengthMultiplier, line) := oscillation_params feedbackType in
  let st2 := printf line [] st1 in
  let lastSwitchTime := startTime in
  match oscillation_loop fuel env endTime switchInterval strengthMultiplier
          direction lastSwitchTime st2 with
  | (LoopDone, st3) => (true, stop_effect st3)
  | (LoopReturn, st3) => (true, st3)
  | (LoopPolling, st3) => (false, st3)
  end.

(** The command line as [main] sees it: [None] when [argc <= 1], otherwise
    the value [atoi] returns for [argv[1]]. *)
Definition cmdline := option Z.

(** Lines 41-49. *)
Definition parse_feedbackType (arg : cmdline) : Z :=
  match arg with
  | Some n =>
      if (n <? FEEDBACK_NONE) || (n >? FEEDBACK_MOVEMENT) then FEEDBACK_NONE else n
  | None => FEEDBACK_NONE
  end.

(** A run of the process: it has exited with a code, or it is still inside
    the polling loop. *)
Inductive run :=
| Exit (code : Z) (st : state)
| Running (st : state).

Definition state_of (r : run) : state :=
  match r with Exit _ st => st | Running st => st end.

(** [main] (lines 39-78). *)
Definition main (fuel : nat) (env : Env) (arg : cmdline) : run :=
  let feedbackType := parse_feedbackType arg in
  let st := printf Fmt.banner [ArgInt feedbackType] initial_state in
  let hr := hr_CoInitialize env in
  let st := emit ECoInitialize st in
  if FAILED hr then Exit 1 (printf Fmt.com_failed [ArgInt hr] st)
  else
    let '(ok, st) := InitializeDirectInput env st in
    if negb ok then Exit 1 (emit ECoUninitialize (CleanupAll st))
    else
      let '(returned, st) :=
        if negb (feedbackType =? FEEDBACK_NONE)
        then ApplyGentleOscillation fuel env feedbackType st
        else (true, printf Fmt.no_feedback [] st) in
      if returned then Exit 0 (emit ECoUninitialize (CleanupAll st))
      else Running st.

(** ** Reading a trace *)

(** The three kinds of COM object the program owns. *)
Inductive kind := KContext | KDevice | KEffect.

Definition created (k : kind) (e : event) : option HANDLE :=
  match k, e with
  | KContext, EDirectInput8Create out => out
  | KDevice, ECreateDevice out => out
  | KEffect, ECreateEffect _ _ out => out
  | _, _ => None
  end.

Definition released (k : kind) (e : event) : option HANDLE :=
  match k, e with
  | KContext, EDIRelease h => Some h
  | KDevice, EDeviceRelease h => Some h
  | KEffect, EEffectRelease h => Some h
  | _, _ => None
  end.

Definition track (k : kind) (alive : list HANDLE) (e : event) : list HANDLE :=
  match created k e with
  | Some h => h :: alive
  | None =>
      match released k e with
      | Some h => remove Nat.eq_dec h alive
      | None => alive
      end
  end.

(** The objects of kind [k] that exist after the calls of [tr]: created
    and not yet released. *)
Definition live (k : kind) (tr : list event) : list HANDLE :=
  fold_left (track k) tr [].

Definition held (k : kind) (st : state) : option HANDLE :=
  match k with
  | KContext => g_pDI st
  | KDevice => g_pJoystick st
  | KEffect => g_pEffect st
  end.

Definition opt_list {A : Type} (o : option A) : list A :=
  match o with Some a => [a] | None => [] end.

(** The globals point at exactly the objects that exist. *)
Definition in_sync (st : state) : Prop :=
  forall k, live k (trace st) = opt_list (held k st).

Definition is_printf (fmt : string) (e : event) : bool :=
  match e with
  | EPrintf f _ => String.eqb f fmt
  | _ => false
  end.

Definition count_printf (fmt : string) (tr : list event) : nat :=
  List.length (filter (is_printf fmt) tr).

(** The effect descriptors handed to [CreateEffect], in order. *)
Fixpoint submitted (tr : list event) : list DIEFFECT :=
  match tr with
  | [] => []
  | ECreateEffect _ eff _ :: tr' => eff :: submitted tr'
  | _ :: tr' => submitted tr'
  end.

(** The clock readings at which a direction switch was made: for each
    [CreateEffect], the reading of the poll that led to it.  [now] is the
    latest reading seen so far. *)
Fixpoint switch_times_from (now : Z) (tr : list event) : list Z :=
  match tr with
  | [] => []
  | EGetTickCount t :: tr' => switch_times_from t tr'
  | ECreateEffect _ _ _ :: tr' => now :: switch_times_from now tr'
  | _ :: tr' => switch_times_from now tr'
  end.

Definition switch_times (tr : list event) : list Z := switch_times_from 0 tr.

(** [st'] was reached from [st] by calls that all satisfy [P]. *)
Definition extends (P : event -> Prop) (st st' : state) : Prop :=
  exists new, trace st' = trace st ++ new /\ Forall P new.

(** Calls that neither create nor release an object. *)
Definition neutral (e : event) : Prop :=
  forall k, created k e = None /\ released k e = None.

(** The calls [CleanupAll] makes from a state with the given globals. *)
Definition cleanup_calls (st : state) : list event :=
  match g_pEffect st with Some e => [EEffectRelease e] | None => [] end ++
  match g_pJoystick st with Some j => [EUnacquire j; EDeviceRelease j] | None => [] end ++
  match g_pDI st with Some d => [EDIRelease d] | None => [] end ++
  [EPrintf Fmt.cleanup []].

(** The calls one direction switch makes from [st] (lines 190-207 and
    the [Sleep] that follows when the loop goes on). *)
Definition switch_calls (env : Env) (switchInterval : Z) (strengthMultiplier : Q)
    (direction : Z) (st : state) : list event :=
  let n := n_effects st in
  let eff := build_effect switchInterval strengthMultiplier (direction * -1) in
  match g_pEffect st with Some e => [EEffectRelease e] | None => [] end ++
  if FAILED (hr_CreateEffect env n)
  then [ECreateEffect (g_pJoystick st) eff None;
        EPrintf Fmt.create_failed [ArgInt (hr_CreateEffect env n)]]
  else [ECreateEffect (g_pJoystick st) eff (Some n); EEffectStart n 1 0] ++
       (if FAILED (hr_Start env n)
        then [EPrintf Fmt.start_failed [ArgInt (hr_Start env n)]] else []) ++
       [ESleep 10].

(** The state after a direction switch from [st] that leaves [p] in
    [g_pEffect]. *)
Definition switched (env : Env) (switchInterval : Z) (strengthMultiplier : Q)
    (direction : Z) (p : option HANDLE) (st : state) : state :=
  {| g_pDI := g_pDI st; g_pJoystick := g_pJoystick st; g_pEffect := p;
     n_ticks := n_ticks st; n_effects := S (n_effects st);
     trace := trace st ++ switch_calls env switchInterval strengthMultiplier direction st |}.

(** Calls made by [ApplyGentleOscillation]. *)
Definition loop_event (e : event) : Prop :=
  match e with
  | EPrintf f _ => String.eqb f Fmt.cleanup = false
  | EGetTickCount _ | ESleep _ | ECreateEffect _ _ _
  | EEffectStart _ _ _ | EEffectRelease _ | EEffectStop _ => True
  | _ => False
  end.

(** ** What the environment decides *)

(** The instance enumeration binds: the first one whose [CreateDevice]
    succeeds, numbered from [idx]. *)
Fixpoint first_bindable (ds : list DeviceInstance) (idx : nat) : option nat :=
  match ds with
  | [] => None
  | d :: ds' => if SUCCEEDED (hr_CreateDevice d) then Some idx else first_bindable ds' (S idx)
  end.

Definition is_some {A : Type} (o : option A) : bool :=
  match o with Some _ => true | None => false end.

(** Every step of [InitializeDirectInput] succeeds. *)
Definition init_ok (env : Env) : bool :=
  negb (FAILED (hr_DirectInput8Create env))
  && is_some (first_bindable (attached env) 0)
  && negb (FAILED (hr_EnumDevices env))
  && negb (FAILED (hr_SetCooperativeLevel env))
  && negb (FAILED (hr_SetDataFormat env))
  && negb (FAILED (hr_Acquire env)).

(** Calls made while the session is set up: no clock reading, no effect
    call, and no line of [CleanupAll]. *)
Definition startup_event (e : event) : Prop :=
  match e with
  | EPrintf f _ => String.eqb f Fmt.cleanup = false
  | EDirectInput8Create _ | EEnumDevices | ECreateDevice _
  | ESetCooperativeLevel _ _ | ESetDataFormat _ | EAcquire _ => True
  | _ => False
  end.

(** Calls made between [CoInitialize] and [CleanupAll]. *)
Definition session_event (e : event) : Prop := startup_event e \/ loop_event e.

(** Calls that only [ApplyGentleOscillation] and the effect release make. *)
Definition oscillation_event (e : event) : Prop :=
  match e with
  | EGetTickCount _ | ESleep _ | ECreateEffect _ _ _
  | EEffectStart _ _ _ | EEffectRelease _ | EEffectStop _ => True
  | _ => False
  end.

(** The state in which [InitializeDirectInput] is entered. *)
Definition com_ready (arg : cmdline) : state :=
  emit ECoInitialize
    (printf Fmt.banner [ArgInt (parse_feedbackType arg)] initial_state).

(** The state [InitializeDirectInput] leaves: reached from [com_ready] by
    startup calls, pointers matching the live objects, no effect, no clock
    reading made and no effect created so far; context and device bound
    when every step succeeded. *)
Definition started (env : Env) (arg : cmdline) (st : state) : Prop :=
  in_sync st /\ extends startup_event (com_ready arg) st /\
  g_pEffect st = None /\ n_ticks st = 0%nat /\ n_effects st = 0%nat /\
  (init_ok env = true ->
   g_pDI st = Some 0%nat /\ g_pJoystick st = first_bindable (attached env) 0).

(** A property of the descriptors handed to [CreateEffect], as a property
    of calls. *)
Definition on_submitted (P : DIEFFECT -> Prop) (e : event) : Prop :=
  match e with
  | ECreateEffect _ eff _ => P eff
  | _ => True
  end.

(** ** Ownership of the effect *)

(** Some [CreateEffect] of [tr] succeeded. *)
Definition ever_created (tr : list event) : Prop :=
  exists dev eff h, In (ECreateEffect dev eff (Some h)) tr.

(** At every moment of [tr] at most one effect is alive, and every
    [CreateEffect] is called with no effect alive and, if an effect was ever
    created before, directly after a release. *)
Definition effect_discipline (tr : list event) : Prop :=
  forall pre suf, tr = pre ++ suf ->
    (List.length (live KEffect pre) <= 1)%nat /\
    (forall dev eff out suf', suf = ECreateEffect dev eff out :: suf' ->
       live KEffect pre = [] /\
       (ever_created pre -> exists pre' h, pre = pre' ++ [EEffectRelease h])).

(** [tr] keeps the discipline and ends with the effects [alive]. *)
Definition owns (tr : list event) (alive : list HANDLE) : Prop :=
  effect_discipline tr /\ live KEffect tr = alive /\ (List.length alive <= 1)%nat.

(** Calls that neither create nor release an effect. *)
Definition effect_quiet (e : event) : Prop :=
  match e with
  | ECreateEffect _ _ _ | EEffectRelease _ => False
  | _ => True
  end.

(** The ownership invariant at each evaluation of the loop condition: the
    global points at the one live effect, and is null only if no effect was
    created yet. *)
Definition owning (st : state) : Prop :=
  owns (trace st) (opt_list (g_pEffect st)) /\
  (g_pEffect st = None -> ~ ever_created (trace st)).

(** ** Leaving the loop by the [return] *)

(** The loop as [ApplyGentleOscillation] runs it from [st]: after the
    first clock reading and the pattern line. *)
Definition oscillation_of (fuel : nat) (env : Env) (feedbackType : Z) (st : state)
  : loop_exit * state :=
  let startTime := dword (tick env (n_ticks st)) in
  oscillation_loop fuel env (dword (startTime + OSCILLATION_DURATION))
    (fst (fst (oscillation_params feedbackType)))
    (snd (fst (oscillation_params feedbackType)))
    1 startTime
    (printf (snd (oscillation_params feedbackType)) [] (snd (GetTickCount env st))).

(** Calls other than a failed [CreateEffect] and a [Stop]. *)
Definition calm_event (e : event) : Prop :=
  match e with
  | ECreateEffect _ _ None | EEffectStop _ => False
  | _ => True
  end.

(** Calls other than a failed [CreateEffect]. *)
Definition not_failed_create (e : event) : Prop :=
  match e with
  | ECreateEffect _ _ None => False
  | _ => True
  end.

(** The state right after the [return] of line 200: the trace ends with
    the failed [CreateEffect] and its diagnostic; before them no
    [CreateEffect] had failed, no effect was stopped, no effect is left
    alive, and any effect created earlier was released by the last call;
    [g_pEffect] is null and the session pointers are [di] and [joy]. *)
Definition aborted (di joy : option HANDLE) (st : state) : Prop :=
  exists pre dev eff hr,
    trace st = pre ++ [ECreateEffect dev eff None; EPrintf Fmt.create_failed [ArgInt hr]] /\
    FAILED hr = true /\
    Forall calm_event pre /\
    live KEffect pre = [] /\
    (ever_created pre -> exists pre' h, pre = pre' ++ [EEffectRelease h]) /\
    g_pEffect st = None /\ g_pDI st = di /\ g_pJoystick st = joy.

(** The invariant of a loop that has not taken the [return]. *)
Definition polling (di joy : option HANDLE) (st : state) : Prop :=
  owning st /\ Forall calm_event (trace st) /\ g_pDI st = di /\ g_pJoystick st = joy.

(** ** Direction and timing of the switches *)

(** The latest clock reading in [tr], [now] if there is none. *)
Fixpoint latest_tick (now : Z) (tr : list event) : Z :=
  match tr with
  | [] => now
  | EGetTickCount t :: tr' => latest_tick t tr'
  | _ :: tr' => latest_tick now tr'
  end.

(** The descriptors point along x only, with sign [d] first and the sign
    flipped from each one to the next. *)
Fixpoint alternates_from (d : Z) (subs : list DIEFFECT) : Prop :=
  match subs with
  | [] => True
  | eff :: subs' => rglDirection eff = [d; 0] /\ alternates_from (d * -1) subs'
  end.

(** Each time of [ts] is later than the one before it ([prev] for the
    first) by more than [lo] and at most [hi] milliseconds, on the
    wrapping clock. *)
Fixpoint gaps_from (lo hi prev : Z) (ts : list Z) : Prop :=
  match ts with
  | [] => True
  | t :: ts' => lo < dword (t - prev) <= hi /\ gaps_from lo hi t ts'
  end.

(** The sign of the [n]-th descriptor when the first has sign [d]. *)
Definition nth_sign (d : Z) (n : nat) : Z := if Nat.even n then d else d * -1.

(** Calls that are neither a clock reading nor a [CreateEffect]. *)
Definition untimed (e : event) : Prop :=
  match e with
  | EGetTickCount _ | ECreateEffect _ _ _ => False
  | _ => True
  end.

(** The invariant of the loop for direction and timing: [d] and [l] are
    the loop's [direction] and [lastSwitchTime], [start] the first clock
    reading, [g] a bound on the step between two clock readings. *)
Definition in_step (env : Env) (si g start : Z) (d l : Z) (st : state) : Prop :=
  alternates_from (-1) (submitted (trace st)) /\
  d * -1 = nth_sign (-1) (List.length (submitted (trace st))) /\
  gaps_from si (si + g) start (switch_times (trace st)) /\
  last (switch_times (trace st)) start = l /\
  (0 < n_ticks st)%nat /\
  latest_tick 0 (trace st) = dword (tick env (pred (n_ticks st))) /\
  dword (latest_tick 0 (trace st) - l) <= si.

(** What is left of it when the loop is over. *)
Definition stepped (si g start : Z) (st : state) : Prop :=
  alternates_from (-1) (submitted (trace st)) /\
  gaps_from si (si + g) start (switch_times (trace st)).

Ltac neutral_tac := let k := fresh in intros k; destruct k; split; reflexivity.

Ltac in_list := vm_compute; repeat (first [left; reflexivity | right]).

(** ** The outcome of [Start] *)

Definition exit_code (r : run) : option Z :=
  match r with Exit c _ => Some c | Running _ => None end.

(** [tr] without the diagnostics of a failed [Start]. *)
Definition without_start_log (tr : list event) : list event :=
  filter (fun e => negb (is_printf Fmt.start_failed e)) tr.

(** Two environments that differ at most in what [Start] answers. *)
Definition same_but_start (env env' : Env) : Prop :=
  hr_CoInitialize env = hr_CoInitialize env' /\
  hr_DirectInput8Create env = hr_DirectInput8Create env' /\
  attached env = attached env' /\
  hr_EnumDevices env = hr_EnumDevices env' /\
  hr_SetCooperativeLevel env = hr_SetCooperativeLevel env' /\
  hr_SetDataFormat env = hr_SetDataFormat env' /\
  hr_Acquire env = hr_Acquire env' /\
  (forall n, tick env n = tick env' n) /\
  (forall n, hr_CreateEffect env n = hr_CreateEffect env' n).

(** Two states that differ at most in the diagnostics of failed [Start]s. *)
Definition same_but_log (st st' : state) : Prop :=
  g_pDI st = g_pDI st' /\ g_pJoystick st = g_pJoystick st' /\
  g_pEffect st = g_pEffect st' /\ n_ticks st = n_ticks st' /\
  n_effects st = n_effects st' /\
  without_start_log (trace st) = without_start_log (trace st').

(** ** Sample runs *)

Definition steady_clock (t0 step : Z) : nat -> Z := fun n => t0 + step * Z.of_nat n.

Definition sample_device : DeviceInstance :=
  {| tszProductName := "Wheel"; hr_CreateDevice := 0 |}.

Definition good_env : Env :=
  {| hr_CoInitialize := 0;
     hr_DirectInput8Create := 0;
     attached := [sample_device];
     hr_EnumDevices := 0;
     hr_SetCooperativeLevel := 0;
     hr_SetDataFormat := 0;
     hr_Acquire := 0;
     tick := steady_clock 1000 10;
     hr_CreateEffect := fun _ => 0;
     hr_Start := fun _ => 0 |}.

Definition E_FAIL : HRESULT := -2147467259.
Definition E_ACCESSDENIED : HRESULT := -2147024891.

Definition with_CoInitialize (hr : HRESULT) (env : Env) : Env :=
  {| hr_CoInitialize := hr;
     hr_DirectInput8Create := hr_DirectInput8Create env;
     attached := attached env;
     hr_EnumDevices := hr_EnumDevices env;
     hr_SetCooperativeLevel := hr_SetCooperativeLevel env;
     hr_SetDataFormat := hr_SetDataFormat env;
     hr_Acquire := hr_Acquire env;
     tick := tick env;
     hr_CreateEffect := hr_CreateEffect env;
     hr_Start := hr_Start env |}.

Definition with_Acquire (hr : HRESULT) (env : Env) : Env :=
  {| hr_CoInitialize := hr_CoInitialize env;
     hr_DirectInput8Create := hr_DirectInput8Create env;
     attached := attached env;
     hr_EnumDevices := hr_EnumDevices env;
     hr_SetCooperativeLevel := hr_SetCooperativeLevel env;
     hr_SetDataFormat := hr_SetDataFormat env;
     hr_Acquire := hr;
     tick := tick env;
     hr_CreateEffect := hr_CreateEffect env;
     hr_Start := hr_Start env |}.

Definition with_CreateEffect (f : nat -> HRESULT) (env : Env) : Env :=
  {| hr_CoInitialize := hr_CoInitialize env;
     hr_DirectInput8Create := hr_DirectInput8Create env;
     attached := attached env;
     hr_EnumDevices := hr_EnumDevices env;
     hr_SetCooperativeLevel := hr_SetCooperativeLevel env;
     hr_SetDataFormat := hr_SetDataFormat env;
     hr_Acquire := hr_Acquire env;
     tick := tick env;
     hr_CreateEffect := f;
     hr_Start := hr_Start env |}.

Definition with_Start (f : nat -> HRESULT) (env : Env) : Env :=
  {| hr_CoInitialize := hr_CoInitialize env;
     hr_DirectInput8Create := hr_DirectInput8Create env;
     attached := attached env;
     hr_EnumDevices := hr_EnumDevices env;
     hr_SetCooperativeLevel := hr_SetCooperativeLevel env;
     hr_SetDataFormat := hr_SetDataFormat env;
     hr_Acquire := hr_Acquire env;
     tick := tick env;
     hr_CreateEffect := hr_CreateEffect env;
     hr_Start := f |}.

(** A session with all three objects alive. *)
Definition busy_state : state :=
  {| g_pDI := Some 0%nat; g_pJoystick := Some 0%nat; g_pEffect := Some 3%nat;
     n_ticks := 5; n_effects := 4; trace := [] |}.

(** COM cannot be initialised. *)
Definition com_failure_env : Env := with_CoInitialize E_FAIL good_env.

(** The controller is found and configured but is held by another
    application. *)
Definition acquire_failure_env : Env := with_Acquire E_ACCESSDENIED good_env.

(** The third [CreateEffect] call fails. *)
Definition create_failure_env : Env :=
  with_CreateEffect (fun n => if Nat.eqb n 2 then E_FAIL else 0) good_env.

(** Every second [Start] fails. *)
Definition start_failure_env : Env :=
  with_Start (fun n => if Nat.even n then E_FAIL else 0) good_env.

(** No force-feedback controller is attached. *)
Definition no_device_env : Env :=
  {| hr_CoInitialize := 0;
     hr_DirectInput8Create := 0;
     attached := [];
     hr_EnumDevices := 0;
     hr_SetCooperativeLevel := 0;
     hr_SetDataFormat := 0;
     hr_Acquire := 0;
     tick := steady_clock 1000 10;
     hr_CreateEffect := fun _ => 0;
     hr_Start := fun _ => 0 |}.

(** ** Further readings of a trace *)

Definition is_create_device (e : event) : bool :=
  match e with ECreateDevice _ => true | _ => false end.

(** The number of [CreateDevice] calls in [tr]. *)
Definition count_create_device (tr : list event) : nat :=
  List.length (filter is_create_device tr).

(** Three controllers: the first cannot be bound, the other two can. *)
Definition three_devices : list DeviceInstance :=
  [ {| tszProductName := "Pad"; hr_CreateDevice := E_FAIL |};
    {| tszProductName := "Wheel"; hr_CreateDevice := 0 |};
    {| tszProductName := "Stick"; hr_CreateDevice := 0 |} ].

(** Calls made by the enumeration callback. *)
Definition enum_event (e : event) : Prop :=
  match e with
  | EPrintf _ _ | ECreateDevice _ => True
  | _ => False
  end.

(** The diagnostics with which [InitializeDirectInput] reports a failure. *)
Definition init_diagnostics : list string :=
  [Fmt.di_failed; Fmt.no_joystick; Fmt.coop_failed; Fmt.format_failed; Fmt.acquire_failed].

Ltac absurd_in :=
  intros; simpl in *;
  intuition (try discriminate; try congruence;
             try match goal with
                 | H : _ = _ |- _ => injection H; intros; subst; auto; congruence
                 end).

Ltac in_tail T :=
  intros;
  match goal with
  | H : In _ _ |- _ => apply (T _ _) in H as [H|[H|[H|[H|H]]]]
  end;
  try discriminate; try contradiction; absurd_in.

(** ** Use of the COM objects *)

(** The object of kind [k] on which the call [e] is made. *)
Definition uses (k : kind) (e : event) : option HANDLE :=
  match k, e with
  | KContext, EDIRelease h => Some h
  | KDevice, ESetCooperativeLevel j _ => Some j
  | KDevice, ESetDataFormat j => Some j
  | KDevice, EAcquire j => Some j
  | KDevice, EUnacquire j => Some j
  | KDevice, EDeviceRelease j => Some j
  | KDevice, ECreateEffect (Some j) _ _ => Some j
  | KEffect, EEffectStart h _ _ => Some h
  | KEffect, EEffectStop h => Some h
  | KEffect, EEffectRelease h => Some h
  | _, _ => None
  end.

(** A method call through a null device pointer. *)
Definition null_call (e : event) : Prop :=
  match e with
  | ECreateEffect None _ _ => True
  | _ => False
  end.

(** Calls made through [g_pDI] that do not record it. *)
Definition needs_context (e : event) : Prop :=
  match e with
  | EEnumDevices | ECreateDevice _ => True
  | _ => False
  end.

(** With the objects [alive], the call [e] is made on a live object, not
    through a null pointer, and creates an object only of a kind none of
    which is alive. *)
Definition well_used (alive : kind -> list HANDLE) (e : event) : Prop :=
  ~ null_call e /\
  (forall k h, uses k e = Some h -> alive k = [h]) /\
  (forall k h, created k e = Some h -> alive k = []) /\
  (needs_context e -> exists c, alive KContext = [c]).

(** Every call of [tr] is well used at the moment it is made. *)
Definition object_safe (tr : list event) : Prop :=
  forall pre e suf, tr = pre ++ e :: suf -> well_used (fun k => live k pre) e.

(** The same for a run of calls made from the objects [alive]. *)
Fixpoint chunk_ok (alive : kind -> list HANDLE) (chunk : list event) : Prop :=
  match chunk with
  | [] => True
  | e :: chunk' => well_used alive e /\ chunk_ok (fun k => track k (alive k) e) chunk'
  end.

(** The pointers match the live objects and every call so far was well
    used. *)
Definition sound (st : state) : Prop := in_sync st /\ object_safe (trace st).

Ltac use_eqs :=
  repeat match goal with
         | H : ?x = _ |- context [?x] => rewrite H
         end.

Ltac decide_handles :=
  repeat match goal with
         | |- context [Nat.eq_dec ?a ?b] =>
             let N := fresh in
             destruct (Nat.eq_dec a b) as [?|N]; [|try (now elim N)]
         end.

Ltac well_used_kind :=
  let k := fresh "k" in
  let h := fresh "h" in
  let H := fresh in
  intros k h; destruct k; simpl; try discriminate;
  intros H; injection H as H; subst; use_eqs;
  unfold track; simpl; use_eqs; decide_handles; reflexivity.

Ltac well_used_tac :=
  unfold well_used;
  split; [simpl; tauto|];
  split; [well_used_kind|];
  split; [well_used_kind|];
  simpl; try tauto; intros _; use_eqs;
  unfold track; simpl; use_eqs; decide_handles; eexists; reflexivity.

Ltac chunk_tac := cbn [app chunk_ok]; repeat (split; [well_used_tac|]); exact I.

(** ** What a run can print and submit *)

(** The lines printed outside the direction switch and the pattern
    announcement. *)
Definition fixed_lines : list string :=
  [Fmt.banner; Fmt.com_failed; Fmt.no_feedback; Fmt.di_failed; Fmt.looking;
   Fmt.no_joystick; Fmt.coop_failed; Fmt.format_failed; Fmt.acquire_failed;
   Fmt.init_ok; Fmt.found; Fmt.device_ok; Fmt.device_failed; Fmt.cleanup].

(** Calls other than [CreateEffect], [Start] and the lines of the
    oscillation; a [Sleep] is one for 10 ms. *)
Definition plain_event (e : event) : Prop :=
  match e with
  | EPrintf f _ => In f fixed_lines
  | ECreateEffect _ _ _ | EEffectStart _ _ _ => False
  | ESleep ms => ms = 10
  | _ => True
  end.

Definition not_default_line (e : event) : Prop :=
  match e with
  | EPrintf f _ => String.eqb f Fmt.default = false
  | _ => True
  end.

(** A descriptor of the one pattern the program plays: 25 ms, full
    strength, full gain. *)
Definition full_strength (eff : DIEFFECT) : Prop :=
  dwDuration eff = 25000 /\ lMagnitude eff = DI_FFNOMINALMAX /\
  dwGain eff = DI_FFNOMINALMAX.

(** ** The end of the pattern *)

(** The clock readings of [tr], in order. *)
Fixpoint readings (tr : list event) : list Z :=
  match tr with
  | [] => []
  | EGetTickCount t :: tr' => t :: readings tr'
  | _ :: tr' => readings tr'
  end.

(** The invariant of the loop on its clock readings: [start] was read
    first, every reading since was below [endTime]. *)
Definition still_early (start endTime : Z) (st : state) : Prop :=
  exists rs, readings (trace st) = start :: rs /\ Forall (fun r => r < endTime) rs.

(** The same when the loop was left by its condition: the last reading
    is not below [endTime]. *)
Definition timed_out (start endTime : Z) (st : state) : Prop :=
  exists rs t, readings (trace st) = start :: rs ++ [t] /\
               Forall (fun r => r < endTime) rs /\ endTime <= t.

(** Calls other than a clock reading. *)
Definition not_reading (e : event) : Prop :=
  match e with EGetTickCount _ => False | _ => True end.

(** A clock that starts 100 ms before the tick counter wraps. *)
Definition wrapping_env : Env :=
  {| hr_CoInitialize := 0;
     hr_DirectInput8Create := 0;
     attached := [sample_device];
     hr_EnumDevices := 0;
     hr_SetCooperativeLevel := 0;
     hr_SetDataFormat := 0;
     hr_Acquire := 0;
     tick := steady_clock (DWORD_MOD - 100) 10;
     hr_CreateEffect := fun _ => 0;
     hr_Start := fun _ => 0 |}.

(** ** How many switches fit into the pattern *)

(** The invariant of the loop that bounds the number of switches: with
    [c] descriptors handed out so far, the last switch was made at least
    26 ms per switch after [start] and, if there was one, before the end
    time; the latest reading is not before it and is below the end time. *)
Definition paced (env : Env) (start : Z) (d l : Z) (st : state) : Prop :=
  let c := Z.of_nat (List.length (submitted (trace st))) in
  start + 26 * c <= l /\
  l <= latest_tick 0 (trace st) /\
  (0 < n_ticks st)%nat /\
  latest_tick 0 (trace st) = dword (tick env (pred (n_ticks st))) /\
  latest_tick 0 (trace st) < start + OSCILLATION_DURATION.

(** A clock that advances by 26 ms from one reading to the next. *)
Definition brisk_env : Env :=
  {| hr_CoInitialize := 0;
     hr_DirectInput8Create := 0;
     attached := [sample_device];
     hr_EnumDevices := 0;
     hr_SetCooperativeLevel := 0;
     hr_SetDataFormat := 0;
     hr_Acquire := 0;
     tick := steady_clock 1000 26;
     hr_CreateEffect := fun _ => 0;
     hr_Start := fun _ => 0 |}.

(** ** Playback *)

(** Every successful [CreateEffect] of [tr] is directly followed by
    [Start] of the new effect, once and without flags, and [Start] is called
    nowhere else. *)
Definition start_after_create (tr : list event) : Prop :=
  (forall pre dev eff h suf,
     tr = pre ++ ECreateEffect dev eff (Some h) :: suf ->
     exists suf', suf = EEffectStart h 1 0 :: suf') /\
  (forall pre h it fl suf,
     tr = pre ++ EEffectStart h it fl :: suf ->
     exists pre' dev eff, pre = pre' ++ [ECreateEffect dev eff (Some h)]).

(** [st'] was reached from [st] by a run of calls that satisfies [T]. *)
Definition grows (T : list event -> Prop) (st st' : state) : Prop :=
  exists new, trace st' = trace st ++ new /\ T new.

(** ** Pacing of the polls *)

(** The number of [Sleep] calls of [tr]. *)
Fixpoint sleeps (tr : list event) : nat :=
  match tr with
  | [] => 0
  | ESleep _ :: tr' => S (sleeps tr')
  | _ :: tr' => sleeps tr'
  end.

(** Calls other than a clock reading and a [Sleep]. *)
Definition awake (e : event) : Prop :=
  match e with EGetTickCount _ | ESleep _ => False | _ => True end.

(** Every [Sleep] is for 10 ms. *)
Definition short_sleep (e : event) : Prop :=
  match e with ESleep ms => ms = 10 | _ => True end.
(** * Proofs *)

(** ** Traces only grow *)

Lemma trace_emit e st : trace (emit e st) = trace st ++ [e].
Proof. reflexivity. Qed.


Lemma extends_refl P st : extends P st st.
Proof. exists []. now rewrite app_nil_r. Qed.

Lemma extends_trans P st1 st2 st3 :
  extends P st1 st2 -> extends P st2 st3 -> extends P st1 st3.
Proof.
  intros (n1 & E1 & F1) (n2 & E2 & F2). exists (n1 ++ n2). split.
  - now rewrite E2, E1, app_assoc.
  - now apply Forall_app.
Qed.

Lemma extends_step (P : event -> Prop) st st' e :
  trace st' = trace st ++ [e] -> P e -> extends P st st'.
Proof. intros E H. exists [e]. split; [exact E | now constructor]. Qed.

Lemma extends_weaken (P Q : event -> Prop) st st' :
  (forall e, P e -> Q e) -> extends P st st' -> extends Q st st'.
Proof.
  intros H (new & E & F). exists new. split; [exact E|].
  eapply Forall_impl; eauto.
Qed.

(** ** Live objects *)

Lemma live_app k tr new : live k (tr ++ new) = fold_left (track k) new (live k tr).
Proof. unfold live. apply fold_left_app. Qed.

Lemma live_snoc k tr e : live k (tr ++ [e]) = track k (live k tr) e.
Proof. now rewrite live_app. Qed.


Lemma track_neutral k alive e : neutral e -> track k alive e = alive.
Proof. intros H. unfold track. destruct (H k) as [-> ->]. reflexivity. Qed.

Lemma in_sync_emit_neutral e st : neutral e -> in_sync st -> in_sync (emit e st).
Proof.
  intros He H k. rewrite trace_emit, live_snoc, track_neutral by assumption.
  rewrite (H k). now destruct k.
Qed.

Lemma in_sync_initial : in_sync initial_state.
Proof. intros []; reflexivity. Qed.

Lemma remove_single (h : HANDLE) : remove Nat.eq_dec h [h] = [].
Proof. simpl. destruct (Nat.eq_dec h h); congruence. Qed.


(** ** [CleanupAll] *)


Lemma CleanupAll_eq st :
  CleanupAll st =
  {| g_pDI := None; g_pJoystick := None; g_pEffect := None;
     n_ticks := n_ticks st; n_effects := n_effects st;
     trace := trace st ++ cleanup_calls st |}.
Proof.
  destruct st as [di joy [e|] nt ne tr]; destruct joy, di;
    cbv -[app Fmt.cleanup]; rewrite <- ?app_assoc; reflexivity.
Qed.

Lemma in_sync_CleanupAll st : in_sync st -> in_sync (CleanupAll st).
Proof.
  intros H k. rewrite CleanupAll_eq. simpl. unfold cleanup_calls.
  generalize (H k). destruct st as [di joy eff nt ne tr]; simpl.
  rewrite live_app. intros ->.
  destruct k; simpl; destruct eff, joy, di; simpl;
    unfold track; simpl; try reflexivity; apply remove_single.
Qed.

(** ** [InitializeDirectInput] *)

Lemma in_sync_bind idx st :
  g_pJoystick st = None -> in_sync st ->
  in_sync (set_g_pJoystick (Some idx) (emit (ECreateDevice (Some idx)) st)).
Proof.
  intros E H k. generalize (H k). simpl. rewrite live_snoc. intros ->.
  destruct k; simpl; try reflexivity. now rewrite E.
Qed.

Lemma enumerate_spec ds : forall idx st,
  let st' := enumerate ds idx st in
  g_pDI st' = g_pDI st /\ g_pEffect st' = g_pEffect st /\
  n_ticks st' = n_ticks st /\ n_effects st' = n_effects st /\
  g_pJoystick st' =
    match first_bindable ds idx with Some j => Some j | None => g_pJoystick st end /\
  extends startup_event st st' /\
  (g_pJoystick st = None -> in_sync st -> in_sync st').
Proof.
  induction ds as [|d ds IH]; intros idx st; simpl.
  - repeat split; auto using extends_refl.
  - unfold EnumDevicesCallback, CreateDevice.
    destruct (SUCCEEDED (hr_CreateDevice d)) eqn:Hd; simpl; rewrite ?Hd; simpl.
    + repeat split; auto.
      * exists [EPrintf Fmt.found [ArgStr (tszProductName d)];
                ECreateDevice (Some idx); EPrintf Fmt.device_ok []].
        split; [simpl; now repeat rewrite <- app_assoc|].
        repeat constructor.
      * intros E H. apply in_sync_emit_neutral; [neutral_tac|].
        apply in_sync_bind; [exact E|].
        apply in_sync_emit_neutral; [neutral_tac|exact H].
    + match goal with |- context [enumerate ds (S idx) ?s] =>
        destruct (IH (S idx) s) as (A & B & C & D & E & F & G) end.
      rewrite A, B, C, D, E. repeat split; auto.
      * eapply extends_trans; [|exact F].
        exists [EPrintf Fmt.found [ArgStr (tszProductName d)];
                ECreateDevice None; EPrintf Fmt.device_failed [ArgInt (hr_CreateDevice d)]].
        split; [simpl; now repeat rewrite <- app_assoc|].
        repeat constructor.
      * intros E0 H. apply G; [exact E0|].
        repeat (apply in_sync_emit_neutral; [neutral_tac|]). exact H.
Qed.

Lemma in_sync_context st :
  g_pDI st = None -> in_sync st ->
  in_sync (set_g_pDI (Some 0%nat) (emit (EDirectInput8Create (Some 0%nat)) st)).
Proof.
  intros E H k. generalize (H k). simpl. rewrite live_snoc. intros ->.
  destruct k; simpl; try reflexivity. now rewrite E.
Qed.

Lemma InitializeDirectInput_spec env st :
  g_pDI st = None -> g_pJoystick st = None -> in_sync st ->
  let '(ok, st') := InitializeDirectInput env st in
  ok = init_ok env /\ in_sync st' /\ extends startup_event st st' /\
  g_pEffect st' = g_pEffect st /\ n_ticks st' = n_ticks st /\
  n_effects st' = n_effects st /\
  (ok = true -> g_pDI st' = Some 0%nat /\ g_pJoystick st' = first_bindable (attached env) 0).
Proof.
  intros Hdi Hjoy Hsync. unfold InitializeDirectInput, DirectInput8Create, init_ok.
  destruct (FAILED (hr_DirectInput8Create env)) eqn:Fdi; simpl; rewrite ?Fdi; simpl.
  - repeat split; try discriminate.
    + repeat (apply in_sync_emit_neutral; [neutral_tac|]). exact Hsync.
    + exists [EDirectInput8Create None; EPrintf Fmt.di_failed [ArgInt (hr_DirectInput8Create env)]].
      split; [simpl; now repeat rewrite <- app_assoc|]. repeat constructor.
  - unfold EnumDevices.
    match goal with |- context [enumerate ?ds ?i ?s] =>
      destruct (enumerate_spec ds i s) as (A & B & C & D & E & F & G);
      set (st3 := enumerate ds i s) in * end.
    simpl in E. rewrite Hjoy in E.
    assert (Hs3 : in_sync st3).
    { apply G; [exact Hjoy|].
      repeat (apply in_sync_emit_neutral; [neutral_tac|]).
      apply in_sync_context; [exact Hdi|exact Hsync]. }
    assert (X3 : extends startup_event st st3).
    { eapply extends_trans; [|exact F].
      exists [EDirectInput8Create (Some 0%nat); EPrintf Fmt.looking []; EEnumDevices].
      split; [simpl; now repeat rewrite <- app_assoc|]. repeat constructor. }
    assert (step : forall e st', startup_event e -> extends startup_event st st' ->
                                 extends startup_event st (emit e st')).
    { intros e st' He X. eapply extends_trans; [exact X|].
      eapply extends_step; [apply trace_emit|exact He]. }
    rewrite E. destruct (first_bindable (attached env) 0) as [j|] eqn:Hb; simpl.
    2:{ repeat split; try discriminate; auto.
        - apply in_sync_emit_neutral; [neutral_tac|exact Hs3].
        - apply step; [reflexivity|exact X3]. }
    destruct (FAILED (hr_EnumDevices env)) eqn:Fen; simpl.
    { repeat split; try discriminate; auto.
      - apply in_sync_emit_neutral; [neutral_tac|exact Hs3].
      - apply step; [reflexivity|exact X3]. }
    destruct (FAILED (hr_SetCooperativeLevel env)) eqn:Fco; simpl.
    { repeat split; try discriminate; auto.
      - repeat (apply in_sync_emit_neutral; [neutral_tac|]). exact Hs3.
      - repeat (apply step; [reflexivity|]). exact X3. }
    destruct (FAILED (hr_SetDataFormat env)) eqn:Ffo; simpl.
    { repeat split; try discriminate; auto.
      - repeat (apply in_sync_emit_neutral; [neutral_tac|]). exact Hs3.
      - repeat (apply step; [reflexivity|]). exact X3. }
    destruct (FAILED (hr_Acquire env)) eqn:Fac; simpl.
    { repeat split; try discriminate; auto.
      - repeat (apply in_sync_emit_neutral; [neutral_tac|]). exact Hs3.
      - repeat (apply step; [reflexivity|]). exact X3. }
    repeat split; auto.
    + repeat (apply in_sync_emit_neutral; [neutral_tac|]). exact Hs3.
    + repeat (apply step; [reflexivity|]). exact X3.
Qed.

(** ** One pass through the loop *)

Lemma switch_direction_eq env si sm d t st :
  switch_direction env si sm d t st =
  if FAILED (hr_CreateEffect env (n_effects st))
  then Return (switched env si sm d None st)
  else Continue (d * -1) t (switched env si sm d (Some (n_effects st)) st).
Proof.
  unfold switch_direction, switched, switch_calls, CreateEffect, EffectStart, Sleep, printf.
  destruct st as [di joy eff nt ne tr]; simpl.
  destruct eff as [e|]; simpl;
    destruct (FAILED (hr_CreateEffect env ne)) eqn:Fc; simpl; rewrite ?Fc; simpl;
    try (destruct (FAILED (hr_Start env ne)) eqn:Fs; simpl);
    unfold emit; simpl; repeat rewrite <- app_assoc; reflexivity.
Qed.

Lemma loop_body_eq env endTime si sm d l st :
  loop_body env endTime si sm d l st =
  let t := dword (tick env (n_ticks st)) in
  let st1 := snd (GetTickCount env st) in
  if t <? endTime then
    if dword (t - l) >? dword si then switch_direction env si sm d t st1
    else Continue d l (Sleep 10 st1)
  else Break st1.
Proof. reflexivity. Qed.

(** A Hoare-style rule for the loop: [I] holds at each evaluation of the
    condition, [Q] when the loop is left. *)
Lemma loop_rule env endTime si sm
    (I : Z -> Z -> state -> Prop) (Q : loop_exit -> state -> Prop) :
  (forall d l st, I d l st -> Q LoopPolling st) ->
  (forall d l st, I d l st ->
     match loop_body env endTime si sm d l st with
     | Continue d' l' st' => I d' l' st'
     | Break st' => Q LoopDone st'
     | Return st' => Q LoopReturn st'
     end) ->
  forall fuel d l st, I d l st ->
    let r := oscillation_loop fuel env endTime si sm d l st in Q (fst r) (snd r).
Proof.
  intros Hpoll Hbody. induction fuel as [|fuel IH]; intros d l st HI; simpl.
  - eapply Hpoll; eauto.
  - specialize (Hbody d l st HI).
    destruct (loop_body env endTime si sm d l st) as [d' l' st'|st'|st']; simpl; auto.
Qed.

(** The rule for invariants that ignore the loop variables; [R] is what
    holds when the loop is left by the [return]. *)
Lemma loop_rule_return env endTime si sm (I R : state -> Prop) :
  (forall st, I st -> I (snd (GetTickCount env st))) ->
  (forall st, I st -> I (Sleep 10 st)) ->
  (forall d st, I st -> FAILED (hr_CreateEffect env (n_effects st)) = false ->
     I (switched env si sm d (Some (n_effects st)) st)) ->
  (forall d st, I st -> FAILED (hr_CreateEffect env (n_effects st)) = true ->
     R (switched env si sm d None st)) ->
  forall fuel d l st, I st ->
    let r := oscillation_loop fuel env endTime si sm d l st in
    match fst r with LoopReturn => R (snd r) | _ => I (snd r) end.
Proof.
  intros Htick Hsleep Hok Hfail fuel d l st HI.
  apply (loop_rule env endTime si sm (fun _ _ => I)
           (fun x s => match x with LoopReturn => R s | _ => I s end)); auto.
  clear fuel d l st HI. intros d l st HI. rewrite loop_body_eq. cbv zeta.
  destruct (_ <? _); [|now apply Htick].
  destruct (_ >? _); [|now apply Hsleep, Htick].
  rewrite switch_direction_eq.
  destruct (FAILED (hr_CreateEffect env (n_effects (snd (GetTickCount env st))))) eqn:F;
    [apply Hfail|apply Hok]; auto using Htick.
Qed.

Lemma loop_rule_state env endTime si sm (I : state -> Prop) :
  (forall st, I st -> I (snd (GetTickCount env st))) ->
  (forall st, I st -> I (Sleep 10 st)) ->
  (forall d p st, I st ->
     p = (if FAILED (hr_CreateEffect env (n_effects st)) then None
          else Some (n_effects st)) ->
     I (switched env si sm d p st)) ->
  forall fuel d l st, I st -> I (snd (oscillation_loop fuel env endTime si sm d l st)).
Proof.
  intros Htick Hsleep Hswitch fuel d l st HI.
  generalize (loop_rule_return env endTime si sm I I Htick Hsleep
                (fun d0 s H F => Hswitch d0 _ s H
                   (eq_sym (f_equal (fun b : bool => if b then None else Some (n_effects s)) F)))
                (fun d0 s H F => Hswitch d0 _ s H
                   (eq_sym (f_equal (fun b : bool => if b then None else Some (n_effects s)) F)))
                fuel d l st HI).
  cbv zeta. destruct (fst _); auto.
Qed.

(** ** Facts that hold all through [ApplyGentleOscillation] *)

Lemma in_sync_switched env si sm d p st :
  in_sync st ->
  p = (if FAILED (hr_CreateEffect env (n_effects st)) then None else Some (n_effects st)) ->
  in_sync (switched env si sm d p st).
Proof.
  intros H -> k. unfold switched, switch_calls; simpl. rewrite live_app, (H k).
  destruct st as [di joy eff nt ne tr]; simpl.
  destruct eff as [e|], (FAILED (hr_CreateEffect env ne)), (FAILED (hr_Start env ne)),
    k; simpl; unfold track; simpl; try reflexivity;
    (destruct (Nat.eq_dec e e) as [_|N]; [reflexivity|now elim N]).
Qed.

Lemma switch_calls_loop_event env si sm d st :
  Forall loop_event (switch_calls env si sm d st).
Proof.
  unfold switch_calls.
  destruct (g_pEffect st), (FAILED (hr_CreateEffect env (n_effects st))),
    (FAILED (hr_Start env (n_effects st))); simpl; repeat constructor.
Qed.

Lemma in_sync_GetTickCount env st : in_sync st -> in_sync (snd (GetTickCount env st)).
Proof.
  intros H k. simpl. rewrite live_snoc, track_neutral by neutral_tac.
  rewrite (H k). now destruct k.
Qed.

Lemma extends_GetTickCount (P : event -> Prop) env st :
  (forall t, P (EGetTickCount t)) -> extends P st (snd (GetTickCount env st)).
Proof. intros H. eapply extends_step; [reflexivity|apply H]. Qed.

Lemma oscillation_loop_in_sync env endTime si sm fuel d l st :
  in_sync st -> in_sync (snd (oscillation_loop fuel env endTime si sm d l st)).
Proof.
  apply loop_rule_state.
  - apply in_sync_GetTickCount.
  - intros s H. apply in_sync_emit_neutral; [neutral_tac|exact H].
  - intros; now apply in_sync_switched.
Qed.

Lemma oscillation_loop_extends (P : event -> Prop) env endTime si sm fuel d l st :
  (forall t, P (EGetTickCount t)) -> P (ESleep 10) ->
  (forall d' s, Forall P (switch_calls env si sm d' s)) ->
  extends P st (snd (oscillation_loop fuel env endTime si sm d l st)).
Proof.
  intros Ptick Psleep Pswitch.
  apply (loop_rule_state env endTime si sm (fun s => extends P st s)).
  - intros s H. eapply extends_trans; [exact H|]. now apply extends_GetTickCount.
  - intros s H. eapply extends_trans; [exact H|].
    eapply extends_step; [apply trace_emit|exact Psleep].
  - intros d0 p s H _. eapply extends_trans; [exact H|].
    exists (switch_calls env si sm d0 s). split; [reflexivity|apply Pswitch].
  - apply extends_refl.
Qed.

(** The loop leaves the context and the device pointer alone. *)
Lemma oscillation_loop_frame env endTime si sm fuel d l st :
  let st' := snd (oscillation_loop fuel env endTime si sm d l st) in
  g_pDI st' = g_pDI st /\ g_pJoystick st' = g_pJoystick st.
Proof.
  apply (loop_rule_state env endTime si sm
           (fun s => g_pDI s = g_pDI st /\ g_pJoystick s = g_pJoystick st)); auto.
Qed.

Lemma stop_effect_in_sync st : in_sync st -> in_sync (stop_effect st).
Proof.
  intros H. unfold stop_effect. destruct (g_pEffect st); [|exact H].
  apply in_sync_emit_neutral; [neutral_tac|exact H].
Qed.


Lemma oscillation_params_line ft :
  String.eqb (snd (oscillation_params ft)) Fmt.cleanup = false.
Proof.
  unfold oscillation_params. destruct (_ =? _); [reflexivity|].
  destruct (_ =? _); reflexivity.
Qed.

(** [ApplyGentleOscillation] unfolded: the clock is read, the pattern line
    printed, the loop run, and the effect stopped when the loop ended by
    its condition. *)
Lemma ApplyGentleOscillation_eq fuel env ft st :
  ApplyGentleOscillation fuel env ft st =
  let startTime := dword (tick env (n_ticks st)) in
  let st2 := printf (snd (oscillation_params ft)) [] (snd (GetTickCount env st)) in
  let r := oscillation_loop fuel env (dword (startTime + OSCILLATION_DURATION))
             (fst (fst (oscillation_params ft))) (snd (fst (oscillation_params ft)))
             1 startTime st2 in
  match fst r with
  | LoopDone => (true, stop_effect (snd r))
  | LoopReturn => (true, snd r)
  | LoopPolling => (false, snd r)
  end.
Proof.
  unfold ApplyGentleOscillation. cbn [GetTickCount]. cbv zeta.
  destruct (oscillation_params ft) as [[si sm] line]. cbn [fst snd].
  destruct (oscillation_loop _ _ _ _ _ _ _ _) as [[] st3]; reflexivity.
Qed.

Lemma stop_effect_extends (P : event -> Prop) st :
  (forall h, P (EEffectStop h)) -> extends P st (stop_effect st).
Proof.
  intros H. unfold stop_effect. destruct (g_pEffect st); [|apply extends_refl].
  eapply extends_step; [apply trace_emit|apply H].
Qed.

(** Every call [ApplyGentleOscillation] makes satisfies [P], provided the
    calls of each of its steps do. *)
Lemma ApplyGentleOscillation_extends (P : event -> Prop) fuel env ft st :
  (forall t, P (EGetTickCount t)) -> P (ESleep 10) ->
  P (EPrintf (snd (oscillation_params ft)) []) ->
  (forall h, P (EEffectStop h)) ->
  (forall d s,
     Forall P (switch_calls env (fst (fst (oscillation_params ft)))
                 (snd (fst (oscillation_params ft))) d s)) ->
  extends P st (snd (ApplyGentleOscillation fuel env ft st)).
Proof.
  intros Ptick Psleep Pline Pstop Pswitch.
  rewrite ApplyGentleOscillation_eq. cbv zeta.
  set (st2 := printf _ _ _).
  set (r := oscillation_loop _ _ _ _ _ _ _ st2).
  assert (X2 : extends P st st2).
  { eapply extends_trans; [apply extends_GetTickCount; exact Ptick|].
    eapply extends_step; [apply trace_emit|exact Pline]. }
  assert (Xr : extends P st (snd r)).
  { eapply extends_trans; [exact X2|now apply oscillation_loop_extends]. }
  destruct (fst r); cbn [snd]; auto.
  eapply extends_trans; [exact Xr|now apply stop_effect_extends].
Qed.

Lemma ApplyGentleOscillation_spec fuel env ft st :
  let st' := snd (ApplyGentleOscillation fuel env ft st) in
  (in_sync st -> in_sync st') /\ extends loop_event st st' /\
  g_pDI st' = g_pDI st /\ g_pJoystick st' = g_pJoystick st.
Proof.
  cbv zeta. split; [|split].
  2:{ apply ApplyGentleOscillation_extends; try (intros; exact I).
      - apply oscillation_params_line.
      - intros; apply switch_calls_loop_event. }
  - rewrite ApplyGentleOscillation_eq. cbv zeta. intros H.
    set (r := oscillation_loop _ _ _ _ _ _ _ _).
    assert (Sr : in_sync (snd r)).
    { apply oscillation_loop_in_sync.
      apply in_sync_emit_neutral; [neutral_tac|]. now apply in_sync_GetTickCount. }
    destruct (fst r); cbn [snd]; auto. now apply stop_effect_in_sync.
  - rewrite ApplyGentleOscillation_eq. cbv zeta.
    match goal with |- context [oscillation_loop ?f ?e ?en ?si ?sm ?d ?l ?s] =>
      destruct (oscillation_loop_frame e en si sm f d l s) as [Fd Fj];
      set (r := oscillation_loop f e en si sm d l s) in * end.
    cbv zeta in Fd, Fj.
    destruct (fst r); cbn [snd]; auto.
    unfold stop_effect. destruct (g_pEffect (snd r)); simpl; auto.
Qed.

(** ** Whole runs *)

Lemma main_eq fuel env arg :
  main fuel env arg =
  let ft := parse_feedbackType arg in
  if FAILED (hr_CoInitialize env)
  then Exit 1 (printf Fmt.com_failed [ArgInt (hr_CoInitialize env)] (com_ready arg))
  else
    let r := InitializeDirectInput env (com_ready arg) in
    if negb (fst r) then Exit 1 (emit ECoUninitialize (CleanupAll (snd r)))
    else
      let a := if negb (ft =? FEEDBACK_NONE)
               then ApplyGentleOscillation fuel env ft (snd r)
               else (true, printf Fmt.no_feedback [] (snd r)) in
      if fst a then Exit 0 (emit ECoUninitialize (CleanupAll (snd a)))
      else Running (snd a).
Proof.
  unfold main, com_ready. cbv zeta.
  destruct (FAILED (hr_CoInitialize env)); [reflexivity|].
  destruct (InitializeDirectInput env _) as [ok st]. cbn [fst snd].
  destruct (negb ok); [reflexivity|].
  destruct (if negb _ then _ else _) as [returned st']. reflexivity.
Qed.

Lemma in_sync_com_ready arg : in_sync (com_ready arg).
Proof.
  unfold com_ready.
  repeat (apply in_sync_emit_neutral; [neutral_tac|]). apply in_sync_initial.
Qed.

Lemma com_ready_init env arg :
  let r := InitializeDirectInput env (com_ready arg) in
  fst r = init_ok env /\ in_sync (snd r) /\ extends startup_event (com_ready arg) (snd r) /\
  g_pEffect (snd r) = None /\ n_ticks (snd r) = 0%nat /\ n_effects (snd r) = 0%nat /\
  (fst r = true ->
   g_pDI (snd r) = Some 0%nat /\ g_pJoystick (snd r) = first_bindable (attached env) 0).
Proof.
  generalize (InitializeDirectInput_spec env (com_ready arg) eq_refl eq_refl
                (in_sync_com_ready arg)).
  destruct (InitializeDirectInput env (com_ready arg)) as [ok st]. cbn [fst snd].
  intros H; exact H.
Qed.

(** The shape of every run: either COM could not be initialised and the
    process left at once, or a session state [st] was reached by startup
    and oscillation calls only, from which the process either cleaned up and
    left, or is still polling. *)
Lemma main_shape fuel env arg :
  (FAILED (hr_CoInitialize env) = true /\
   main fuel env arg =
     Exit 1 (printf Fmt.com_failed [ArgInt (hr_CoInitialize env)] (com_ready arg)))
  \/
  (FAILED (hr_CoInitialize env) = false /\
   exists st, in_sync st /\ extends session_event (com_ready arg) st /\
     (main fuel env arg =
        Exit (if init_ok env then 0 else 1) (emit ECoUninitialize (CleanupAll st))
      \/ (init_ok env = true /\ parse_feedbackType arg <> FEEDBACK_NONE /\
          main fuel env arg = Running st))).
Proof.
  rewrite main_eq. cbv zeta.
  destruct (FAILED (hr_CoInitialize env)) eqn:Fco; [left; auto|right; split; [reflexivity|]].
  destruct (com_ready_init env arg) as (Hok & Hs & Hx & _).
  set (r := InitializeDirectInput env (com_ready arg)) in *.
  assert (Hx' : extends session_event (com_ready arg) (snd r)).
  { eapply extends_weaken; [|exact Hx]. intros e; now left. }
  rewrite Hok. destruct (init_ok env); simpl.
  2:{ exists (snd r). auto. }
  destruct (parse_feedbackType arg =? FEEDBACK_NONE) eqn:Hft; simpl.
  - exists (printf Fmt.no_feedback [] (snd r)). repeat split.
    + apply in_sync_emit_neutral; [neutral_tac|exact Hs].
    + eapply extends_trans; [exact Hx'|].
      eapply extends_step; [apply trace_emit|]. left. reflexivity.
    + now left.
  - destruct (ApplyGentleOscillation_spec fuel env (parse_feedbackType arg) (snd r))
      as (As & Ax & _).
    exists (snd (ApplyGentleOscillation fuel env (parse_feedbackType arg) (snd r))).
    repeat split.
    + now apply As.
    + eapply extends_trans; [exact Hx'|].
      eapply extends_weaken; [|exact Ax]. intros e; now right.
    + destruct (fst (ApplyGentleOscillation _ _ _ _)); [now left|right].
      repeat split. apply Z.eqb_neq. exact Hft.
Qed.

(** The four ways a run can go. *)
Lemma main_cases fuel env arg :
  (FAILED (hr_CoInitialize env) = true /\
   main fuel env arg =
     Exit 1 (printf Fmt.com_failed [ArgInt (hr_CoInitialize env)] (com_ready arg)))
  \/
  (exists st, started env arg st /\ init_ok env = false /\
     main fuel env arg = Exit 1 (emit ECoUninitialize (CleanupAll st)))
  \/
  (exists st, started env arg st /\ parse_feedbackType arg = FEEDBACK_NONE /\
     main fuel env arg =
       Exit 0 (emit ECoUninitialize (CleanupAll (printf Fmt.no_feedback [] st))))
  \/
  (exists st, started env arg st /\ init_ok env = true /\
     parse_feedbackType arg <> FEEDBACK_NONE /\
     main fuel env arg =
       let a := ApplyGentleOscillation fuel env (parse_feedbackType arg) st in
       if fst a then Exit 0 (emit ECoUninitialize (CleanupAll (snd a)))
       else Running (snd a)).
Proof.
  rewrite main_eq. cbv zeta.
  destruct (FAILED (hr_CoInitialize env)) eqn:Fco; [left; auto|right].
  destruct (com_ready_init env arg) as (Hok & Hs & Hx & He & Ht & Hn & Hb).
  set (r := InitializeDirectInput env (com_ready arg)) in *.
  assert (Hst : started env arg (snd r)).
  { unfold started. rewrite <- Hok. auto 10. }
  rewrite Hok. destruct (init_ok env) eqn:Hi; simpl.
  2:{ left. exists (snd r). auto. }
  right. destruct (parse_feedbackType arg =? FEEDBACK_NONE) eqn:Hft; simpl.
  - left. exists (snd r). apply Z.eqb_eq in Hft. auto.
  - right. exists (snd r). apply Z.eqb_neq in Hft. auto.
Qed.

(** ** Termination *)

(** The loop is left as soon as a clock reading is not below [endTime]:
    with a reading like that among the next [fuel] ones, the fuel does not
    run out. *)
Lemma oscillation_loop_leaves env endTime si sm fuel : forall d l st,
  (exists j, (j < fuel)%nat /\ endTime <= dword (tick env (n_ticks st + j))) ->
  fst (oscillation_loop fuel env endTime si sm d l st) <> LoopPolling.
Proof.
  induction fuel as [|fuel IH]; intros d l st (j & Hj & Ht); [lia|].
  cbn [oscillation_loop]. rewrite loop_body_eq. cbv zeta.
  destruct (_ <? _) eqn:Hlt; [|simpl; discriminate].
  apply Z.ltb_lt in Hlt.
  destruct j as [|j]; [rewrite Nat.add_0_r in Ht; lia|].
  assert (Next : forall s, n_ticks s = S (n_ticks st) ->
            exists j0, (j0 < fuel)%nat /\ endTime <= dword (tick env (n_ticks s + j0))).
  { intros s Hs. exists j. split; [lia|]. rewrite Hs.
    now replace (S (n_ticks st) + j)%nat with (n_ticks st + S j)%nat by lia. }
  destruct (_ >? _).
  - rewrite switch_direction_eq. destruct (FAILED _); [simpl; discriminate|].
    apply IH, Next. reflexivity.
  - apply IH, Next. reflexivity.
Qed.

(** A run exits if one of the first [fuel] clock readings made in the
    loop is not below the end time of the pattern. *)
Lemma main_exits fuel env arg :
  (exists j, (j < fuel)%nat /\
     dword (dword (tick env 0) + OSCILLATION_DURATION) <= dword (tick env (S j))) ->
  exists code st, main fuel env arg = Exit code st.
Proof.
  intros (j & Hj & Ht).
  destruct (main_cases fuel env arg)
    as [[_ E]|[(st & Hst & _ & E)|[(st & Hst & _ & E)|(st & Hst & _ & _ & E)]]];
    rewrite E; eauto.
  cbv zeta. rewrite ApplyGentleOscillation_eq. cbv zeta.
  destruct Hst as (_ & _ & _ & N & _). rewrite N.
  match goal with |- context [oscillation_loop ?f ?e ?en ?si ?sm ?d ?l ?s] =>
    generalize (oscillation_loop_leaves e en si sm f d l s);
    set (r := oscillation_loop f e en si sm d l s) end.
  intros L. destruct (fst r); cbn [fst]; eauto.
  exfalso. apply L; [|reflexivity].
  exists j. split; [exact Hj|]. cbn [n_ticks printf emit GetTickCount snd]. now rewrite N.
Qed.

(** ** Counting the runs of [CleanupAll] *)

Lemma count_printf_app f a b :
  count_printf f (a ++ b) = (count_printf f a + count_printf f b)%nat.
Proof. unfold count_printf. now rewrite filter_app, length_app. Qed.

Lemma count_printf_none f new :
  Forall (fun e => is_printf f e = false) new -> count_printf f new = 0%nat.
Proof.
  unfold count_printf. induction 1 as [|e new He _ IH]; simpl; [reflexivity|].
  now rewrite He.
Qed.

Lemma session_event_not_cleanup e : session_event e -> is_printf Fmt.cleanup e = false.
Proof. intros [H|H]; destruct e; simpl in *; auto. Qed.

Lemma count_cleanup_session st st' :
  extends session_event st st' ->
  count_printf Fmt.cleanup (trace st') = count_printf Fmt.cleanup (trace st).
Proof.
  intros (new & -> & F). rewrite count_printf_app, (count_printf_none _ new); [lia|].
  eapply Forall_impl; [|exact F]. apply session_event_not_cleanup.
Qed.

Lemma count_cleanup_calls st : count_printf Fmt.cleanup (cleanup_calls st) = 1%nat.
Proof.
  unfold cleanup_calls. destruct (g_pEffect st), (g_pJoystick st), (g_pDI st); reflexivity.
Qed.

Lemma in_sync_all_null st :
  in_sync st -> g_pDI st = None -> g_pJoystick st = None -> g_pEffect st = None ->
  forall k, live k (trace st) = [].
Proof. intros H A B C k. rewrite (H k). destruct k; simpl; now rewrite ?A, ?B, ?C. Qed.

(** ** Claims about the Device Session *)

(** C9. [CleanupAll] is defined on every state, whichever of the three
    pointers are null.  It nulls all three, the calls it makes are exactly
    [cleanup_calls], which hold a release for an object exactly when the
    corresponding pointer was non-null, and a second call makes no call
    besides printing its closing line. *)
Theorem CleanupAll_idempotent (st : state) :
  (forall k, held k (CleanupAll st) = None) /\
  trace (CleanupAll st) = trace st ++ cleanup_calls st /\
  (forall k h,
     (exists e, In e (cleanup_calls st) /\ released k e = Some h) <-> held k st = Some h) /\
  (forall e, In e (cleanup_calls st) -> forall k, created k e = None) /\
  CleanupAll (CleanupAll st) = printf Fmt.cleanup [] (CleanupAll st).
Proof.
  rewrite !CleanupAll_eq. split; [intros []; reflexivity|].
  split; [reflexivity|]. split; [|split].
  - intros k h. unfold cleanup_calls. destruct st as [di joy eff nt ne tr]; simpl.
    split.
    + intros (e & Hin & Hr).
      destruct eff, joy, di; simpl in Hin;
        repeat (destruct Hin as [He|Hin];
                [subst e; destruct k; simpl in Hr; simpl; congruence|]);
        destruct Hin.
    + intros Hk.
      destruct k; simpl in Hk; subst.
      * exists (EDIRelease h). split; [|reflexivity].
        destruct eff, joy; simpl; auto 6.
      * exists (EDeviceRelease h). split; [|reflexivity].
        destruct eff, di; simpl; auto 6.
      * exists (EEffectRelease h). split; [|reflexivity].
        destruct joy, di; simpl; auto 6.
  - intros e Hin k. unfold cleanup_calls in Hin.
    destruct (g_pEffect st), (g_pJoystick st), (g_pDI st); simpl in Hin;
      repeat (destruct Hin as [He|Hin]; [subst e; now destruct k|]); destruct Hin.
  - reflexivity.
Qed.

Lemma CleanupAll_idempotent_witness :
  trace (CleanupAll busy_state) =
    [EEffectRelease 3%nat; EUnacquire 0%nat; EDeviceRelease 0%nat; EDIRelease 0%nat;
     EPrintf Fmt.cleanup []] /\
  trace (CleanupAll (CleanupAll busy_state)) =
    [EEffectRelease 3%nat; EUnacquire 0%nat; EDeviceRelease 0%nat; EDIRelease 0%nat;
     EPrintf Fmt.cleanup []; EPrintf Fmt.cleanup []] /\
  held KEffect (CleanupAll (CleanupAll busy_state)) = None.
Proof.
  destruct (CleanupAll_idempotent busy_state) as (N & T & _ & _ & I).
  split; [exact T|]. rewrite I. split; [|exact (N KEffect)].
  unfold printf. rewrite trace_emit, T. reflexivity.
Defined.

(** C1, as the code has it.  A run that exits leaves all three pointers
    null and no object alive.  When [CoInitialize] succeeded, [CleanupAll]
    ran exactly once: the final state is that of [CleanupAll], applied to a
    state whose pointers matched the live objects, followed by
    [CoUninitialize].  When [CoInitialize] failed, [CleanupAll] did not
    run. *)
Theorem cleanup_once_after_com (fuel : nat) (env : Env) (arg : cmdline)
    (code : Z) (st : state) :
  main fuel env arg = Exit code st ->
  (g_pDI st = None /\ g_pJoystick st = None /\ g_pEffect st = None) /\
  (forall k, live k (trace st) = []) /\
  (FAILED (hr_CoInitialize env) = false ->
     count_printf Fmt.cleanup (trace st) = 1%nat /\
     exists pre, in_sync pre /\ st = emit ECoUninitialize (CleanupAll pre)) /\
  (FAILED (hr_CoInitialize env) = true ->
     count_printf Fmt.cleanup (trace st) = 0%nat).
Proof.
  intros Hrun.
  destruct (main_shape fuel env arg) as [[Fco E]|(Fco & pre & Hs & Hx & [E|(_ & _ & E)])];
    rewrite E in Hrun; [| |discriminate]; injection Hrun as _ <-.
  - split; [repeat split|]. split.
    + apply in_sync_all_null; auto.
      apply in_sync_emit_neutral; [neutral_tac|apply in_sync_com_ready].
    + split; [congruence|reflexivity].
  - assert (Hc : in_sync (emit ECoUninitialize (CleanupAll pre))).
    { apply in_sync_emit_neutral; [neutral_tac|now apply in_sync_CleanupAll]. }
    split; [rewrite CleanupAll_eq; repeat split|]. split.
    + apply in_sync_all_null; auto; rewrite CleanupAll_eq; reflexivity.
    + split; [|congruence]. intros _. split; [|eauto].
      rewrite trace_emit, CleanupAll_eq. cbn [trace].
      rewrite !count_printf_app, count_cleanup_calls, (count_cleanup_session _ _ Hx).
      reflexivity.
Qed.

Lemma cleanup_once_after_com_witness :
  exists st, main 100 good_env (Some 1) = Exit 0 st /\
    count_printf Fmt.cleanup (trace st) = 1%nat /\ g_pJoystick st = None.
Proof.
  eexists. split; [vm_compute; reflexivity|].
  match goal with |- context [trace ?s] =>
    destruct (cleanup_once_after_com 100 good_env (Some 1) 0 s) as (G & _ & H & _) end.
  - vm_compute; reflexivity.
  - destruct (H eq_refl) as [C _]. split; [exact C|apply G].
Defined.

(** C1 as stated fails: when [CoInitialize] fails the process returns 1
    without running [CleanupAll]. *)
Lemma cleanup_skipped_on_com_failure :
  FAILED (hr_CoInitialize com_failure_env) = true /\
  exists st, main 0 com_failure_env None = Exit 1 st /\
    trace st = [EPrintf Fmt.banner [ArgInt 0]; ECoInitialize;
                EPrintf Fmt.com_failed [ArgInt E_FAIL]] /\
    count_printf Fmt.cleanup (trace st) = 0%nat.
Proof. split; [reflexivity|]. eexists. repeat split. Qed.

Lemma init_ok_false env :
  init_ok env = false <->
  FAILED (hr_DirectInput8Create env) = true \/
  first_bindable (attached env) 0 = None \/
  FAILED (hr_EnumDevices env) = true \/
  FAILED (hr_SetCooperativeLevel env) = true \/
  FAILED (hr_SetDataFormat env) = true \/
  FAILED (hr_Acquire env) = true.
Proof.
  unfold init_ok.
  destruct (FAILED (hr_DirectInput8Create env)), (first_bindable (attached env) 0),
    (FAILED (hr_EnumDevices env)), (FAILED (hr_SetCooperativeLevel env)),
    (FAILED (hr_SetDataFormat env)), (FAILED (hr_Acquire env)); simpl;
    intuition congruence.
Qed.

(** C2, as the code has it.  The exit code of a run is 0 or 1, and it is
    1 exactly when [CoInitialize] fails or a step of
    [InitializeDirectInput] fails: creating the context, the enumeration,
    binding a device, setting the cooperative level, setting the data
    format, or acquiring the device.  Nothing that happens in the loop
    changes it.  And the run does exit once a clock reading in the loop has
    reached the end time of the pattern. *)
Theorem exit_code_spec (fuel : nat) (env : Env) (arg : cmdline) :
  (forall code st,
     main fuel env arg = Exit code st ->
     (code = 0 \/ code = 1) /\
     (code = 1 <->
      FAILED (hr_CoInitialize env) = true \/
      FAILED (hr_DirectInput8Create env) = true \/
      first_bindable (attached env) 0 = None \/
      FAILED (hr_EnumDevices env) = true \/
      FAILED (hr_SetCooperativeLevel env) = true \/
      FAILED (hr_SetDataFormat env) = true \/
      FAILED (hr_Acquire env) = true)) /\
  ((exists j, (j < fuel)%nat /\
      dword (dword (tick env 0) + OSCILLATION_DURATION) <= dword (tick env (S j))) ->
   exists code st, main fuel env arg = Exit code st).
Proof.
  split; [|apply main_exits].
  intros code st Hrun. rewrite <- init_ok_false.
  destruct (main_shape fuel env arg) as [[Fco E]|(Fco & pre & _ & _ & [E|(_ & _ & E)])];
    rewrite E in Hrun; [| |discriminate]; injection Hrun as <- _.
  - split; [now right|]. split; auto.
  - destruct (init_ok env); (split; [auto|]); split;
      try (intros [H|H]; congruence); try discriminate; auto.
Qed.

Lemma exit_code_spec_witness :
  (exists j, (j < 100)%nat /\
     dword (dword (tick create_failure_env 0) + OSCILLATION_DURATION)
     <= dword (tick create_failure_env (S j))) /\
  exists st, main 100 create_failure_env (Some 2) = Exit 0 st /\ (0 = 0 \/ 0 = 1).
Proof.
  assert (H : exists j, (j < 100)%nat /\
     dword (dword (tick create_failure_env 0) + OSCILLATION_DURATION)
     <= dword (tick create_failure_env (S j))).
  { exists 29%nat. split; [lia|]. vm_compute. discriminate. }
  split; [exact H|].
  destruct (exit_code_spec 100 create_failure_env (Some 2)) as [P Q].
  destruct (Q H) as (code & st & E).
  assert (C : code = 0).
  { generalize (f_equal exit_code E). vm_compute. congruence. }
  subst code. exists st. split; [exact E|]. exact (proj1 (P 0 st E)).
Defined.

(** C2 as stated fails: the context is created and a device is found and
    bound, the device cannot be acquired, and the exit code is 1. *)
Lemma exit_1_on_acquire_failure :
  FAILED (hr_CoInitialize acquire_failure_env) = false /\
  FAILED (hr_DirectInput8Create acquire_failure_env) = false /\
  FAILED (hr_EnumDevices acquire_failure_env) = false /\
  first_bindable (attached acquire_failure_env) 0 = Some 0%nat /\
  FAILED (hr_Acquire acquire_failure_env) = true /\
  exists st, main 0 acquire_failure_env (Some 1) = Exit 1 st.
Proof. repeat split. eexists. reflexivity. Qed.

(** ** The feedback category *)

Lemma startup_not_oscillation e : startup_event e -> ~ oscillation_event e.
Proof. destruct e; simpl; tauto. Qed.

Lemma cleanup_calls_quiet st e :
  g_pEffect st = None -> In e (cleanup_calls st) -> ~ oscillation_event e.
Proof.
  unfold cleanup_calls. intros ->. destruct (g_pJoystick st), (g_pDI st); simpl;
    intros Hin; repeat (destruct Hin as [He|Hin]; [subst e; simpl; tauto|]);
    destruct Hin.
Qed.

Lemma com_ready_quiet arg e : In e (trace (com_ready arg)) -> ~ oscillation_event e.
Proof.
  simpl. intros Hin. repeat (destruct Hin as [He|Hin]; [subst e; simpl; tauto|]).
  destruct Hin.
Qed.

Lemma extends_startup_quiet arg st e :
  extends startup_event (com_ready arg) st -> In e (trace st) -> ~ oscillation_event e.
Proof.
  intros (new & -> & F) Hin. apply in_app_or in Hin as [Hin|Hin].
  - now apply (com_ready_quiet arg).
  - apply startup_not_oscillation. rewrite Forall_forall in F. now apply F.
Qed.

(** The line of the no-feedback path is printed by [main] only. *)
Lemma count_printf_emit f e st :
  count_printf f (trace (emit e st)) =
    (count_printf f (trace st) + if is_printf f e then 1 else 0)%nat.
Proof.
  rewrite trace_emit, count_printf_app. unfold count_printf at 2. simpl.
  now destruct (is_printf f e).
Qed.

Lemma enumerate_no_feedback ds : forall idx st,
  count_printf Fmt.no_feedback (trace (enumerate ds idx st)) =
    count_printf Fmt.no_feedback (trace st).
Proof.
  induction ds as [|d ds IH]; intros idx st; [reflexivity|].
  cbn [enumerate]. unfold EnumDevicesCallback, CreateDevice.
  destruct (SUCCEEDED (hr_CreateDevice d)) eqn:Hd; cbn [fst snd]; rewrite ?Hd.
  - unfold printf, set_g_pJoystick. rewrite count_printf_emit. cbn [trace].
    rewrite !count_printf_emit. cbn [is_printf]. simpl String.eqb. cbv iota. lia.
  - rewrite IH. unfold printf. rewrite !count_printf_emit. cbn [is_printf].
    simpl String.eqb. cbv iota. lia.
Qed.

Lemma InitializeDirectInput_no_feedback env st :
  count_printf Fmt.no_feedback (trace (snd (InitializeDirectInput env st))) =
    count_printf Fmt.no_feedback (trace st).
Proof.
  unfold InitializeDirectInput, DirectInput8Create, EnumDevices.
  destruct (FAILED (hr_DirectInput8Create env)) eqn:Fdi; cbn [fst snd]; rewrite ?Fdi.
  - cbn [snd]. unfold printf. rewrite !count_printf_emit. cbn [is_printf].
    simpl String.eqb. cbv iota. lia.
  - match goal with |- context [enumerate ?ds ?i ?s] =>
      assert (X3 : count_printf Fmt.no_feedback (trace (enumerate ds i s)) =
                   count_printf Fmt.no_feedback (trace st));
      [|set (st3 := enumerate ds i s) in *] end.
    { rewrite enumerate_no_feedback. unfold printf, set_g_pDI.
      rewrite !count_printf_emit. cbn [trace]. rewrite count_printf_emit.
      cbn [is_printf]. simpl String.eqb. cbv iota. lia. }
    destruct (g_pJoystick st3);
      [destruct (FAILED (hr_EnumDevices env));
       [|destruct (FAILED (hr_SetCooperativeLevel env));
         [|destruct (FAILED (hr_SetDataFormat env));
           [|destruct (FAILED (hr_Acquire env))]]]|];
      cbn [snd]; unfold printf; rewrite !count_printf_emit, X3; cbn [is_printf];
      simpl String.eqb; cbv iota; lia.
Qed.

Lemma cleaned_no_feedback st :
  count_printf Fmt.no_feedback (trace (emit ECoUninitialize (CleanupAll st))) =
    count_printf Fmt.no_feedback (trace st).
Proof.
  rewrite count_printf_emit, CleanupAll_eq. cbn [trace is_printf].
  rewrite count_printf_app.
  assert (H : count_printf Fmt.no_feedback (cleanup_calls st) = 0%nat).
  { unfold cleanup_calls. destruct (g_pEffect st), (g_pJoystick st), (g_pDI st); reflexivity. }
  rewrite H. lia.
Qed.

(** A run whose category is NONE. *)
Lemma main_none fuel env arg :
  parse_feedbackType arg = FEEDBACK_NONE ->
  exists st, extends startup_event (com_ready arg) st /\ g_pEffect st = None /\
    count_printf Fmt.no_feedback (trace st) = 0%nat /\
    main fuel env arg =
      if FAILED (hr_CoInitialize env)
      then Exit 1 (printf Fmt.com_failed [ArgInt (hr_CoInitialize env)] (com_ready arg))
      else if init_ok env
           then Exit 0 (emit ECoUninitialize (CleanupAll (printf Fmt.no_feedback [] st)))
           else Exit 1 (emit ECoUninitialize (CleanupAll st)).
Proof.
  intros Hft. rewrite main_eq, Hft. cbv zeta.
  destruct (com_ready_init env arg) as (Hok & _ & Hx & He & _).
  exists (snd (InitializeDirectInput env (com_ready arg))).
  split; [exact Hx|]. split; [exact He|].
  split; [now rewrite InitializeDirectInput_no_feedback|].
  rewrite Hok. destruct (FAILED (hr_CoInitialize env)); [reflexivity|].
  destruct (init_ok env); reflexivity.
Qed.

(** C7. When no argument is given, or the argument is an integer below 0
    or above 2, the category is NONE; the run then always exits and makes no
    clock reading, sleep or effect call at all (the loop is not entered and
    no effect is created).  The no-feedback path is taken exactly when
    startup succeeds: the run then prints "No feedback requested" and exits
    with 0; when [CoInitialize] or [InitializeDirectInput] fails, it exits
    with 1 before the feedback stage and never prints that line. *)
Theorem invalid_category_is_none (arg : cmdline) :
  (arg = None \/ exists n, arg = Some n /\ (n < 0 \/ 2 < n)) ->
  parse_feedbackType arg = FEEDBACK_NONE /\
  forall fuel env,
    (exists code st, main fuel env arg = Exit code st) /\
    (forall e, In e (trace (state_of (main fuel env arg))) -> ~ oscillation_event e) /\
    (FAILED (hr_CoInitialize env) = false -> init_ok env = true ->
     exists st, main fuel env arg = Exit 0 st /\ In (EPrintf Fmt.no_feedback []) (trace st)) /\
    (FAILED (hr_CoInitialize env) = true \/ init_ok env = false ->
     exists st, main fuel env arg = Exit 1 st /\
                count_printf Fmt.no_feedback (trace st) = 0%nat).
Proof.
  intros Harg.
  assert (Hft : parse_feedbackType arg = FEEDBACK_NONE).
  { destruct Harg as [->|(n & -> & Hn)]; [reflexivity|].
    unfold parse_feedbackType, FEEDBACK_NONE, FEEDBACK_MOVEMENT.
    destruct (n <? 0) eqn:A; [reflexivity|]. destruct (n >? 2) eqn:B; [reflexivity|].
    apply Z.ltb_ge in A. rewrite Z.gtb_ltb in B. apply Z.ltb_ge in B. lia. }
  split; [exact Hft|]. intros fuel env.
  destruct (main_none fuel env arg Hft) as (st & Hx & He & Hn & E). rewrite E.
  destruct (FAILED (hr_CoInitialize env)) eqn:Fco; [|destruct (init_ok env) eqn:Hok].
  - split; [eauto|]. split; [|split; [discriminate|]].
    + intros e Hin. simpl in Hin.
      repeat (destruct Hin as [He0|Hin]; [subst e; simpl; tauto|]). destruct Hin.
    + intros _. eexists. split; [reflexivity|]. reflexivity.
  - split; [eauto|]. split; [|split; [|intros [N|N]; discriminate]].
    + intros e. cbn [state_of]. rewrite trace_emit, CleanupAll_eq. cbn [trace].
      unfold printf at 1. rewrite trace_emit. intros Hin.
      apply in_app_or in Hin as [Hin|[<-|[]]]; [|simpl; tauto].
      apply in_app_or in Hin as [Hin|Hin].
      * apply in_app_or in Hin as [Hin|[<-|[]]]; [|simpl; tauto].
        now apply (extends_startup_quiet arg st).
      * now apply (cleanup_calls_quiet (printf Fmt.no_feedback [] st)).
    + intros _ _. eexists. split; [reflexivity|].
      rewrite trace_emit, CleanupAll_eq. cbn [trace]. unfold printf at 1.
      rewrite trace_emit. apply in_or_app. left. apply in_or_app. left.
      apply in_or_app. right. now left.
  - split; [eauto|]. split; [|split; [discriminate|]].
    + intros e. cbn [state_of]. rewrite trace_emit, CleanupAll_eq. cbn [trace]. intros Hin.
      apply in_app_or in Hin as [Hin|[<-|[]]]; [|simpl; tauto].
      apply in_app_or in Hin as [Hin|Hin].
      * now apply (extends_startup_quiet arg st).
      * now apply (cleanup_calls_quiet st).
    + intros _. eexists. split; [reflexivity|]. now rewrite cleaned_no_feedback.
Qed.

Lemma invalid_category_is_none_witness :
  parse_feedbackType (Some 7) = FEEDBACK_NONE /\
  exists st, main 0 good_env (Some 7) = Exit 0 st /\
             In (EPrintf Fmt.no_feedback []) (trace st).
Proof.
  assert (H : Some 7 = None \/ exists n, Some 7 = Some n /\ (n < 0 \/ 2 < n)).
  { right. exists 7. split; [reflexivity|lia]. }
  destruct (invalid_category_is_none (Some 7) H) as [P Q].
  split; [exact P|]. destruct (Q 0%nat good_env) as (_ & _ & R & _).
  apply R; reflexivity.
Defined.

(** C7 as stated fails: when startup fails, here because no controller is
    attached, a run with no argument or with an argument out of range exits
    with 1 and never prints "No feedback requested". *)
Lemma no_feedback_line_skipped_without_device :
  parse_feedbackType None = FEEDBACK_NONE /\
  parse_feedbackType (Some 7) = FEEDBACK_NONE /\
  init_ok no_device_env = false /\
  (exists st, main 0 no_device_env None = Exit 1 st /\
              count_printf Fmt.no_feedback (trace st) = 0%nat) /\
  (exists st, main 0 no_device_env (Some 7) = Exit 1 st /\
              count_printf Fmt.no_feedback (trace st) = 0%nat).
Proof.
  repeat split; eexists; split; reflexivity.
Qed.

(** ** Every call of a run *)

Lemma submitted_app a b : submitted (a ++ b) = submitted a ++ submitted b.
Proof.
  induction a as [|e a IH]; simpl; [reflexivity|]. destruct e; simpl; now rewrite ?IH.
Qed.

Lemma submitted_Forall (P : DIEFFECT -> Prop) tr :
  Forall (on_submitted P) tr -> Forall P (submitted tr).
Proof.
  induction 1 as [|e tr He _ IH]; simpl; [constructor|].
  destruct e; simpl in *; auto.
Qed.

Lemma cleanup_calls_Forall (P : event -> Prop) st :
  (forall e, P (EEffectRelease e)) -> (forall j, P (EUnacquire j)) ->
  (forall j, P (EDeviceRelease j)) -> (forall d, P (EDIRelease d)) ->
  P (EPrintf Fmt.cleanup []) -> Forall P (cleanup_calls st).
Proof.
  intros. unfold cleanup_calls.
  destruct (g_pEffect st), (g_pJoystick st), (g_pDI st); simpl; repeat constructor; auto.
Qed.

(** If [P] holds of every call that is not a [CreateEffect] and of the
    calls of every direction switch, it holds of every call of a run. *)
Lemma main_all_calls (P : event -> Prop) fuel env arg :
  (forall e, (forall dev eff out, e <> ECreateEffect dev eff out) -> P e) ->
  (forall d s,
     Forall P (switch_calls env (fst (fst (oscillation_params (parse_feedbackType arg))))
                 (snd (fst (oscillation_params (parse_feedbackType arg)))) d s)) ->
  Forall P (trace (state_of (main fuel env arg))).
Proof.
  intros Pother Pswitch.
  assert (Pcom : Forall P (trace (com_ready arg))).
  { simpl. repeat constructor; apply Pother; discriminate. }
  assert (Pstart : forall st, started env arg st -> Forall P (trace st)).
  { intros st (_ & (new & -> & F) & _). apply Forall_app. split; [exact Pcom|].
    eapply Forall_impl; [|exact F]. intros e He. apply Pother.
    intros dev eff out ->. exact He. }
  assert (Pclean : forall st, Forall P (trace st) ->
                      Forall P (trace (emit ECoUninitialize (CleanupAll st)))).
  { intros st H. rewrite trace_emit, CleanupAll_eq. cbn [trace].
    apply Forall_app; split; [apply Forall_app; split; [exact H|]|].
    - apply cleanup_calls_Forall; intros; apply Pother; discriminate.
    - repeat constructor. apply Pother; discriminate. }
  destruct (main_cases fuel env arg)
    as [[_ E]|[(st & Hst & _ & E)|[(st & Hst & _ & E)|(st & Hst & _ & _ & E)]]];
    rewrite E; clear E.
  - cbn [state_of]. unfold printf. rewrite trace_emit. apply Forall_app. split; auto.
    repeat constructor. apply Pother; discriminate.
  - apply Pclean, Pstart, Hst.
  - apply Pclean. unfold printf. rewrite trace_emit. apply Forall_app.
    split; [now apply Pstart|]. repeat constructor. apply Pother; discriminate.
  - cbv zeta.
    assert (Pa : Forall P (trace (snd (ApplyGentleOscillation fuel env
                                         (parse_feedbackType arg) st)))).
    { destruct (ApplyGentleOscillation_extends P fuel env (parse_feedbackType arg) st)
        as (new & -> & F); auto; try (intros; apply Pother; discriminate).
      apply Forall_app. split; [now apply Pstart|exact F]. }
    destruct (fst (ApplyGentleOscillation _ _ _ _)); cbn [state_of]; auto.
Qed.

Lemma switch_calls_on_submitted (P : DIEFFECT -> Prop) env si sm d s :
  P (build_effect si sm (d * -1)) -> Forall (on_submitted P) (switch_calls env si sm d s).
Proof.
  intros H. unfold switch_calls.
  destruct (g_pEffect s), (FAILED (hr_CreateEffect env (n_effects s))),
    (FAILED (hr_Start env (n_effects s))); simpl; repeat constructor; exact H.
Qed.

Lemma oscillation_params_interval ft :
  fst (fst (oscillation_params ft)) = 25 \/ fst (fst (oscillation_params ft)) = 0.
Proof.
  unfold oscillation_params. destruct (_ =? _); [now left|].
  destruct (_ =? _); [now left|now right].
Qed.

(** ** Claims about the Oscillation Controller *)

(** C6. The parameters are a fixed lookup on the category: OBSTACLE and
    MOVEMENT give a switch interval of 25 ms and multiplier 1, every other
    value gives 0 and 0.  Every descriptor handed to [CreateEffect], by
    [ApplyGentleOscillation] started in any state with any category and so
    in every run of the program, has a duration of the switch interval
    times 1000. *)
Theorem params_lookup_and_duration :
  fst (oscillation_params FEEDBACK_OBSTACLE) = (25, 1%Q) /\
  fst (oscillation_params FEEDBACK_MOVEMENT) = (25, 1%Q) /\
  (forall ft, ft <> FEEDBACK_OBSTACLE -> ft <> FEEDBACK_MOVEMENT ->
              fst (oscillation_params ft) = (0, 0%Q)) /\
  (forall fuel env ft st,
     exists new,
       trace (snd (ApplyGentleOscillation fuel env ft st)) = trace st ++ new /\
       Forall (fun eff => dwDuration eff = fst (fst (oscillation_params ft)) * 1000)
         (submitted new)) /\
  (forall fuel env arg,
     Forall (fun eff =>
               dwDuration eff =
               fst (fst (oscillation_params (parse_feedbackType arg))) * 1000)
       (submitted (trace (state_of (main fuel env arg))))).
Proof.
  assert (D : forall ft sm d,
             dwDuration (build_effect (fst (fst (oscillation_params ft))) sm d) =
             fst (fst (oscillation_params ft)) * 1000).
  { intros ft sm d. destruct (oscillation_params_interval ft) as [-> | ->]; reflexivity. }
  split; [reflexivity|]. split; [reflexivity|]. split; [|split].
  - intros ft H1 H2. unfold oscillation_params.
    apply Z.eqb_neq in H1, H2. now rewrite H1, H2.
  - intros fuel env ft st.
    destruct (ApplyGentleOscillation_extends
                (on_submitted (fun eff => dwDuration eff =
                                          fst (fst (oscillation_params ft)) * 1000))
                fuel env ft st) as (new & E & F); try (intros; exact I).
    + intros. apply switch_calls_on_submitted, D.
    + exists new. split; [exact E|]. now apply submitted_Forall.
  - intros fuel env arg. apply submitted_Forall. apply main_all_calls.
    + intros e He. destruct e; try exact I. now elim (He dev eff out).
    + intros. apply switch_calls_on_submitted, D.
Qed.

Lemma params_lookup_and_duration_witness :
  fst (oscillation_params 7) = (0, 0%Q) /\
  Forall (fun eff => dwDuration eff = 25000)
    (submitted (trace (state_of (main 100 good_env (Some 1))))).
Proof.
  destruct params_lookup_and_duration as (_ & _ & A & _ & B).
  split; [apply A; discriminate|exact (B 100%nat good_env (Some 1))].
Defined.

(** *** At most one live effect *)

Lemma snoc_split {A : Type} (tr pre suf : list A) (e : A) :
  tr ++ [e] = pre ++ suf ->
  (suf = [] /\ pre = tr ++ [e]) \/ (exists suf0, suf = suf0 ++ [e] /\ tr = pre ++ suf0).
Proof.
  destruct suf as [|x suf0] using rev_ind; intros E.
  - left. split; [reflexivity|]. now rewrite app_nil_r in E.
  - right. exists suf0. rewrite app_assoc in E.
    apply app_inj_tail in E as [-> ->]. auto.
Qed.

Lemma discipline_nil : effect_discipline [].
Proof.
  intros pre suf E. symmetry in E. apply app_eq_nil in E as [-> ->].
  split; [simpl; lia|]. intros; discriminate.
Qed.

Lemma discipline_snoc tr e :
  effect_discipline tr ->
  (List.length (live KEffect (tr ++ [e])) <= 1)%nat ->
  (forall dev eff out, e = ECreateEffect dev eff out ->
     live KEffect tr = [] /\
     (ever_created tr -> exists pre' h, tr = pre' ++ [EEffectRelease h])) ->
  effect_discipline (tr ++ [e]).
Proof.
  intros H L C pre suf E.
  apply snoc_split in E as [[-> ->]|(suf0 & -> & ->)].
  - split; [exact L|]. intros; discriminate.
  - destruct (H pre suf0 eq_refl) as [H1 H2]. split; [exact H1|].
    intros dev eff out suf' E. destruct suf0 as [|x suf0]; simpl in E.
    + injection E as -> <-. rewrite app_nil_r in C. eapply C; reflexivity.
    + injection E as -> E. eapply H2; reflexivity.
Qed.

Lemma owns_nil : owns [] [].
Proof. split; [apply discipline_nil|]. split; [reflexivity|simpl; lia]. Qed.

Lemma owns_quiet tr alive e : effect_quiet e -> owns tr alive -> owns (tr ++ [e]) alive.
Proof.
  intros Q (D & L & N).
  assert (L' : live KEffect (tr ++ [e]) = alive).
  { rewrite live_snoc, L. destruct e; try reflexivity; destruct Q. }
  split; [|split; assumption].
  apply discipline_snoc; [exact D|now rewrite L'|].
  intros dev eff out ->. destruct Q.
Qed.

Lemma owns_quiet_list new : forall tr alive,
  Forall effect_quiet new -> owns tr alive -> owns (tr ++ new) alive.
Proof.
  induction new as [|e new IH]; intros tr alive F H.
  - now rewrite app_nil_r.
  - inversion F; subst. change (e :: new) with ([e] ++ new). rewrite app_assoc.
    apply IH; [assumption|]. now apply owns_quiet.
Qed.

Lemma owns_release tr h : owns tr [h] -> owns (tr ++ [EEffectRelease h]) [].
Proof.
  intros (D & L & N).
  assert (L' : live KEffect (tr ++ [EEffectRelease h]) = []).
  { rewrite live_snoc, L. apply remove_single. }
  split; [|split; [exact L'|simpl; lia]].
  apply discipline_snoc; [exact D|rewrite L'; simpl; lia|]. intros; discriminate.
Qed.

Lemma owns_create tr dev eff out :
  owns tr [] ->
  (ever_created tr -> exists pre' h, tr = pre' ++ [EEffectRelease h]) ->
  owns (tr ++ [ECreateEffect dev eff out]) (opt_list out).
Proof.
  intros (D & L & N) C.
  assert (L' : live KEffect (tr ++ [ECreateEffect dev eff out]) = opt_list out).
  { rewrite live_snoc, L. now destruct out. }
  split; [|split; [exact L'|destruct out; simpl; lia]].
  apply discipline_snoc; [exact D|rewrite L'; destruct out; simpl; lia|].
  intros dev' eff' out' _. auto.
Qed.

Lemma ever_created_quiet new : forall tr,
  Forall effect_quiet new -> ever_created (tr ++ new) -> ever_created tr.
Proof.
  intros tr F (dev & eff & h & Hin). apply in_app_or in Hin as [Hin|Hin].
  - exists dev, eff, h. exact Hin.
  - rewrite Forall_forall in F. destruct (F _ Hin).
Qed.

Lemma owning_quiet e st : effect_quiet e -> owning st -> owning (emit e st).
Proof.
  intros Q [O N]. split.
  - rewrite trace_emit. now apply owns_quiet.
  - intros E C. rewrite trace_emit in C.
    apply (ever_created_quiet [e]) in C; [now apply N|now constructor].
Qed.

(** The part of a direction switch up to and including [CreateEffect]. *)
Lemma owns_switch_create st dev eff out :
  owning st ->
  owns ((trace st ++ match g_pEffect st with Some e => [EEffectRelease e] | None => [] end)
          ++ [ECreateEffect dev eff out]) (opt_list out).
Proof.
  intros [O N]. destruct (g_pEffect st) as [e|]; simpl in *.
  - apply owns_create; [now apply owns_release|]. intros _. eauto.
  - rewrite app_nil_r. apply owns_create; [exact O|].
    intros C. now elim (N eq_refl).
Qed.

Lemma switch_calls_split env si sm d st :
  switch_calls env si sm d st =
  (match g_pEffect st with Some e => [EEffectRelease e] | None => [] end ++
   [ECreateEffect (g_pJoystick st) (build_effect si sm (d * -1))
      (if FAILED (hr_CreateEffect env (n_effects st)) then None
       else Some (n_effects st))]) ++
  (if FAILED (hr_CreateEffect env (n_effects st))
   then [EPrintf Fmt.create_failed [ArgInt (hr_CreateEffect env (n_effects st))]]
   else [EEffectStart (n_effects st) 1 0] ++
        (if FAILED (hr_Start env (n_effects st))
         then [EPrintf Fmt.start_failed [ArgInt (hr_Start env (n_effects st))]] else []) ++
        [ESleep 10]).
Proof.
  unfold switch_calls. rewrite <- app_assoc.
  destruct (FAILED (hr_CreateEffect env (n_effects st))); reflexivity.
Qed.

Lemma switch_tail_quiet env st :
  Forall effect_quiet
    (if FAILED (hr_CreateEffect env (n_effects st))
     then [EPrintf Fmt.create_failed [ArgInt (hr_CreateEffect env (n_effects st))]]
     else [EEffectStart (n_effects st) 1 0] ++
          (if FAILED (hr_Start env (n_effects st))
           then [EPrintf Fmt.start_failed [ArgInt (hr_Start env (n_effects st))]] else []) ++
          [ESleep 10]).
Proof.
  destruct (FAILED (hr_CreateEffect env (n_effects st))),
    (FAILED (hr_Start env (n_effects st))); simpl; repeat constructor.
Qed.

Lemma owns_switched env si sm d st :
  owning st ->
  let p := if FAILED (hr_CreateEffect env (n_effects st)) then None
           else Some (n_effects st) in
  owns (trace (switched env si sm d p st)) (opt_list p).
Proof.
  intros H p. unfold switched. cbn [trace]. rewrite switch_calls_split, !app_assoc.
  apply owns_quiet_list; [apply switch_tail_quiet|].
  now apply owns_switch_create.
Qed.





Lemma startup_effect_quiet e : startup_event e -> effect_quiet e.
Proof. destruct e; simpl; auto. Qed.

Lemma owning_com_ready arg : owning (com_ready arg).
Proof.
  unfold com_ready, printf. repeat (apply owning_quiet; [exact I|]).
  split; [apply owns_nil|]. intros _ (dev & eff & h & []).
Qed.

Lemma started_owning env arg st : started env arg st -> owning st.
Proof.
  intros (_ & (new & E & F) & He & _).
  assert (Q : Forall effect_quiet new).
  { eapply Forall_impl; [|exact F]. apply startup_effect_quiet. }
  destruct (owning_com_ready arg) as [O N]. split.
  - rewrite E, He. now apply owns_quiet_list.
  - intros _ C. rewrite E in C. apply (ever_created_quiet new) in C; [|exact Q].
    now apply N.
Qed.



(** *** A failed [CreateEffect] *)

Lemma ApplyGentleOscillation_of fuel env ft st :
  ApplyGentleOscillation fuel env ft st =
  match fst (oscillation_of fuel env ft st) with
  | LoopDone => (true, stop_effect (snd (oscillation_of fuel env ft st)))
  | LoopReturn => (true, snd (oscillation_of fuel env ft st))
  | LoopPolling => (false, snd (oscillation_of fuel env ft st))
  end.
Proof. apply ApplyGentleOscillation_eq. Qed.

Lemma polling_emit di joy e st : calm_event e -> effect_quiet e ->
  polling di joy st -> polling di joy (emit e st).
Proof.
  intros C Q (O & F & D & J). split; [now apply owning_quiet|].
  split; [|auto]. rewrite trace_emit. apply Forall_app. split; [exact F|now constructor].
Qed.

Lemma switch_tail_calm env st :
  FAILED (hr_CreateEffect env (n_effects st)) = false ->
  Forall calm_event
    ([EEffectStart (n_effects st) 1 0] ++
     (if FAILED (hr_Start env (n_effects st))
      then [EPrintf Fmt.start_failed [ArgInt (hr_Start env (n_effects st))]] else []) ++
     [ESleep 10]).
Proof. intros _. destruct (FAILED (hr_Start env (n_effects st))); repeat constructor. Qed.

Lemma oscillation_loop_abort env endTime si sm fuel d l st di joy :
  polling di joy st ->
  let r := oscillation_loop fuel env endTime si sm d l st in
  match fst r with
  | LoopReturn => aborted di joy (snd r)
  | _ => polling di joy (snd r)
  end.
Proof.
  apply loop_rule_return.
  - intros s H. cbn [GetTickCount snd]. apply polling_emit; [exact I|exact I|exact H].
  - intros s H. apply polling_emit; [exact I|exact I|exact H].
  - intros d0 s (O & F & D & J) Fc. split; [|split; [|auto]].
    + split; [|discriminate].
      generalize (owns_switched env si sm d0 s O). cbv zeta. now rewrite Fc.
    + unfold switched. cbn [trace]. rewrite switch_calls_split, Fc.
      apply Forall_app; split; [exact F|].
      apply Forall_app; split; [apply Forall_app; split|].
      * destruct (g_pEffect s); repeat constructor.
      * repeat constructor.
      * now apply switch_tail_calm.
  - intros d0 s (O & F & D & J) Fc. unfold aborted.
    exists (trace s ++ match g_pEffect s with Some e => [EEffectRelease e] | None => [] end),
      (g_pJoystick s), (build_effect si sm (d0 * -1)), (hr_CreateEffect env (n_effects s)).
    split; [|split; [exact Fc|split; [|split; [|split; [|auto]]]]].
    + unfold switched. cbn [trace]. rewrite switch_calls_split, Fc.
      now rewrite <- !app_assoc.
    + apply Forall_app. split; [exact F|]. destruct (g_pEffect s); repeat constructor.
    + destruct O as [(_ & L & _) _]. destruct (g_pEffect s) as [e|]; simpl in *.
      * rewrite live_snoc, L. apply remove_single.
      * now rewrite app_nil_r.
    + destruct O as [_ N]. destruct (g_pEffect s) as [e|]; simpl in *; [eauto|].
      rewrite app_nil_r. intros C. now elim (N eq_refl).
Qed.

Lemma calm_not_failed e : calm_event e -> not_failed_create e.
Proof. destruct e as [| | | | | | | | | |dev eff [h|]| | | | | | |]; simpl; auto. Qed.

Lemma startup_calm e : startup_event e -> calm_event e.
Proof. destruct e; simpl; tauto. Qed.

Lemma started_polling env arg st :
  started env arg st -> polling (g_pDI st) (g_pJoystick st) st.
Proof.
  intros H. split; [now apply (started_owning env arg)|]. split; [|auto].
  destruct H as (_ & (new & -> & F) & _). apply Forall_app. split.
  - simpl. repeat constructor.
  - eapply Forall_impl; [|exact F]. apply startup_calm.
Qed.

(** What [ApplyGentleOscillation] leaves behind: either no [CreateEffect]
    has failed, or the function returned from the state of the abort. *)
Lemma ApplyGentleOscillation_abort fuel env ft st :
  polling (g_pDI st) (g_pJoystick st) st ->
  let a := ApplyGentleOscillation fuel env ft st in
  Forall not_failed_create (trace (snd a)) \/
  (fst a = true /\ fst (oscillation_of fuel env ft st) = LoopReturn /\
   aborted (g_pDI st) (g_pJoystick st) (snd a)).
Proof.
  intros H. cbv zeta. rewrite ApplyGentleOscillation_of.
  assert (H2 : polling (g_pDI st) (g_pJoystick st)
                 (printf (snd (oscillation_params ft)) [] (snd (GetTickCount env st)))).
  { apply polling_emit; [exact I|exact I|]. cbn [GetTickCount snd].
    apply polling_emit; [exact I|exact I|exact H]. }
  generalize (oscillation_loop_abort env
                (dword (dword (tick env (n_ticks st)) + OSCILLATION_DURATION))
                (fst (fst (oscillation_params ft))) (snd (fst (oscillation_params ft)))
                fuel 1 (dword (tick env (n_ticks st))) _ _ _ H2).
  cbv zeta. fold (oscillation_of fuel env ft st).
  destruct (fst (oscillation_of fuel env ft st)); cbn [fst snd]; intros Hr.
  - left. destruct Hr as (_ & F & _). unfold stop_effect.
    destruct (g_pEffect _); [rewrite trace_emit; apply Forall_app; split|];
      try (eapply Forall_impl; [|exact F]; apply calm_not_failed).
    repeat constructor.
  - right. auto.
  - left. destruct Hr as (_ & F & _).
    eapply Forall_impl; [|exact F]. apply calm_not_failed.
Qed.

Lemma not_failed_create_In tr dev eff :
  Forall not_failed_create tr -> ~ In (ECreateEffect dev eff None) tr.
Proof. intros F Hin. rewrite Forall_forall in F. exact (F _ Hin). Qed.

Lemma cleaned_not_failed st :
  Forall not_failed_create (trace st) ->
  Forall not_failed_create (trace (emit ECoUninitialize (CleanupAll st))).
Proof.
  intros H. rewrite trace_emit, CleanupAll_eq. cbn [trace].
  apply Forall_app; split; [apply Forall_app; split; [exact H|]|].
  - apply cleanup_calls_Forall; intros; exact I.
  - repeat constructor.
Qed.

Lemma started_bound env arg st :
  started env arg st -> init_ok env = true ->
  exists j, g_pDI st = Some 0%nat /\ g_pJoystick st = Some j.
Proof.
  intros (_ & _ & _ & _ & _ & H) Hok. destruct (H Hok) as [D J].
  unfold init_ok in Hok. destruct (first_bindable (attached env) 0) as [j|].
  - eauto.
  - rewrite andb_false_r in Hok. discriminate.
Qed.

(** A run in which a [CreateEffect] failed: startup had succeeded, the
    loop was left by the [return], and the process cleaned up and exited
    with 0. *)
Lemma main_abort fuel env arg dev eff :
  In (ECreateEffect dev eff None) (trace (state_of (main fuel env arg))) ->
  exists st j,
    started env arg st /\
    fst (oscillation_of fuel env (parse_feedbackType arg) st) = LoopReturn /\
    aborted (Some 0%nat) (Some j) (snd (oscillation_of fuel env (parse_feedbackType arg) st)) /\
    main fuel env arg =
      Exit 0 (emit ECoUninitialize
                (CleanupAll (snd (oscillation_of fuel env (parse_feedbackType arg) st)))).
Proof.
  intros Hin.
  destruct (main_cases fuel env arg)
    as [[_ E]|[(st & Hst & _ & E)|[(st & Hst & _ & E)|(st & Hst & Hok & _ & E)]]];
    rewrite E in Hin |- *; cbn [state_of] in Hin.
  - exfalso. simpl in Hin.
    repeat (destruct Hin as [He|Hin]; [discriminate|]). destruct Hin.
  - exfalso. revert Hin. apply not_failed_create_In, cleaned_not_failed.
    apply started_polling in Hst as (_ & F & _).
    eapply Forall_impl; [|exact F]. apply calm_not_failed.
  - exfalso. revert Hin. apply not_failed_create_In, cleaned_not_failed.
    apply started_polling in Hst as (_ & F & _).
    unfold printf. rewrite trace_emit. apply Forall_app. split; [|repeat constructor].
    eapply Forall_impl; [|exact F]. apply calm_not_failed.
  - destruct (started_bound env arg st Hst Hok) as (j & D & J).
    generalize (ApplyGentleOscillation_abort fuel env (parse_feedbackType arg) st
                  (started_polling env arg st Hst)).
    cbv zeta in *. rewrite D, J.
    intros [F|(Ha & Hr & Hab)].
    + exfalso. revert Hin.
      destruct (fst (ApplyGentleOscillation _ _ _ _)); cbn [state_of];
        apply not_failed_create_In; [now apply cleaned_not_failed|exact F].
    + rewrite Ha. exists st, j. rewrite ApplyGentleOscillation_of, Hr in Hab |- *.
      cbn [snd] in *. auto.
Qed.

(** The trace of a run after an abort, call by call. *)
Lemma aborted_trace j st dev eff :
  aborted (Some 0%nat) (Some j) st ->
  In (ECreateEffect dev eff None) (trace (emit ECoUninitialize (CleanupAll st))) ->
  exists pre hr,
    trace (emit ECoUninitialize (CleanupAll st)) =
      pre ++ [ECreateEffect dev eff None; EPrintf Fmt.create_failed [ArgInt hr];
              EUnacquire j; EDeviceRelease j; EDIRelease 0%nat;
              EPrintf Fmt.cleanup []; ECoUninitialize] /\
    FAILED hr = true /\ Forall calm_event pre /\ live KEffect pre = [] /\
    (ever_created pre -> exists pre' h, pre = pre' ++ [EEffectRelease h]).
Proof.
  intros (pre & dev' & eff' & hr & E & Fh & C & L & R & Ge & Gd & Gj) Hin.
  assert (T : trace (emit ECoUninitialize (CleanupAll st)) =
              pre ++ [ECreateEffect dev' eff' None; EPrintf Fmt.create_failed [ArgInt hr];
                      EUnacquire j; EDeviceRelease j; EDIRelease 0%nat;
                      EPrintf Fmt.cleanup []; ECoUninitialize]).
  { rewrite trace_emit, CleanupAll_eq. cbn [trace]. unfold cleanup_calls.
    rewrite E, Ge, Gd, Gj. simpl. now rewrite <- !app_assoc. }
  rewrite T in Hin |- *. apply in_app_or in Hin as [Hin|Hin].
  - exfalso. rewrite Forall_forall in C. exact (C _ Hin).
  - simpl in Hin. destruct Hin as [He|Hin].
    + injection He as -> ->. exists pre, hr. auto.
    + exfalso. repeat (destruct Hin as [He|Hin]; [discriminate|]). destruct Hin.
Qed.

Lemma oscillation_of_return_null fuel env ft st :
  fst (oscillation_of fuel env ft st) = LoopReturn ->
  g_pEffect (snd (oscillation_of fuel env ft st)) = None.
Proof.
  unfold oscillation_of.
  match goal with |- context [oscillation_loop ?f ?e ?en ?si ?sm ?d ?l ?s] =>
    generalize (loop_rule_return e en si sm (fun _ => True)
                  (fun s' => g_pEffect s' = None)
                  (fun _ _ => I) (fun _ _ => I) (fun _ _ _ _ => I)
                  (fun _ _ _ _ => eq_refl) f d l s I) end.
  cbv zeta. intros H E. now rewrite E in H.
Qed.

(** C5. If a [CreateEffect] fails in a run, then it is the only one that
    failed, its diagnostic is printed, and the calls made after it are
    exactly those of [CleanupAll] on a session with no effect, followed by
    [CoUninitialize]: no further [CreateEffect], no further poll, and no
    [Stop].  The [return] of line 200 leaves the function before the stop of
    lines 214-217, so that stop is not executed: the run holds no [Stop]
    call at all.  [CleanupAll] does run, and the run exits with code 0. *)
Theorem abort_on_create_failure (fuel : nat) (env : Env) (arg : cmdline)
    (dev : option HANDLE) (eff : DIEFFECT) :
  In (ECreateEffect dev eff None) (trace (state_of (main fuel env arg))) ->
  exists st pre hr j,
    main fuel env arg = Exit 0 st /\
    trace st =
      pre ++ [ECreateEffect dev eff None; EPrintf Fmt.create_failed [ArgInt hr];
              EUnacquire j; EDeviceRelease j; EDIRelease 0%nat;
              EPrintf Fmt.cleanup []; ECoUninitialize] /\
    FAILED hr = true /\
    (forall dev' eff', ~ In (ECreateEffect dev' eff' None) pre) /\
    (forall h, ~ In (EEffectStop h) (trace st)).
Proof.
  intros Hin.
  destruct (main_abort fuel env arg dev eff Hin) as (st0 & j & _ & _ & Hab & E).
  rewrite E in Hin. cbn [state_of] in Hin.
  destruct (aborted_trace j _ dev eff Hab Hin) as (pre & hr & T & Fh & C & _).
  eexists _, pre, hr, j. split; [exact E|]. split; [exact T|]. split; [exact Fh|].
  split.
  - intros dev' eff'. apply not_failed_create_In.
    eapply Forall_impl; [|exact C]. apply calm_not_failed.
  - intros h. rewrite T. intros Hs. apply in_app_or in Hs as [Hs|Hs].
    + rewrite Forall_forall in C. exact (C _ Hs).
    + simpl in Hs. repeat (destruct Hs as [N|Hs]; [discriminate|]). destruct Hs.
Qed.

Lemma abort_on_create_failure_witness :
  In (ECreateEffect (Some 0%nat) (build_effect 25 1 (-1)) None)
     (trace (state_of (main 100 create_failure_env (Some 1)))) /\
  exists st pre hr j,
    main 100 create_failure_env (Some 1) = Exit 0 st /\
    trace st =
      pre ++ [ECreateEffect (Some 0%nat) (build_effect 25 1 (-1)) None;
              EPrintf Fmt.create_failed [ArgInt hr];
              EUnacquire j; EDeviceRelease j; EDIRelease 0%nat;
              EPrintf Fmt.cleanup []; ECoUninitialize] /\
    FAILED hr = true /\
    (forall dev' eff', ~ In (ECreateEffect dev' eff' None) pre) /\
    (forall h, ~ In (EEffectStop h) (trace st)).
Proof.
  assert (H : In (ECreateEffect (Some 0%nat) (build_effect 25 1 (-1)) None)
                (trace (state_of (main 100 create_failure_env (Some 1))))) by in_list.
  split; [exact H|].
  exact (abort_on_create_failure 100 create_failure_env (Some 1) _ _ H).
Defined.

(** C5 as stated fails: in this run two effects are created and started,
    the third [CreateEffect] fails, and the run ends with the diagnostic and
    the calls of [CleanupAll]; the stop of lines 214-217 is not executed, no
    [Stop] is called on any effect. *)
Lemma stop_skipped_on_create_failure :
  exists st pre,
    main 100 create_failure_env (Some 1) = Exit 0 st /\
    trace st =
      pre ++ [ECreateEffect (Some 0%nat) (build_effect 25 1 (-1)) None;
              EPrintf Fmt.create_failed [ArgInt E_FAIL];
              EUnacquire 0%nat; EDeviceRelease 0%nat; EDIRelease 0%nat;
              EPrintf Fmt.cleanup []; ECoUninitialize] /\
    In (EEffectStart 0%nat 1 0) pre /\ In (EEffectStart 1%nat 1 0) pre /\
    (forall h, ~ In (EEffectStop h) (trace st)).
Proof.
  destruct (main 100 create_failure_env (Some 1)) as [code st|st] eqn:E;
    [|vm_compute in E; discriminate].
  assert (C : code = 0) by (vm_compute in E; now injection E as <- _).
  subst code.
  assert (Et : trace st = trace (state_of (main 100 create_failure_env (Some 1))))
    by now rewrite E.
  exists st, (firstn (List.length (trace st) - 7) (trace st)).
  split; [reflexivity|]. rewrite Et. split; [|split; [|split]].
  - vm_compute. reflexivity.
  - vm_compute. tauto.
  - vm_compute. tauto.
  - intros h Hs. vm_compute in Hs. intuition discriminate.
Qed.

(** C10. If a [CreateEffect] fails in a run, then at that call no effect
    was alive (an effect created earlier was released by the call just
    before), no effect is released afterwards, and no [Stop] is issued
    anywhere in the run, so the effect started last is never stopped.  In
    the state the loop returns from, [g_pEffect] is null, the stop of lines
    214-217 would change nothing, and [CleanupAll] releases no effect. *)
Theorem effect_null_after_abort (fuel : nat) (env : Env) (arg : cmdline)
    (dev : option HANDLE) (eff : DIEFFECT) :
  In (ECreateEffect dev eff None) (trace (state_of (main fuel env arg))) ->
  (exists pre suf,
     trace (state_of (main fuel env arg)) = pre ++ ECreateEffect dev eff None :: suf /\
     live KEffect pre = [] /\
     (ever_created pre -> exists pre' h, pre = pre' ++ [EEffectRelease h]) /\
     (forall h, ~ In (EEffectRelease h) suf) /\
     (forall h, ~ In (EEffectStop h) (trace (state_of (main fuel env arg))))) /\
  (forall fuel' env' ft st0,
     fst (oscillation_of fuel' env' ft st0) = LoopReturn ->
     let st := snd (oscillation_of fuel' env' ft st0) in
     g_pEffect st = None /\ stop_effect st = st /\
     (forall h, ~ In (EEffectRelease h) (cleanup_calls st))).
Proof.
  intros Hin. split.
  - destruct (main_abort fuel env arg dev eff Hin) as (st0 & j & _ & _ & Hab & E).
    rewrite E in Hin |- *. cbn [state_of] in *.
    destruct (aborted_trace j _ dev eff Hab Hin) as (pre & hr & T & _ & C & L & R).
    rewrite T. eexists pre, _. split; [reflexivity|]. split; [exact L|].
    split; [exact R|]. split.
    + intros h Hh. simpl in Hh.
      repeat (destruct Hh as [He|Hh]; [discriminate|]). destruct Hh.
    + intros h Hh. apply in_app_or in Hh as [Hh|Hh].
      * rewrite Forall_forall in C. exact (C _ Hh).
      * simpl in Hh. repeat (destruct Hh as [He|Hh]; [discriminate|]). destruct Hh.
  - intros fuel' env' ft st0 Hr. cbv zeta.
    generalize (oscillation_of_return_null _ _ _ _ Hr). intros Hn.
    split; [exact Hn|]. split; [unfold stop_effect; now rewrite Hn|].
    intros h. unfold cleanup_calls. rewrite Hn.
    destruct (g_pJoystick _), (g_pDI _); simpl; intros Hh;
      repeat (destruct Hh as [He|Hh]; [discriminate|]); destruct Hh.
Qed.

Lemma effect_null_after_abort_witness :
  In (ECreateEffect (Some 0%nat) (build_effect 25 1 (-1)) None)
     (trace (state_of (main 100 create_failure_env (Some 2)))) /\
  forall h, ~ In (EEffectStop h) (trace (state_of (main 100 create_failure_env (Some 2)))).
Proof.
  assert (H : In (ECreateEffect (Some 0%nat) (build_effect 25 1 (-1)) None)
                (trace (state_of (main 100 create_failure_env (Some 2))))) by in_list.
  split; [exact H|].
  destruct (proj1 (effect_null_after_abort 100 create_failure_env (Some 2) _ _ H))
    as (pre & suf & _ & _ & _ & _ & S).
  exact S.
Defined.

(** *** Direction and timing *)

Lemma switch_times_from_app a : forall now b,
  switch_times_from now (a ++ b) =
  switch_times_from now a ++ switch_times_from (latest_tick now a) b.
Proof.
  induction a as [|e a IH]; intros now b; simpl; [reflexivity|].
  destruct e; simpl; rewrite ?IH; reflexivity.
Qed.

Lemma latest_tick_app a : forall now b,
  latest_tick now (a ++ b) = latest_tick (latest_tick now a) b.
Proof.
  induction a as [|e a IH]; intros now b; simpl; [reflexivity|].
  destruct e; simpl; rewrite ?IH; reflexivity.
Qed.

Lemma untimed_list new : Forall untimed new -> forall now,
  submitted new = [] /\ switch_times_from now new = [] /\ latest_tick now new = now.
Proof.
  induction 1 as [|e new He _ IH]; intros now; simpl; [auto|].
  destruct e; simpl in *; try (now destruct He); apply IH.
Qed.

Lemma untimed_app tr new : Forall untimed new ->
  submitted (tr ++ new) = submitted tr /\
  switch_times (tr ++ new) = switch_times tr /\
  latest_tick 0 (tr ++ new) = latest_tick 0 tr.
Proof.
  intros F. unfold switch_times.
  rewrite submitted_app, switch_times_from_app, latest_tick_app.
  destruct (untimed_list new F (latest_tick 0 tr)) as (-> & -> & ->).
  now rewrite !app_nil_r.
Qed.

Lemma alternates_from_snoc subs : forall d eff,
  alternates_from d subs -> rglDirection eff = [nth_sign d (List.length subs); 0] ->
  alternates_from d (subs ++ [eff]).
Proof.
  induction subs as [|e subs IH]; intros d eff H E; simpl in *.
  - auto.
  - destruct H as [H1 H2]. split; [exact H1|]. apply IH; [exact H2|].
    rewrite E. unfold nth_sign. rewrite Nat.even_succ, <- Nat.negb_even.
    destruct (Nat.even (List.length subs)); simpl; f_equal; lia.
Qed.

Lemma last_cons_default (ts : list Z) : forall a d d', last (a :: ts) d = last (a :: ts) d'.
Proof.
  induction ts as [|x ts IH]; intros a d d'; [reflexivity|].
  change (last (x :: ts) d = last (x :: ts) d'). apply IH.
Qed.

Lemma gaps_from_snoc lo hi ts : forall prev t,
  gaps_from lo hi prev ts -> lo < dword (t - last ts prev) <= hi ->
  gaps_from lo hi prev (ts ++ [t]).
Proof.
  induction ts as [|x ts IH]; intros prev t H E; simpl in *.
  - auto.
  - destruct H as [H1 H2]. split; [exact H1|]. apply IH; [exact H2|].
    destruct ts as [|z ts]; [exact E|].
    now rewrite (last_cons_default ts z x prev).
Qed.

Lemma dword_range z : 0 <= dword z < DWORD_MOD.
Proof. unfold dword. apply Z.mod_pos_bound. reflexivity. Qed.

Lemma dword_small z : 0 <= z < DWORD_MOD -> dword z = z.
Proof. intros H. unfold dword. now apply Z.mod_small. Qed.

Lemma dword_sub_dword a b : dword (dword a - dword b) = dword (a - b).
Proof. unfold dword. symmetry. apply Zminus_mod. Qed.

(** The wrapping difference is subadditive. *)
Lemma dword_triangle a b c : dword (a - c) <= dword (a - b) + dword (b - c).
Proof.
  replace (a - c) with ((a - b) + (b - c)) by ring. unfold dword.
  rewrite Z.add_mod by discriminate.
  apply Z.mod_le.
  - generalize (dword_range (a - b)) (dword_range (b - c)). unfold dword. lia.
  - reflexivity.
Qed.

Lemma switch_calls_timed env si sm d st now :
  submitted (switch_calls env si sm d st) = [build_effect si sm (d * -1)] /\
  switch_times_from now (switch_calls env si sm d st) = [now] /\
  latest_tick now (switch_calls env si sm d st) = now.
Proof.
  unfold switch_calls.
  destruct (g_pEffect st), (FAILED (hr_CreateEffect env (n_effects st))),
    (FAILED (hr_Start env (n_effects st))); simpl; auto.
Qed.

Lemma timed_tick env st :
  let st1 := snd (GetTickCount env st) in
  submitted (trace st1) = submitted (trace st) /\
  switch_times (trace st1) = switch_times (trace st) /\
  latest_tick 0 (trace st1) = dword (tick env (n_ticks st)) /\
  n_ticks st1 = S (n_ticks st).
Proof.
  cbn [GetTickCount snd]. rewrite trace_emit. cbn [trace]. unfold switch_times.
  rewrite submitted_app, switch_times_from_app, latest_tick_app. simpl.
  now rewrite !app_nil_r.
Qed.

Lemma timed_switched env si sm d p st :
  let st' := switched env si sm d p st in
  submitted (trace st') = submitted (trace st) ++ [build_effect si sm (d * -1)] /\
  switch_times (trace st') = switch_times (trace st) ++ [latest_tick 0 (trace st)] /\
  latest_tick 0 (trace st') = latest_tick 0 (trace st) /\
  n_ticks st' = n_ticks st.
Proof.
  unfold switched, switch_times. cbn [trace n_ticks].
  rewrite submitted_app, switch_times_from_app, latest_tick_app.
  destruct (switch_calls_timed env si sm d st (latest_tick 0 (trace st))) as (-> & -> & ->).
  auto.
Qed.

Lemma nth_sign_succ d n : nth_sign d (S n) = nth_sign d n * -1.
Proof.
  unfold nth_sign. rewrite Nat.even_succ, <- Nat.negb_even.
  destruct (Nat.even n); simpl; lia.
Qed.

Section Stepping.
Variables (env : Env) (endTime si : Z) (sm : Q) (g start : Z).
Hypothesis si_range : 0 <= si < DWORD_MOD.
Hypothesis clock_step : forall n, dword (tick env (S n) - tick env n) <= g.

Lemma in_step_switched d l st p :
  in_step env si g start d l st ->
  (dword (latest_tick 0 (trace (snd (GetTickCount env st))) - l) >? dword si) = true ->
  let t := dword (tick env (n_ticks st)) in
  let st' := switched env si sm d p (snd (GetTickCount env st)) in
  in_step env si g start (d * -1) t st'.
Proof.
  intros (A & D & G & L & N & T & B) Hgt. cbv zeta.
  destruct (timed_tick env st) as (S1 & W1 & T1 & N1). cbv zeta in S1, W1, T1, N1.
  destruct (timed_switched env si sm d p (snd (GetTickCount env st)))
    as (S2 & W2 & T2 & N2). cbv zeta in S2, W2, T2, N2.
  rewrite T1 in Hgt. rewrite (dword_small si si_range) in Hgt.
  rewrite Z.gtb_ltb in Hgt. apply Z.ltb_lt in Hgt.
  unfold in_step. rewrite S2, W2, T2, N2, S1, W1, T1, N1.
  split; [|split; [|split; [|split; [|split; [|split]]]]].
  - apply alternates_from_snoc; [exact A|]. simpl. now rewrite D.
  - rewrite length_app, Nat.add_1_r, nth_sign_succ. now rewrite D.
  - apply gaps_from_snoc; [exact G|]. rewrite L. split; [exact Hgt|].
    destruct (n_ticks st) as [|n]; [lia|]. simpl pred in T. rewrite T in B.
    generalize (dword_triangle (dword (tick env (S n))) (dword (tick env n)) l).
    rewrite dword_sub_dword. generalize (clock_step n). lia.
  - apply last_last.
  - lia.
  - reflexivity.
  - rewrite Z.sub_diag. unfold dword. rewrite Z.mod_0_l by discriminate. lia.
Qed.

Lemma in_step_stepped d l st : in_step env si g start d l st -> stepped si g start st.
Proof. intros (A & _ & G & _). split; assumption. Qed.

Lemma oscillation_loop_stepped fuel d l st :
  in_step env si g start d l st ->
  stepped si g start (snd (oscillation_loop fuel env endTime si sm d l st)).
Proof.
  apply (loop_rule env endTime si sm (in_step env si g start)
           (fun _ => stepped si g start)).
  - intros d0 l0 s. apply in_step_stepped.
  - clear fuel d l st. intros d l st H. rewrite loop_body_eq. cbv zeta.
    destruct (timed_tick env st) as (S1 & W1 & T1 & N1). cbv zeta in S1, W1, T1, N1.
    assert (H1 : stepped si g start (snd (GetTickCount env st))).
    { destruct H as (A & _ & G & _). unfold stepped. now rewrite S1, W1. }
    destruct (_ <? _); [|exact H1].
    destruct (_ >? _) eqn:Hgt.
    + rewrite <- T1 in Hgt. rewrite switch_direction_eq.
      destruct (FAILED _).
      * eapply in_step_stepped. eapply in_step_switched; eauto.
      * eapply in_step_switched; eauto.
    + destruct H as (A & D & G & L & N & T & B).
      rewrite (dword_small si si_range) in Hgt.
      rewrite Z.gtb_ltb in Hgt. apply Z.ltb_ge in Hgt.
      destruct (untimed_app (trace (snd (GetTickCount env st))) [ESleep 10])
        as (S2 & W2 & T2); [repeat constructor|].
      unfold in_step, Sleep. rewrite trace_emit, S2, W2, T2, S1, W1, T1.
      cbn [n_ticks emit]. rewrite N1.
      repeat split; auto; lia.
Qed.
End Stepping.

Lemma startup_untimed e : startup_event e -> untimed e.
Proof. destruct e; simpl; auto. Qed.

Lemma started_untimed env arg st : started env arg st -> Forall untimed (trace st).
Proof.
  intros (_ & (new & -> & F) & _). apply Forall_app. split.
  - simpl. repeat constructor.
  - eapply Forall_impl; [|exact F]. apply startup_untimed.
Qed.

Lemma untimed_stepped si g start st :
  Forall untimed (trace st) -> stepped si g start st.
Proof.
  intros F. destruct (untimed_list _ F 0) as (S & W & _).
  unfold stepped, switch_times. rewrite S, W. simpl. auto.
Qed.

Lemma stepped_untimed si g start st st' new :
  trace st' = trace st ++ new -> Forall untimed new ->
  stepped si g start st -> stepped si g start st'.
Proof.
  intros E F [A G]. destruct (untimed_app (trace st) new F) as (S & W & _).
  unfold stepped. now rewrite E, S, W.
Qed.

Lemma stepped_cleaned si g start st :
  stepped si g start st -> stepped si g start (emit ECoUninitialize (CleanupAll st)).
Proof.
  apply (stepped_untimed si g start st _ (cleanup_calls st ++ [ECoUninitialize])).
  - rewrite trace_emit, CleanupAll_eq. cbn [trace]. now rewrite app_assoc.
  - apply Forall_app. split; [|repeat constructor].
    apply cleanup_calls_Forall; intros; exact I.
Qed.

Lemma ApplyGentleOscillation_stepped fuel env ft g st :
  (forall n, dword (tick env (S n) - tick env n) <= g) ->
  Forall untimed (trace st) -> n_ticks st = 0%nat ->
  stepped (fst (fst (oscillation_params ft))) g (dword (tick env 0))
    (snd (ApplyGentleOscillation fuel env ft st)).
Proof.
  intros Hstep F N. rewrite ApplyGentleOscillation_of.
  assert (R : 0 <= fst (fst (oscillation_params ft)) < DWORD_MOD).
  { destruct (oscillation_params_interval ft) as [-> | ->]; split; discriminate || reflexivity. }
  assert (H2 : in_step env (fst (fst (oscillation_params ft))) g (dword (tick env 0))
                 1 (dword (tick env 0))
                 (printf (snd (oscillation_params ft)) [] (snd (GetTickCount env st)))).
  { destruct (timed_tick env st) as (S1 & W1 & T1 & N1). cbv zeta in S1, W1, T1, N1.
    destruct (untimed_list _ F 0) as (S0 & W0 & _). fold (switch_times (trace st)) in W0.
    destruct (untimed_app (trace (snd (GetTickCount env st)))
                [EPrintf (snd (oscillation_params ft)) []])
      as (S2 & W2 & T2); [repeat constructor|].
    unfold in_step, printf. rewrite trace_emit, S2, W2, T2, S1, W1, T1, S0, W0, N.
    cbn [n_ticks emit]. rewrite N1, N. simpl.
    repeat split; auto; try lia.
    rewrite Z.sub_diag. unfold dword at 1. rewrite Z.mod_0_l by discriminate. lia. }
  generalize (oscillation_loop_stepped env
                (dword (dword (tick env (n_ticks st)) + OSCILLATION_DURATION))
                _ (snd (fst (oscillation_params ft))) g _ R Hstep fuel _ _ _ H2).
  rewrite <- N at 2. fold (oscillation_of fuel env ft st). intros Hr.
  destruct (fst (oscillation_of fuel env ft st)); cbn [snd]; auto.
  unfold stop_effect. destruct (g_pEffect _); [|exact Hr].
  eapply stepped_untimed; [apply trace_emit|repeat constructor|exact Hr].
Qed.

(** C4, as the code has it.  For OBSTACLE and MOVEMENT, in every run,
    finished or still polling: the descriptors handed to [CreateEffect]
    have direction [(s, 0)] with [s] = -1 for the first one and the sign
    flipped from each to the next; and if two consecutive clock readings are
    never more than [g] ms apart, every switch is made more than 25 ms and
    at most 25 + [g] ms after the one before it (the first one: after the
    start of the pattern). *)
Theorem alternation_from_minus_one (fuel : nat) (env : Env) (arg : cmdline) (g : Z) :
  parse_feedbackType arg = FEEDBACK_OBSTACLE \/
  parse_feedbackType arg = FEEDBACK_MOVEMENT ->
  (forall n, dword (tick env (S n) - tick env n) <= g) ->
  let tr := trace (state_of (main fuel env arg)) in
  alternates_from (-1) (submitted tr) /\
  gaps_from 25 (25 + g) (dword (tick env 0)) (switch_times tr).
Proof.
  intros Hft Hstep. cbv zeta.
  change (stepped 25 g (dword (tick env 0)) (state_of (main fuel env arg))).
  destruct (main_cases fuel env arg)
    as [[_ E]|[(st & Hst & _ & E)|[(st & Hst & _ & E)|(st & Hst & _ & _ & E)]]];
    rewrite E; clear E; cbn [state_of].
  - apply untimed_stepped. simpl. repeat constructor.
  - apply stepped_cleaned, untimed_stepped. now apply (started_untimed env arg).
  - apply stepped_cleaned, untimed_stepped. unfold printf. rewrite trace_emit.
    apply Forall_app. split; [now apply (started_untimed env arg)|repeat constructor].
  - assert (Hsi : fst (fst (oscillation_params (parse_feedbackType arg))) = 25).
    { destruct Hft as [-> | ->]; reflexivity. }
    generalize (ApplyGentleOscillation_stepped fuel env (parse_feedbackType arg) g st Hstep
                  (started_untimed env arg st Hst)
                  (proj1 (proj2 (proj2 (proj2 Hst))))).
    rewrite Hsi. cbv zeta. intros Ha.
    destruct (fst (ApplyGentleOscillation _ _ _ _)); cbn [state_of]; auto.
    now apply stepped_cleaned.
Qed.

Lemma good_env_clock_step n : dword (tick good_env (S n) - tick good_env n) <= 10.
Proof.
  cbn [tick good_env]. unfold steady_clock.
  replace (1000 + 10 * Z.of_nat (S n) - (1000 + 10 * Z.of_nat n)) with 10 by lia.
  rewrite dword_small; [lia|]. unfold DWORD_MOD. lia.
Qed.

Lemma alternation_from_minus_one_witness :
  (parse_feedbackType (Some 1) = FEEDBACK_OBSTACLE \/
   parse_feedbackType (Some 1) = FEEDBACK_MOVEMENT) /\
  (forall n, dword (tick good_env (S n) - tick good_env n) <= 10) /\
  alternates_from (-1) (submitted (trace (state_of (main 100 good_env (Some 1))))) /\
  gaps_from 25 (25 + 10) (dword (tick good_env 0))
    (switch_times (trace (state_of (main 100 good_env (Some 1))))).
Proof.
  split; [left; reflexivity|]. split; [exact good_env_clock_step|].
  apply (alternation_from_minus_one 100 good_env (Some 1) 10).
  - left; reflexivity.
  - exact good_env_clock_step.
Defined.

(** C4 as stated fails: in an OBSTACLE run the first descriptor handed to
    [CreateEffect] has sign -1, not +1: [direction] starts at 1 and is
    flipped before the first descriptor is built. *)
Lemma first_direction_is_minus_one :
  parse_feedbackType (Some 1) = FEEDBACK_OBSTACLE /\
  map rglDirection (submitted (trace (state_of (main 100 good_env (Some 1))))) =
    [[-1; 0]; [1; 0]; [-1; 0]; [1; 0]; [-1; 0]; [1; 0]; [-1; 0]; [1; 0]; [-1; 0]] /\
  ~ alternates_from 1 (submitted (trace (state_of (main 100 good_env (Some 1))))).
Proof.
  split; [reflexivity|]. split; [vm_compute; reflexivity|].
  vm_compute. intros [H _]. discriminate H.
Qed.

(** *** A failed [Start] *)

Lemma without_start_log_app a b :
  without_start_log (a ++ b) = without_start_log a ++ without_start_log b.
Proof. apply filter_app. Qed.

Lemma same_but_log_refl st : same_but_log st st.
Proof. repeat split. Qed.

Lemma same_emit e st st' : same_but_log st st' -> same_but_log (emit e st) (emit e st').
Proof.
  intros (A & B & C & D & E & F). repeat split; auto.
  rewrite !trace_emit, !without_start_log_app. now rewrite F.
Qed.

Lemma same_CleanupAll st st' :
  same_but_log st st' -> same_but_log (CleanupAll st) (CleanupAll st').
Proof.
  intros H. rewrite !CleanupAll_eq.
  destruct H as (A & B & C & D & E & F). repeat split; auto. cbn [trace].
  rewrite !without_start_log_app, F. unfold cleanup_calls. now rewrite A, B, C.
Qed.

Section SameButStart.
Variables env env' : Env.
Hypothesis same : same_but_start env env'.

Lemma same_InitializeDirectInput st :
  InitializeDirectInput env' st = InitializeDirectInput env st.
Proof.
  destruct same as (_ & A & B & C & D & E & F & _).
  unfold InitializeDirectInput, DirectInput8Create, EnumDevices.
  now rewrite A, B, C, D, E, F.
Qed.

Lemma same_GetTickCount st st' :
  same_but_log st st' ->
  dword (tick env (n_ticks st)) = dword (tick env' (n_ticks st')) /\
  same_but_log (snd (GetTickCount env st)) (snd (GetTickCount env' st')).
Proof.
  intros (A & B & C & D & E & F).
  destruct same as (_ & _ & _ & _ & _ & _ & _ & T & _).
  assert (X : dword (tick env (n_ticks st)) = dword (tick env' (n_ticks st'))).
  { now rewrite D, T. }
  split; [exact X|]. cbn [GetTickCount snd]. repeat split; simpl; auto.
  rewrite !without_start_log_app, F, X. reflexivity.
Qed.

Lemma same_switch_calls si sm d st st' :
  same_but_log st st' ->
  without_start_log (switch_calls env si sm d st) =
  without_start_log (switch_calls env' si sm d st').
Proof.
  intros (A & B & C & D & E & F).
  destruct same as (_ & _ & _ & _ & _ & _ & _ & _ & K).
  unfold switch_calls. rewrite B, C, E, K.
  destruct (g_pEffect st'), (FAILED (hr_CreateEffect env' (n_effects st'))),
    (FAILED (hr_Start env (n_effects st'))), (FAILED (hr_Start env' (n_effects st')));
    reflexivity.
Qed.

Lemma same_switched si sm d p st st' :
  same_but_log st st' ->
  same_but_log (switched env si sm d p st) (switched env' si sm d p st').
Proof.
  intros H. generalize (same_switch_calls si sm d st st' H).
  destruct H as (A & B & C & D & E & F). intros S.
  unfold switched. repeat split; simpl; auto.
  rewrite !without_start_log_app. now rewrite F, S.
Qed.

Lemma same_oscillation_loop endTime si sm fuel : forall d l st st',
  same_but_log st st' ->
  fst (oscillation_loop fuel env endTime si sm d l st) =
  fst (oscillation_loop fuel env' endTime si sm d l st') /\
  same_but_log (snd (oscillation_loop fuel env endTime si sm d l st))
               (snd (oscillation_loop fuel env' endTime si sm d l st')).
Proof.
  induction fuel as [|fuel IH]; intros d l st st' H; [simpl; auto|].
  cbn [oscillation_loop]. rewrite !loop_body_eq. cbv zeta.
  destruct (same_GetTickCount st st' H) as [T H1]. rewrite <- T.
  destruct (_ <? _); [|simpl; auto].
  destruct (_ >? _).
  - rewrite !switch_direction_eq.
    destruct same as (_ & _ & _ & _ & _ & _ & _ & _ & K).
    assert (N : n_effects (snd (GetTickCount env st)) =
                n_effects (snd (GetTickCount env' st'))).
    { apply H1. }
    rewrite <- K, <- N.
    destruct (FAILED _).
    + simpl. split; [reflexivity|]. now apply same_switched.
    + apply IH. now apply same_switched.
  - apply IH. now apply same_emit.
Qed.

Lemma same_ApplyGentleOscillation fuel ft st st' :
  same_but_log st st' ->
  fst (ApplyGentleOscillation fuel env ft st) =
  fst (ApplyGentleOscillation fuel env' ft st') /\
  same_but_log (snd (ApplyGentleOscillation fuel env ft st))
               (snd (ApplyGentleOscillation fuel env' ft st')).
Proof.
  intros H. rewrite !ApplyGentleOscillation_eq. cbv zeta.
  destruct (same_GetTickCount st st' H) as [T H1]. rewrite <- T.
  match goal with
    |- context [oscillation_loop ?f env ?en ?si ?sm ?d ?l ?s] =>
    match goal with
      |- context [oscillation_loop f env' en si sm d l ?s'] =>
      destruct (same_oscillation_loop en si sm f d l s s') as [X Y];
      [now apply same_emit|];
      set (r := oscillation_loop f env en si sm d l s) in *;
      set (r' := oscillation_loop f env' en si sm d l s') in *
    end
  end.
  rewrite <- X. destruct (fst r); cbn [fst snd]; split; auto.
  unfold stop_effect. rewrite <- (proj1 (proj2 (proj2 Y))).
  destruct (g_pEffect (snd r)); [now apply same_emit|exact Y].
Qed.

Lemma same_main fuel arg :
  exit_code (main fuel env arg) = exit_code (main fuel env' arg) /\
  same_but_log (state_of (main fuel env arg)) (state_of (main fuel env' arg)).
Proof.
  rewrite !main_eq. cbv zeta. rewrite same_InitializeDirectInput.
  destruct same as (A & _). rewrite <- A.
  destruct (FAILED (hr_CoInitialize env)); [split; [reflexivity|apply same_but_log_refl]|].
  set (r := InitializeDirectInput env (com_ready arg)).
  destruct (negb (fst r)); [split; [reflexivity|apply same_but_log_refl]|].
  destruct (negb (parse_feedbackType arg =? FEEDBACK_NONE)).
  - destruct (same_ApplyGentleOscillation fuel (parse_feedbackType arg) (snd r) (snd r)
                (same_but_log_refl _)) as [X Y].
    rewrite <- X. destruct (fst (ApplyGentleOscillation fuel env _ _)); cbn.
    + split; [reflexivity|]. now apply same_emit, same_CleanupAll.
    + split; [reflexivity|exact Y].
  - cbn. split; [reflexivity|apply same_but_log_refl].
Qed.
End SameButStart.

(** C8.  When [CreateEffect] succeeds and [Start] fails, the switch ends
    by going on with the loop: the diagnostic is printed after the [Start]
    call, the 10 ms sleep follows, and the loop continues with the flipped
    direction.  And whatever [Start] answers changes nothing else: two runs
    in environments that differ only in the answers of [Start] have the same
    exit code (or are both still polling), the same pointers and counters,
    and make the same calls apart from those diagnostics. *)
Theorem start_failure_only_logged :
  (forall env si sm d t st,
     FAILED (hr_CreateEffect env (n_effects st)) = false ->
     FAILED (hr_Start env (n_effects st)) = true ->
     exists st' pre,
       switch_direction env si sm d t st = Continue (d * -1) t st' /\
       trace st' =
         pre ++ [EEffectStart (n_effects st) 1 0;
                 EPrintf Fmt.start_failed [ArgInt (hr_Start env (n_effects st))];
                 ESleep 10]) /\
  (forall fuel env env' arg,
     same_but_start env env' ->
     exit_code (main fuel env arg) = exit_code (main fuel env' arg) /\
     same_but_log (state_of (main fuel env arg)) (state_of (main fuel env' arg))).
Proof.
  split.
  - intros env si sm d t st Fc Fs. rewrite switch_direction_eq, Fc.
    exists (switched env si sm d (Some (n_effects st)) st),
      (trace st ++
       (match g_pEffect st with Some e => [EEffectRelease e] | None => [] end ++
        [ECreateEffect (g_pJoystick st) (build_effect si sm (d * -1))
           (Some (n_effects st))])).
    split; [reflexivity|].
    unfold switched. cbn [trace]. rewrite switch_calls_split, Fc, Fs.
    now rewrite <- !app_assoc.
  - intros fuel env env' arg H. now apply same_main.
Qed.

Lemma start_failure_only_logged_witness :
  (FAILED (hr_CreateEffect start_failure_env 0%nat) = false /\
   FAILED (hr_Start start_failure_env 0%nat) = true /\
   exists st' pre,
     switch_direction start_failure_env 25 1 1 1030 initial_state = Continue (-1) 1030 st' /\
     trace st' = pre ++ [EEffectStart 0%nat 1 0; EPrintf Fmt.start_failed [ArgInt E_FAIL];
                         ESleep 10]) /\
  same_but_start good_env start_failure_env /\
  exit_code (main 100 start_failure_env (Some 1)) = Some 0 /\
  same_but_log (state_of (main 100 good_env (Some 1)))
               (state_of (main 100 start_failure_env (Some 1))) /\
  count_printf Fmt.start_failed (trace (state_of (main 100 start_failure_env (Some 1)))) = 5%nat.
Proof.
  assert (S : same_but_start good_env start_failure_env) by (repeat split).
  destruct (proj2 start_failure_only_logged 100%nat good_env start_failure_env (Some 1) S)
    as [C L].
  split.
  { split; [reflexivity|]. split; [reflexivity|].
    exact (proj1 start_failure_only_logged start_failure_env 25 1%Q 1 1030 initial_state
             eq_refl eq_refl). }
  split; [exact S|]. split; [rewrite <- C; vm_compute; reflexivity|].
  split; [exact L|vm_compute; reflexivity].
Defined.

(** * Further properties of the code *)

(** ** Device discovery *)

Lemma count_create_device_app a b :
  count_create_device (a ++ b) = (count_create_device a + count_create_device b)%nat.
Proof. unfold count_create_device. now rewrite filter_app, length_app. Qed.

(** X1. Enumeration, entered with no device bound, binds the first
    attached controller whose [CreateDevice] succeeds and stops there:
    [g_pJoystick] is that controller, every controller before it was tried
    and failed, exactly one [CreateDevice] call was made per controller up to
    and including it, and the last calls are its creation and the success
    line.  If no controller can be bound, every one of them was tried once,
    all failed, and [g_pJoystick] is still null. *)
Theorem enumeration_first_match (ds : list DeviceInstance) :
  forall (idx : nat) (st : state),
  g_pJoystick st = None ->
  exists new,
    trace (enumerate ds idx st) = trace st ++ new /\
    match first_bindable ds idx with
    | Some j =>
        g_pJoystick (enumerate ds idx st) = Some j /\ (idx <= j)%nat /\
        (exists d, nth_error ds (j - idx) = Some d /\
                   SUCCEEDED (hr_CreateDevice d) = true) /\
        (forall i d, (i < j - idx)%nat -> nth_error ds i = Some d ->
                     SUCCEEDED (hr_CreateDevice d) = false) /\
        count_create_device new = S (j - idx) /\
        (exists new', new = new' ++ [ECreateDevice (Some j); EPrintf Fmt.device_ok []])
    | None =>
        g_pJoystick (enumerate ds idx st) = None /\
        (forall d, In d ds -> SUCCEEDED (hr_CreateDevice d) = false) /\
        count_create_device new = List.length ds /\
        (forall out, In (ECreateDevice out) new -> out = None)
    end.
Proof.
  induction ds as [|d ds IH]; intros idx st Hnull.
  - exists []. split; [now rewrite app_nil_r|]. simpl. repeat split; auto.
    + intros d [].
    + intros out [].
  - cbn [enumerate first_bindable]. unfold EnumDevicesCallback, CreateDevice.
    destruct (SUCCEEDED (hr_CreateDevice d)) eqn:Hd; cbn -[Fmt.found Fmt.device_ok Fmt.device_failed];
      rewrite ?Hd.
    + exists [EPrintf Fmt.found [ArgStr (tszProductName d)];
              ECreateDevice (Some idx); EPrintf Fmt.device_ok []].
      split; [unfold printf; cbn [trace emit set_g_pJoystick]; now rewrite <- ?app_assoc|].
      rewrite Nat.sub_diag. repeat split; auto.
      * exists d. auto.
      * intros i d' Hi. lia.
      * exists [EPrintf Fmt.found [ArgStr (tszProductName d)]]. reflexivity.
    + match goal with |- context [enumerate ds (S idx) ?s] =>
        destruct (IH (S idx) s Hnull) as (new & E & H) end.
      exists ([EPrintf Fmt.found [ArgStr (tszProductName d)]; ECreateDevice None;
               EPrintf Fmt.device_failed [ArgInt (hr_CreateDevice d)]] ++ new).
      split; [rewrite E; unfold printf; cbn [trace emit]; now rewrite <- ?app_assoc|].
      destruct (first_bindable ds (S idx)) as [j|].
      * destruct H as (G & Hj & (d' & Hn & Hs) & Hb & Hc & (new' & Hl)).
        replace (j - idx)%nat with (S (j - S idx)) by lia.
        split; [exact G|]. split; [lia|]. split; [exists d'; auto|].
        split; [|split].
        -- intros [|i] d0 Hi Hn0; simpl in Hn0.
           ++ now injection Hn0 as <-.
           ++ apply (Hb i); [lia|exact Hn0].
        -- rewrite count_create_device_app, Hc. reflexivity.
        -- exists ([EPrintf Fmt.found [ArgStr (tszProductName d)]; ECreateDevice None;
                    EPrintf Fmt.device_failed [ArgInt (hr_CreateDevice d)]] ++ new').
           now rewrite Hl, <- app_assoc.
      * destruct H as (G & Hall & Hc & Hn).
        split; [exact G|]. split; [|split].
        -- intros d0 [<-|Hin]; auto.
        -- rewrite count_create_device_app, Hc. reflexivity.
        -- intros out Hin. apply in_app_or in Hin as [Hin|Hin]; [|now apply Hn].
           simpl in Hin. destruct Hin as [H0|[H0|[H0|[]]]]; congruence.
Qed.

Lemma enumeration_first_match_witness :
  g_pJoystick (enumerate three_devices 0 initial_state) = Some 1%nat /\
  count_create_device (trace (enumerate three_devices 0 initial_state)) = 2%nat.
Proof.
  destruct (enumeration_first_match three_devices 0 initial_state eq_refl) as (new & E & H).
  change (first_bindable three_devices 0) with (Some 1%nat) in H.
  destruct H as (G & _ & _ & _ & C & _). split; [exact G|].
  rewrite E. exact C.
Defined.

Lemma enumerate_calls ds : forall idx st,
  exists new, trace (enumerate ds idx st) = trace st ++ new /\ Forall enum_event new.
Proof.
  induction ds as [|d ds IH]; intros idx st.
  - exists []. split; [now rewrite app_nil_r|constructor].
  - cbn [enumerate]. unfold EnumDevicesCallback, CreateDevice.
    destruct (SUCCEEDED (hr_CreateDevice d)) eqn:Hd;
      cbn -[Fmt.found Fmt.device_ok Fmt.device_failed]; rewrite ?Hd.
    + exists [EPrintf Fmt.found [ArgStr (tszProductName d)];
              ECreateDevice (Some idx); EPrintf Fmt.device_ok []].
      split; [unfold printf; cbn [trace emit set_g_pJoystick]; now rewrite <- ?app_assoc|].
      repeat constructor.
    + match goal with |- context [enumerate ds (S idx) ?s] =>
        destruct (IH (S idx) s) as (new & E & F) end.
      exists ([EPrintf Fmt.found [ArgStr (tszProductName d)]; ECreateDevice None;
               EPrintf Fmt.device_failed [ArgInt (hr_CreateDevice d)]] ++ new).
      split; [rewrite E; unfold printf; cbn [trace emit]; now rewrite <- ?app_assoc|].
      apply Forall_app. split; [repeat constructor|exact F].
Qed.

(** X2. [InitializeDirectInput], entered with no device bound, goes
    through its steps in order and stops at the first one that fails.  When
    it returns true the bound device is the first bindable controller and
    the last calls are SetCooperativeLevel (exclusive, background),
    SetDataFormat, Acquire on that device and the success line.  Acquire is
    only called after both configuration steps succeeded, SetDataFormat only
    after SetCooperativeLevel succeeded, SetCooperativeLevel only on the
    bound device after a successful enumeration, and the enumeration only
    after the context was created.  When it returns false its last call is
    one of its five diagnostics. *)
Theorem configure_in_order (env : Env) (st : state) :
  g_pJoystick st = None ->
  exists new,
    trace (snd (InitializeDirectInput env st)) = trace st ++ new /\
    (fst (InitializeDirectInput env st) = true ->
     exists j new',
       first_bindable (attached env) 0 = Some j /\
       g_pJoystick (snd (InitializeDirectInput env st)) = Some j /\
       new = new' ++ [ESetCooperativeLevel j (Z.lor DISCL_EXCLUSIVE DISCL_BACKGROUND);
                      ESetDataFormat j; EAcquire j; EPrintf Fmt.init_ok []]) /\
    (forall j, In (EAcquire j) new ->
       FAILED (hr_SetCooperativeLevel env) = false /\
       FAILED (hr_SetDataFormat env) = false) /\
    (forall j, In (ESetDataFormat j) new -> FAILED (hr_SetCooperativeLevel env) = false) /\
    (forall j f, In (ESetCooperativeLevel j f) new ->
       f = Z.lor DISCL_EXCLUSIVE DISCL_BACKGROUND /\
       first_bindable (attached env) 0 = Some j /\
       FAILED (hr_EnumDevices env) = false) /\
    (In EEnumDevices new -> FAILED (hr_DirectInput8Create env) = false) /\
    (fst (InitializeDirectInput env st) = false ->
     exists new' fmt hr, new = new' ++ [EPrintf fmt [ArgInt hr]] /\ In fmt init_diagnostics).
Proof.
  intros Hjoy. unfold InitializeDirectInput, DirectInput8Create, EnumDevices.
  destruct (FAILED (hr_DirectInput8Create env)) eqn:Fdi; cbn [fst snd]; rewrite ?Fdi.
  - exists [EDirectInput8Create None;
            EPrintf Fmt.di_failed [ArgInt (hr_DirectInput8Create env)]].
    split; [unfold printf; cbn [fst snd trace emit]; now rewrite <- ?app_assoc|].
    repeat split; try discriminate; try solve [absurd_in].
    intros _. exists [EDirectInput8Create None], Fmt.di_failed, (hr_DirectInput8Create env).
    split; [reflexivity|]. unfold init_diagnostics. simpl. tauto.
  - match goal with |- context [enumerate ?ds ?i ?s] =>
      destruct (enumerate_spec ds i s) as (_ & _ & _ & _ & E & _);
      destruct (enumerate_calls ds i s) as (enew & E3 & F3);
      set (st3 := enumerate ds i s) in * end.
    cbn [g_pJoystick emit printf set_g_pDI] in E. rewrite Hjoy in E.
    unfold printf in E3. cbn [trace emit set_g_pDI] in E3.
    rewrite <- !app_assoc in E3. cbn [app] in E3.
    assert (Q : forall e, In e enew -> enum_event e).
    { now apply Forall_forall. }
    assert (T : forall e tail,
              In e ([EDirectInput8Create (Some 0%nat); EPrintf Fmt.looking []; EEnumDevices]
                    ++ enew ++ tail) ->
              e = EDirectInput8Create (Some 0%nat) \/ e = EPrintf Fmt.looking [] \/
              e = EEnumDevices \/ enum_event e \/ In e tail).
    { intros e tail Hin. simpl in Hin.
      destruct Hin as [H|[H|[H|H]]];
        [left; now symmetry|right; left; now symmetry|right; right; left; now symmetry|].
      apply in_app_or in H as [H|H];
        [right; right; right; left; now apply Q|right; right; right; right; exact H]. }
    set (head3 := [EDirectInput8Create (Some 0%nat); EPrintf Fmt.looking []; EEnumDevices])
      in *.
    assert (E3' : forall tail, trace st3 ++ tail = trace st ++ head3 ++ enew ++ tail).
    { intros tail. rewrite E3. unfold head3. now rewrite <- !app_assoc. }
    rewrite E.
    destruct (first_bindable (attached env) 0) as [j|] eqn:Hb; cbn [fst snd].
    2:{ exists (head3 ++ enew ++ [EPrintf Fmt.no_joystick [ArgInt (hr_EnumDevices env)]]).
        split; [unfold printf; rewrite trace_emit; apply E3'|].
        repeat split; try discriminate; auto; try solve [in_tail T].
        intros _. exists (head3 ++ enew), Fmt.no_joystick, (hr_EnumDevices env).
        split; [now rewrite <- !app_assoc|]. unfold init_diagnostics; simpl; tauto. }
    destruct (FAILED (hr_EnumDevices env)) eqn:Fen; cbn [fst snd].
    { exists (head3 ++ enew ++ [EPrintf Fmt.no_joystick [ArgInt (hr_EnumDevices env)]]).
      split; [unfold printf; rewrite trace_emit; apply E3'|].
      repeat split; try discriminate; auto; try solve [in_tail T].
      intros _. exists (head3 ++ enew), Fmt.no_joystick, (hr_EnumDevices env).
      split; [now rewrite <- !app_assoc|]. unfold init_diagnostics; simpl; tauto. }
    destruct (FAILED (hr_SetCooperativeLevel env)) eqn:Fco; cbn [fst snd].
    { exists (head3 ++ enew ++
              [ESetCooperativeLevel j (Z.lor DISCL_EXCLUSIVE DISCL_BACKGROUND);
               EPrintf Fmt.coop_failed [ArgInt (hr_SetCooperativeLevel env)]]).
      split; [unfold printf; rewrite !trace_emit, <- !app_assoc; apply E3'|].
      repeat split; try discriminate; auto; try solve [in_tail T].
      intros _. eexists (head3 ++ enew ++ [_]), Fmt.coop_failed, (hr_SetCooperativeLevel env).
      split; [now rewrite <- !app_assoc|]. unfold init_diagnostics; simpl; tauto. }
    destruct (FAILED (hr_SetDataFormat env)) eqn:Ffo; cbn [fst snd].
    { exists (head3 ++ enew ++
              [ESetCooperativeLevel j (Z.lor DISCL_EXCLUSIVE DISCL_BACKGROUND);
               ESetDataFormat j;
               EPrintf Fmt.format_failed [ArgInt (hr_SetDataFormat env)]]).
      split; [unfold printf; rewrite !trace_emit, <- !app_assoc; apply E3'|].
      repeat split; try discriminate; auto; try solve [in_tail T].
      intros _. eexists (head3 ++ enew ++ [_; _]), Fmt.format_failed, (hr_SetDataFormat env).
      split; [now rewrite <- !app_assoc|]. unfold init_diagnostics; simpl; tauto. }
    destruct (FAILED (hr_Acquire env)) eqn:Fac; cbn [fst snd].
    { exists (head3 ++ enew ++
              [ESetCooperativeLevel j (Z.lor DISCL_EXCLUSIVE DISCL_BACKGROUND);
               ESetDataFormat j; EAcquire j;
               EPrintf Fmt.acquire_failed [ArgInt (hr_Acquire env)]]).
      split; [unfold printf; rewrite !trace_emit, <- !app_assoc; apply E3'|].
      repeat split; try discriminate; auto; try solve [in_tail T].
      intros _. eexists (head3 ++ enew ++ [_; _; _]), Fmt.acquire_failed, (hr_Acquire env).
      split; [now rewrite <- !app_assoc|]. unfold init_diagnostics; simpl; tauto. }
    exists (head3 ++ enew ++
            [ESetCooperativeLevel j (Z.lor DISCL_EXCLUSIVE DISCL_BACKGROUND);
             ESetDataFormat j; EAcquire j; EPrintf Fmt.init_ok []]).
    split; [unfold printf; rewrite !trace_emit, <- !app_assoc; apply E3'|].
    repeat split; try discriminate; auto; try solve [in_tail T].
    intros _. exists j, (head3 ++ enew). split; [reflexivity|]. split; [exact E|].
    now rewrite <- !app_assoc.
Qed.

Lemma configure_in_order_witness :
  g_pJoystick initial_state = None /\
  exists j new',
    trace (snd (InitializeDirectInput good_env initial_state)) =
    new' ++ [ESetCooperativeLevel j (Z.lor DISCL_EXCLUSIVE DISCL_BACKGROUND);
             ESetDataFormat j; EAcquire j; EPrintf Fmt.init_ok []].
Proof.
  split; [reflexivity|].
  destruct (configure_in_order good_env initial_state eq_refl) as (new & E & Ht & _).
  destruct (Ht eq_refl) as (j & new' & _ & _ & En).
  exists j, new'. rewrite E, En. reflexivity.
Defined.

(** ** No call on a dead or null object *)

Lemma safe_nil : object_safe [].
Proof. intros pre e suf E. destruct pre; discriminate. Qed.

Lemma safe_snoc tr e :
  object_safe tr -> well_used (fun k => live k tr) e -> object_safe (tr ++ [e]).
Proof.
  intros H W pre x suf E.
  destruct (snoc_split tr pre (x :: suf) e E) as [[E1 _]|(suf0 & E1 & E2)];
    [discriminate|].
  destruct suf0 as [|y suf0]; simpl in E1.
  - injection E1 as -> ->. rewrite app_nil_r in E2. now subst.
  - injection E1 as -> ->. eapply H. exact E2.
Qed.

Lemma well_used_ext a b e : (forall k, a k = b k) -> well_used a e -> well_used b e.
Proof.
  intros X (N & U & C & D). split; [exact N|]. split; [|split].
  - intros k h Hk. rewrite <- X. now apply U.
  - intros k h Hk. rewrite <- X. now apply (C k h).
  - intros Hn. rewrite <- X. now apply D.
Qed.

Lemma chunk_ok_ext chunk : forall a b,
  (forall k, a k = b k) -> chunk_ok a chunk -> chunk_ok b chunk.
Proof.
  induction chunk as [|e chunk IH]; intros a b X H; [exact I|].
  destruct H as [W H]. split; [now apply (well_used_ext a)|].
  apply (IH (fun k => track k (a k) e)); [|exact H].
  intros k. now rewrite X.
Qed.

Lemma safe_chunk chunk : forall tr,
  object_safe tr -> chunk_ok (fun k => live k tr) chunk -> object_safe (tr ++ chunk).
Proof.
  induction chunk as [|e chunk IH]; intros tr H C; [now rewrite app_nil_r|].
  destruct C as [W C]. change (e :: chunk) with ([e] ++ chunk). rewrite app_assoc.
  apply IH; [now apply safe_snoc|].
  apply (chunk_ok_ext chunk (fun k => track k (live k tr) e)); [|exact C].
  intros k. now rewrite live_snoc.
Qed.

Lemma sound_chunk st st' chunk :
  sound st -> trace st' = trace st ++ chunk -> in_sync st' ->
  chunk_ok (fun k => opt_list (held k st)) chunk -> sound st'.
Proof.
  intros [S H] E S' C. split; [exact S'|]. rewrite E.
  apply safe_chunk; [exact H|].
  apply (chunk_ok_ext chunk (fun k => opt_list (held k st))); [|exact C].
  intros k. now rewrite (S k).
Qed.

Lemma sound_emit e st :
  sound st -> neutral e -> well_used (fun k => opt_list (held k st)) e -> sound (emit e st).
Proof.
  intros H N W. apply (sound_chunk st _ [e]); auto.
  - apply in_sync_emit_neutral; [exact N|apply H].
  - split; [exact W|exact I].
Qed.

Lemma sound_initial : sound initial_state.
Proof. split; [apply in_sync_initial|apply safe_nil]. Qed.

Lemma sound_enumerate ds : forall idx st c,
  g_pDI st = Some c -> g_pJoystick st = None -> sound st -> sound (enumerate ds idx st).
Proof.
  induction ds as [|d ds IH]; intros idx st c Hd Hj H; [exact H|].
  cbn [enumerate]. unfold EnumDevicesCallback, CreateDevice.
  assert (H1 : sound (printf Fmt.found [ArgStr (tszProductName d)] st)).
  { apply sound_emit; [exact H|neutral_tac|well_used_tac]. }
  destruct (SUCCEEDED (hr_CreateDevice d)) eqn:Hs;
    cbn -[Fmt.found Fmt.device_ok Fmt.device_failed]; rewrite ?Hs.
  - apply sound_emit; [|neutral_tac|well_used_tac].
    apply (sound_chunk _ _ [ECreateDevice (Some idx)] H1); [reflexivity| |].
    + apply in_sync_bind; [exact Hj|]. apply H1.
    + split; [well_used_tac|exact I].
  - apply (IH (S idx) _ c); [exact Hd|exact Hj|].
    apply sound_emit; [|neutral_tac|well_used_tac].
    apply sound_emit; [exact H1|neutral_tac|well_used_tac].
Qed.

Lemma sound_InitializeDirectInput env st :
  g_pDI st = None -> g_pJoystick st = None -> sound st ->
  sound (snd (InitializeDirectInput env st)).
Proof.
  intros Hd Hj H. unfold InitializeDirectInput, DirectInput8Create, EnumDevices.
  destruct (FAILED (hr_DirectInput8Create env)) eqn:Fdi; cbn [fst snd]; rewrite ?Fdi.
  - cbn [snd]. apply sound_emit; [|neutral_tac|well_used_tac].
    apply sound_emit; [exact H|neutral_tac|well_used_tac].
  - assert (H1 : sound (set_g_pDI (Some 0%nat) (emit (EDirectInput8Create (Some 0%nat)) st))).
    { apply (sound_chunk st _ [EDirectInput8Create (Some 0%nat)] H); [reflexivity| |].
      - apply in_sync_context; [exact Hd|apply H].
      - split; [well_used_tac|exact I]. }
    match goal with |- context [enumerate ?ds ?i ?s] =>
      assert (H3 : sound (enumerate ds i s));
      [|destruct (enumerate_spec ds i s) as (Ed & _);
        set (st3 := enumerate ds i s) in *] end.
    { apply (sound_enumerate _ _ _ 0%nat); [reflexivity|exact Hj|].
      apply sound_emit; [|neutral_tac|well_used_tac].
      apply sound_emit; [exact H1|neutral_tac|well_used_tac]. }
    cbn [g_pDI emit printf set_g_pDI] in Ed.
    destruct (g_pJoystick st3) as [j|] eqn:Gj.
    2:{ cbn [snd]. apply sound_emit; [exact H3|neutral_tac|well_used_tac]. }
    assert (step : forall e s, g_pJoystick s = Some j -> sound s -> neutral e ->
                     (forall h, uses KContext e = Some h -> False) ->
                     (forall h, uses KEffect e = Some h -> False) ->
                     (forall h, uses KDevice e = Some h -> h = j) ->
                     ~ null_call e -> ~ needs_context e ->
                     sound (emit e s)).
    { intros e s Gs Hs Ne U1 U2 U3 Nn Nc. apply sound_emit; [exact Hs|exact Ne|].
      split; [exact Nn|]. split; [|split].
      - intros k h Hk. destruct k; simpl.
        + now elim (U1 h).
        + rewrite Gs. now rewrite (U3 h Hk).
        + now elim (U2 h).
      - intros k h Hk. destruct (Ne k) as [Hc _]. congruence.
      - intros Hn. now elim Nc. }
    assert (stepj : forall e s, g_pJoystick s = Some j -> sound s -> neutral e ->
                      (forall h, uses KContext e = Some h -> False) ->
                      (forall h, uses KEffect e = Some h -> False) ->
                      (forall h, uses KDevice e = Some h -> h = j) ->
                      ~ null_call e -> ~ needs_context e ->
                      g_pJoystick (emit e s) = Some j /\ sound (emit e s)).
    { intros. split; [assumption|]. now apply step. }
    destruct (FAILED (hr_EnumDevices env)); cbn [snd];
      [apply step; auto; try neutral_tac; simpl; try discriminate; tauto|].
    destruct (FAILED (hr_SetCooperativeLevel env)); cbn [snd];
      [|destruct (FAILED (hr_SetDataFormat env)); cbn [snd];
        [|destruct (FAILED (hr_Acquire env)); cbn [snd]]];
      unfold printf;
      repeat (apply stepj || apply step);
      auto; try neutral_tac; simpl; try discriminate; try tauto;
      try (intros h0 X; injection X as X; now subst).
Qed.

Lemma chunk_ok_switch_calls env si sm d st j :
  g_pJoystick st = Some j ->
  chunk_ok (fun k => opt_list (held k st)) (switch_calls env si sm d st).
Proof.
  intros Gj. unfold switch_calls. destruct st as [di joy eff nt ne tr].
  cbn [g_pJoystick g_pEffect n_effects] in *. subst joy.
  destruct eff as [e|], (FAILED (hr_CreateEffect env ne)), (FAILED (hr_Start env ne));
    chunk_tac.
Qed.

Lemma sound_switched env si sm d p st j :
  g_pJoystick st = Some j -> sound st ->
  p = (if FAILED (hr_CreateEffect env (n_effects st)) then None else Some (n_effects st)) ->
  sound (switched env si sm d p st).
Proof.
  intros Gj H Hp. apply (sound_chunk st _ (switch_calls env si sm d st) H).
  - reflexivity.
  - apply in_sync_switched; [apply H|exact Hp].
  - now apply (chunk_ok_switch_calls env si sm d st j).
Qed.

Lemma sound_GetTickCount env st : sound st -> sound (snd (GetTickCount env st)).
Proof.
  intros H. apply (sound_chunk st _ [EGetTickCount (dword (tick env (n_ticks st)))] H).
  - reflexivity.
  - apply in_sync_GetTickCount, H.
  - split; [well_used_tac|exact I].
Qed.

Lemma sound_oscillation_loop env endTime si sm fuel d l st j :
  g_pJoystick st = Some j -> sound st ->
  sound (snd (oscillation_loop fuel env endTime si sm d l st)).
Proof.
  intros Gj H.
  apply (loop_rule_state env endTime si sm
           (fun s => g_pJoystick s = Some j /\ sound s)); auto.
  - intros s [G S]. split; [exact G|now apply sound_GetTickCount].
  - intros s [G S]. split; [exact G|].
    apply sound_emit; [exact S|neutral_tac|well_used_tac].
  - intros d0 p s [G S] Hp. split; [exact G|now apply (sound_switched env si sm d0 p s j)].
Qed.

Lemma sound_ApplyGentleOscillation fuel env ft st j :
  g_pJoystick st = Some j -> sound st ->
  sound (snd (ApplyGentleOscillation fuel env ft st)).
Proof.
  intros Gj H. rewrite ApplyGentleOscillation_of. unfold oscillation_of.
  match goal with |- context [oscillation_loop ?f ?e ?en ?si ?sm ?d ?l ?s] =>
    assert (Hr : sound (snd (oscillation_loop f e en si sm d l s)));
    [|set (r := oscillation_loop f e en si sm d l s) in *] end.
  { apply (sound_oscillation_loop _ _ _ _ _ _ _ _ j); [exact Gj|].
    apply sound_emit; [now apply sound_GetTickCount|neutral_tac|well_used_tac]. }
  destruct (fst r); cbn [snd]; auto.
  unfold stop_effect. destruct (g_pEffect (snd r)) eqn:Ge; [|exact Hr].
  apply sound_emit; [exact Hr|neutral_tac|well_used_tac].
Qed.

Lemma chunk_ok_cleanup_calls st :
  chunk_ok (fun k => opt_list (held k st)) (cleanup_calls st).
Proof.
  unfold cleanup_calls. destruct st as [di joy eff nt ne tr].
  cbn [g_pJoystick g_pEffect g_pDI].
  destruct eff, joy, di; chunk_tac.
Qed.

Lemma sound_cleaned st : sound st -> sound (emit ECoUninitialize (CleanupAll st)).
Proof.
  intros H. apply sound_emit; [|neutral_tac|well_used_tac].
  apply (sound_chunk st _ (cleanup_calls st) H).
  - now rewrite CleanupAll_eq.
  - apply in_sync_CleanupAll, H.
  - apply chunk_ok_cleanup_calls.
Qed.

Lemma sound_com_ready arg : sound (com_ready arg).
Proof.
  unfold com_ready, printf.
  apply sound_emit; [|neutral_tac|well_used_tac].
  apply sound_emit; [apply sound_initial|neutral_tac|well_used_tac].
Qed.

(** X3. In every run, finished or still polling, every method call is
    made on an object that is alive at that moment: SetCooperativeLevel,
    SetDataFormat, Acquire, Unacquire, CreateEffect and the device release on
    the one live device, Start, Stop and the effect release on the one live
    effect, the context release on the live context, the enumeration and
    CreateDevice while the context is alive.  No CreateEffect goes through a
    null device pointer, nothing is released twice or used after its
    release, and no context, device or effect is created while another one
    of its kind is alive. *)
Theorem no_call_on_dead_object (fuel : nat) (env : Env) (arg : cmdline) :
  object_safe (trace (state_of (main fuel env arg))).
Proof.
  rewrite main_eq. cbv zeta.
  destruct (FAILED (hr_CoInitialize env)).
  - cbn [state_of]. unfold printf.
    apply (sound_emit _ (com_ready arg) (sound_com_ready arg)); [neutral_tac|well_used_tac].
  - generalize (sound_InitializeDirectInput env (com_ready arg) eq_refl eq_refl
                  (sound_com_ready arg)).
    destruct (com_ready_init env arg) as (Hok & _ & _ & _ & _ & _ & Hb).
    set (r := InitializeDirectInput env (com_ready arg)) in *. intros Hr.
    destruct (fst r) eqn:Hf; cbn [negb].
    2:{ cbn [state_of]. now apply sound_cleaned. }
    destruct (Hb eq_refl) as [_ Gj].
    assert (Hj : exists j, g_pJoystick (snd r) = Some j).
    { rewrite Gj. symmetry in Hok. unfold init_ok in Hok.
      destruct (first_bindable (attached env) 0) as [j|]; [eauto|].
      rewrite andb_false_r in Hok. discriminate. }
    destruct Hj as [j Hj].
    destruct (negb (parse_feedbackType arg =? FEEDBACK_NONE)).
    + generalize (sound_ApplyGentleOscillation fuel env (parse_feedbackType arg)
                    (snd r) j Hj Hr).
      destruct (fst (ApplyGentleOscillation _ _ _ _)); cbn [state_of]; intros Ha.
      * now apply sound_cleaned.
      * apply Ha.
    + cbn [fst snd state_of]. apply sound_cleaned.
      apply sound_emit; [exact Hr|neutral_tac|well_used_tac].
Qed.

(** ** Every call of a run, by the step that makes it *)

Lemma extends_emit (P : event -> Prop) st0 st e :
  P e -> extends P st0 st -> extends P st0 (emit e st).
Proof.
  intros He X. eapply extends_trans; [exact X|].
  eapply extends_step; [apply trace_emit|exact He].
Qed.

Lemma enumerate_extends (P : event -> Prop) ds :
  (forall e, plain_event e -> P e) ->
  forall idx st, extends P st (enumerate ds idx st).
Proof.
  intros Pp. induction ds as [|d ds IH]; intros idx st; [apply extends_refl|].
  cbn [enumerate]. unfold EnumDevicesCallback, CreateDevice.
  destruct (SUCCEEDED (hr_CreateDevice d)) eqn:Hd;
    cbn -[Fmt.found Fmt.device_ok Fmt.device_failed]; rewrite ?Hd.
  - unfold printf. apply extends_emit; [apply Pp; simpl; tauto|].
    apply (extends_trans P st (emit (ECreateDevice (Some idx))
                                 (emit (EPrintf Fmt.found [ArgStr (tszProductName d)]) st))).
    + repeat (apply extends_emit; [apply Pp; simpl; tauto|]). apply extends_refl.
    + exists []. split; [now rewrite app_nil_r|constructor].
  - eapply extends_trans; [|apply IH]. unfold printf.
    repeat (apply extends_emit; [apply Pp; simpl; tauto|]). apply extends_refl.
Qed.

Lemma InitializeDirectInput_extends (P : event -> Prop) env st :
  (forall e, plain_event e -> P e) ->
  extends P st (snd (InitializeDirectInput env st)).
Proof.
  intros Pp. unfold InitializeDirectInput, DirectInput8Create, EnumDevices.
  destruct (FAILED (hr_DirectInput8Create env)) eqn:Fdi; cbn [fst snd]; rewrite ?Fdi.
  - cbn [snd]. unfold printf.
    repeat (apply extends_emit; [apply Pp; simpl; tauto|]). apply extends_refl.
  - match goal with |- context [enumerate ?ds ?i ?s] =>
      assert (X3 : extends P st (enumerate ds i s));
      [|set (st3 := enumerate ds i s) in *] end.
    { eapply extends_trans; [|now apply enumerate_extends]. unfold printf.
      apply extends_emit; [apply Pp; exact I|].
      apply extends_emit; [apply Pp; simpl; tauto|].
      exists [EDirectInput8Create (Some 0%nat)]. split; [reflexivity|].
      repeat constructor. apply Pp. exact I. }
    destruct (g_pJoystick st3);
      [destruct (FAILED (hr_EnumDevices env));
       [|destruct (FAILED (hr_SetCooperativeLevel env));
         [|destruct (FAILED (hr_SetDataFormat env));
           [|destruct (FAILED (hr_Acquire env))]]]|];
      cbn [snd]; unfold printf;
      repeat (apply extends_emit; [apply Pp; simpl; tauto|]); exact X3.
Qed.

Lemma extends_from_com_ready (P : event -> Prop) arg st :
  (forall e, plain_event e -> P e) ->
  extends P (com_ready arg) st -> Forall P (trace st).
Proof.
  intros Pp (new & -> & F). apply Forall_app. split; [|exact F].
  simpl. repeat constructor; apply Pp; simpl; tauto.
Qed.

(** If [P] holds of every plain call and, when a pattern is requested, of
    its announcement and of the calls of every direction switch, it holds of
    every call of a run. *)
Lemma main_every_call (P : event -> Prop) fuel env arg :
  (forall e, plain_event e -> P e) ->
  (parse_feedbackType arg <> FEEDBACK_NONE ->
   P (EPrintf (snd (oscillation_params (parse_feedbackType arg))) []) /\
   forall d s,
     Forall P (switch_calls env (fst (fst (oscillation_params (parse_feedbackType arg))))
                 (snd (fst (oscillation_params (parse_feedbackType arg)))) d s)) ->
  Forall P (trace (state_of (main fuel env arg))).
Proof.
  intros Pp Posc.
  assert (Pclean : forall st, Forall P (trace st) ->
                      Forall P (trace (emit ECoUninitialize (CleanupAll st)))).
  { intros st H. rewrite trace_emit, CleanupAll_eq. cbn [trace].
    apply Forall_app; split; [apply Forall_app; split; [exact H|]|].
    - apply cleanup_calls_Forall; intros; apply Pp; simpl; tauto.
    - repeat constructor. apply Pp. exact I. }
  rewrite main_eq. cbv zeta.
  destruct (FAILED (hr_CoInitialize env)).
  - cbn [state_of]. apply (extends_from_com_ready P arg); [exact Pp|].
    unfold printf. apply extends_emit; [apply Pp; simpl; tauto|apply extends_refl].
  - generalize (InitializeDirectInput_extends P env (com_ready arg) Pp).
    set (r := InitializeDirectInput env (com_ready arg)). intros Xr.
    destruct (negb (fst r)); [cbn [state_of]|].
    { apply Pclean. now apply (extends_from_com_ready P arg). }
    destruct (parse_feedbackType arg =? FEEDBACK_NONE) eqn:Hft; cbn [negb].
    + cbn [fst snd state_of]. apply Pclean.
      apply (extends_from_com_ready P arg); [exact Pp|].
      unfold printf. apply extends_emit; [apply Pp; simpl; tauto|exact Xr].
    + apply Z.eqb_neq in Hft. destruct (Posc Hft) as [Pline Pswitch].
      assert (Pa : Forall P (trace (snd (ApplyGentleOscillation fuel env
                                           (parse_feedbackType arg) (snd r))))).
      { apply (extends_from_com_ready P arg); [exact Pp|].
        eapply extends_trans; [exact Xr|].
        apply ApplyGentleOscillation_extends; auto; intros; apply Pp; simpl; auto. }
      destruct (fst (ApplyGentleOscillation _ _ _ _)); cbn [state_of]; auto.
Qed.

Lemma parse_feedbackType_range arg :
  parse_feedbackType arg = FEEDBACK_NONE \/
  parse_feedbackType arg = FEEDBACK_OBSTACLE \/
  parse_feedbackType arg = FEEDBACK_MOVEMENT.
Proof.
  destruct arg as [n|]; [|now left]. unfold parse_feedbackType.
  unfold FEEDBACK_NONE, FEEDBACK_OBSTACLE, FEEDBACK_MOVEMENT.
  destruct (n <? 0) eqn:A; [now left|]. destruct (n >? 2) eqn:B; [now left|].
  apply Z.ltb_ge in A. rewrite Z.gtb_ltb in B. apply Z.ltb_ge in B. cbn [orb]. lia.
Qed.

(** X4. Whatever the command line, [main] only ever runs the OBSTACLE or
    the MOVEMENT pattern: the default branch of the switch in
    [ApplyGentleOscillation] is never taken, so its line is never printed,
    and every descriptor handed to [CreateEffect] in any run lasts 25 ms
    with the nominal maximum as magnitude and as gain. *)
Theorem default_pattern_unreachable (fuel : nat) (env : Env) (arg : cmdline) :
  (forall args, ~ In (EPrintf Fmt.default args) (trace (state_of (main fuel env arg)))) /\
  Forall full_strength (submitted (trace (state_of (main fuel env arg)))).
Proof.
  assert (H : Forall (fun e => not_default_line e /\ on_submitted full_strength e)
                (trace (state_of (main fuel env arg)))).
  { apply main_every_call.
    - intros e He. destruct e; simpl in *; try tauto. split; [|exact I].
      repeat (destruct He as [<-|He]; [reflexivity|]). destruct He.
    - intros Hft.
      assert (Hp : oscillation_params (parse_feedbackType arg) = (25, 1%Q, Fmt.obstacle) \/
                   oscillation_params (parse_feedbackType arg) = (25, 1%Q, Fmt.movement)).
      { destruct (parse_feedbackType_range arg) as [E|[E|E]]; [contradiction| |];
          rewrite E; [left|right]; reflexivity. }
      destruct Hp as [-> | ->]; cbn [fst snd]; (split; [split; [reflexivity|exact I]|]);
        intros d s; unfold switch_calls;
        destruct (g_pEffect s), (FAILED (hr_CreateEffect env (n_effects s))),
          (FAILED (hr_Start env (n_effects s))); simpl;
        repeat constructor. }
  split.
  - intros args Hin. rewrite Forall_forall in H. destruct (H _ Hin) as [N _].
    simpl in N. discriminate.
  - apply submitted_Forall. eapply Forall_impl; [|exact H]. now intros e [_ Q].
Qed.

(** ** COM initialisation and its release *)

Lemma last_occurrence {A : Type} (x : A) body pre suf :
  ~ In x body -> body ++ [x] = pre ++ x :: suf -> suf = [].
Proof.
  intros N E. destruct (snoc_split body pre (x :: suf) x E) as [[E1 _]|(suf0 & E1 & E2)];
    [discriminate|].
  destruct suf0 as [|y suf0]; simpl in E1.
  - now injection E1.
  - injection E1 as <- _. elim N. rewrite E2. apply in_or_app. right. now left.
Qed.

Lemma session_not_com e :
  session_event e -> e <> ECoInitialize /\ e <> ECoUninitialize.
Proof. intros [H|H]; destruct e; simpl in H; try contradiction; split; discriminate. Qed.

Lemma cleanup_calls_not_com st e :
  In e (cleanup_calls st) -> e <> ECoInitialize /\ e <> ECoUninitialize.
Proof.
  unfold cleanup_calls. destruct (g_pEffect st), (g_pJoystick st), (g_pDI st); simpl;
    intros H; repeat (destruct H as [<-|H]; [split; discriminate|]); destruct H.
Qed.

(** X5. [CoInitialize] is called exactly once, right after the banner.
    [CoUninitialize] is called at most once, only when [CoInitialize] had
    succeeded, and then as the very last call of a run that exits; a run
    that exits after a successful [CoInitialize] does end with it. *)
Theorem com_balanced (fuel : nat) (env : Env) (arg : cmdline) :
  (exists rest,
     trace (state_of (main fuel env arg)) =
       [EPrintf Fmt.banner [ArgInt (parse_feedbackType arg)]; ECoInitialize] ++ rest /\
     ~ In ECoInitialize rest) /\
  (forall pre suf,
     trace (state_of (main fuel env arg)) = pre ++ ECoUninitialize :: suf ->
     suf = [] /\ FAILED (hr_CoInitialize env) = false /\
     exists code, exit_code (main fuel env arg) = Some code) /\
  (forall code st,
     main fuel env arg = Exit code st -> FAILED (hr_CoInitialize env) = false ->
     exists pre, trace st = pre ++ [ECoUninitialize]).
Proof.
  destruct (main_shape fuel env arg)
    as [[Fco E]|(Fco & st & _ & (new & En & Fn) & [E|(_ & _ & E)])]; rewrite E;
    cbn [state_of exit_code].
  - split; [|split].
    + eexists. split; [reflexivity|]. simpl. intros [H|[]]. discriminate.
    + intros pre suf Ht. exfalso.
      assert (Hin : In ECoUninitialize
                      (trace (printf Fmt.com_failed [ArgInt (hr_CoInitialize env)]
                                (com_ready arg)))).
      { rewrite Ht. apply in_or_app. right. now left. }
      simpl in Hin. repeat (destruct Hin as [H|Hin]; [discriminate|]). destruct Hin.
    + intros code st0 _ F. congruence.
  - assert (Nn : forall e, In e (new ++ cleanup_calls st) ->
                   e <> ECoInitialize /\ e <> ECoUninitialize).
    { intros e Hin. apply in_app_or in Hin as [Hin|Hin].
      - apply session_not_com. rewrite Forall_forall in Fn. now apply Fn.
      - now apply (cleanup_calls_not_com st). }
    assert (T : trace (emit ECoUninitialize (CleanupAll st)) =
                ([EPrintf Fmt.banner [ArgInt (parse_feedbackType arg)]; ECoInitialize] ++
                 new ++ cleanup_calls st) ++ [ECoUninitialize]).
    { rewrite trace_emit, CleanupAll_eq. cbn [trace]. rewrite En.
      cbn [com_ready printf emit trace initial_state app]. now rewrite <- !app_assoc. }
    split; [|split].
    + exists ((new ++ cleanup_calls st) ++ [ECoUninitialize]).
      split; [rewrite T; now rewrite <- !app_assoc|].
      intros Hin. apply in_app_or in Hin as [Hin|[H|[]]]; [|discriminate].
      destruct (Nn _ Hin) as [N _]. now elim N.
    + intros pre suf Ht. rewrite T in Ht. split; [|split; [exact Fco|eauto]].
      apply (last_occurrence ECoUninitialize _ pre suf) in Ht; [exact Ht|].
      intros Hin. simpl in Hin. destruct Hin as [H|[H|Hin]]; try discriminate.
      destruct (Nn _ Hin) as [_ N]. now elim N.
    + intros code st0 Hx _. injection Hx as _ <-. eexists. exact T.
  - assert (Nn : forall e, In e new -> e <> ECoInitialize /\ e <> ECoUninitialize).
    { intros e Hin. apply session_not_com. rewrite Forall_forall in Fn. now apply Fn. }
    assert (T : trace st =
                [EPrintf Fmt.banner [ArgInt (parse_feedbackType arg)]; ECoInitialize] ++ new).
    { rewrite En. reflexivity. }
    split; [|split].
    + exists new. split; [exact T|]. intros Hin. destruct (Nn _ Hin) as [N _]. now elim N.
    + intros pre suf Ht. exfalso.
      assert (Hin : In ECoUninitialize (trace st)).
      { rewrite Ht. apply in_or_app. right. now left. }
      rewrite T in Hin. simpl in Hin. destruct Hin as [H|[H|Hin]]; try discriminate.
      destruct (Nn _ Hin) as [_ N]. now elim N.
    + intros code st0 Hx. discriminate.
Qed.

(** ** Leaving the loop by its condition *)

(** How the loop run by [ApplyGentleOscillation] is left. *)
Lemma oscillation_of_exit fuel env ft st :
  polling (g_pDI st) (g_pJoystick st) st ->
  match fst (oscillation_of fuel env ft st) with
  | LoopReturn => aborted (g_pDI st) (g_pJoystick st) (snd (oscillation_of fuel env ft st))
  | _ => polling (g_pDI st) (g_pJoystick st) (snd (oscillation_of fuel env ft st))
  end.
Proof.
  intros H. unfold oscillation_of. apply oscillation_loop_abort.
  apply polling_emit; [exact I|exact I|]. cbn [GetTickCount snd].
  apply polling_emit; [exact I|exact I|exact H].
Qed.

Lemma ever_created_app_quiet tr new :
  Forall effect_quiet new -> ~ ever_created tr -> ~ ever_created (tr ++ new).
Proof. intros F N C. apply N. now apply (ever_created_quiet new). Qed.

Lemma cleaned_never_created st :
  g_pEffect st = None -> ~ ever_created (trace st) ->
  ~ ever_created (trace (emit ECoUninitialize (CleanupAll st))).
Proof.
  intros Ge N. rewrite trace_emit, CleanupAll_eq. cbn [trace]. rewrite <- app_assoc.
  apply ever_created_app_quiet; [|exact N].
  unfold cleanup_calls. rewrite Ge.
  destruct (g_pJoystick st), (g_pDI st); simpl; repeat constructor.
Qed.

(** X6. A run that exits after at least one effect was created and no
    [CreateEffect] failed ends, call by call, with: Stop of the effect that
    is alive, its release, Unacquire and release of the device, release of
    the context, the closing line, [CoUninitialize].  That Stop is the only
    one of the run, and the exit code is 0. *)
Theorem teardown_order (fuel : nat) (env : Env) (arg : cmdline) (code : Z) (st : state) :
  main fuel env arg = Exit code st ->
  ever_created (trace st) ->
  (forall dev eff, ~ In (ECreateEffect dev eff None) (trace st)) ->
  exists pre h j,
    code = 0 /\
    trace st =
      pre ++ [EEffectStop h; EEffectRelease h; EUnacquire j; EDeviceRelease j;
              EDIRelease 0%nat; EPrintf Fmt.cleanup []; ECoUninitialize] /\
    live KEffect pre = [h] /\
    (forall h', ~ In (EEffectStop h') pre).
Proof.
  intros Hrun Hc Hnf.
  destruct (main_cases fuel env arg)
    as [[_ E]|[(s & Hs & _ & E)|[(s & Hs & _ & E)|(s & Hs & Hok & _ & E)]]];
    rewrite E in Hrun.
  - injection Hrun as _ <-. exfalso. destruct Hc as (dev & eff & h & Hin).
    simpl in Hin. repeat (destruct Hin as [H|Hin]; [discriminate|]). destruct Hin.
  - injection Hrun as _ <-. exfalso. revert Hc.
    destruct (started_owning env arg s Hs) as [_ N].
    destruct Hs as (_ & _ & Ge & _). apply cleaned_never_created; auto.
  - injection Hrun as _ <-. exfalso. revert Hc.
    destruct (started_owning env arg s Hs) as [_ N].
    destruct Hs as (_ & _ & Ge & _). apply cleaned_never_created; [exact Ge|].
    unfold printf. rewrite trace_emit. apply ever_created_app_quiet; auto.
    repeat constructor.
  - destruct (started_bound env arg s Hs Hok) as (j & D & J).
    generalize (oscillation_of_exit fuel env (parse_feedbackType arg) s
                  (started_polling env arg s Hs)).
    cbv zeta in Hrun. rewrite ApplyGentleOscillation_of in Hrun. rewrite D, J.
    set (r := oscillation_of fuel env (parse_feedbackType arg) s) in *.
    destruct (fst r); cbn [fst snd] in Hrun; intros Hr.
    + injection Hrun as <- <-.
      destruct Hr as ([(_ & L & _) N] & C & Gd & Gj).
      unfold stop_effect in *. destruct (g_pEffect (snd r)) as [h|] eqn:Ge.
      * exists (trace (snd r)), h, j. split; [reflexivity|]. split; [|split].
        -- rewrite trace_emit, CleanupAll_eq. cbn [trace emit]. unfold cleanup_calls.
           cbn [g_pEffect g_pJoystick g_pDI emit]. rewrite Ge, Gd, Gj.
           rewrite <- !app_assoc. reflexivity.
        -- exact L.
        -- intros h' Hin. rewrite Forall_forall in C. exact (C _ Hin).
      * exfalso. revert Hc. apply cleaned_never_created; auto.
    + injection Hrun as _ <-. exfalso.
      destruct Hr as (pre & dev & eff & hr & T & _).
      apply (Hnf dev eff). rewrite trace_emit, CleanupAll_eq. cbn [trace]. rewrite T.
      apply in_or_app. left. apply in_or_app. left. apply in_or_app. right. now left.
    + discriminate.
Qed.

Lemma teardown_order_witness :
  exists st pre h j,
    main 100 good_env (Some 2) = Exit 0 st /\
    trace st =
      pre ++ [EEffectStop h; EEffectRelease h; EUnacquire j; EDeviceRelease j;
              EDIRelease 0%nat; EPrintf Fmt.cleanup []; ECoUninitialize] /\
    live KEffect pre = [h].
Proof.
  destruct (main 100 good_env (Some 2)) as [code st|st] eqn:E; [|vm_compute in E; discriminate].
  assert (C : code = 0) by (vm_compute in E; now injection E as <- _).
  subst code.
  assert (Hc : ever_created (trace st)).
  { exists (Some 0%nat), (build_effect 25 1 (-1)), 0%nat.
    assert (Et : trace st = trace (state_of (main 100 good_env (Some 2)))) by now rewrite E.
    rewrite Et. in_list. }
  assert (Hn : forall dev eff, ~ In (ECreateEffect dev eff None) (trace st)).
  { intros dev eff.
    assert (Et : trace st = trace (state_of (main 100 good_env (Some 2)))) by now rewrite E.
    rewrite Et. vm_compute. intuition discriminate. }
  destruct (teardown_order 100 good_env (Some 2) 0 st E Hc Hn) as (pre & h & j & _ & T & L & _).
  exists st, pre, h, j. auto.
Defined.

Lemma readings_app a b : readings (a ++ b) = readings a ++ readings b.
Proof.
  induction a as [|e a IH]; simpl; [reflexivity|]. destruct e; simpl; now rewrite ?IH.
Qed.

Lemma readings_quiet new : Forall not_reading new -> readings new = [].
Proof.
  induction 1 as [|e new He _ IH]; simpl; [reflexivity|].
  destruct e; simpl in *; auto. destruct He.
Qed.

Lemma readings_append tr new : Forall not_reading new -> readings (tr ++ new) = readings tr.
Proof. intros F. now rewrite readings_app, (readings_quiet new F), app_nil_r. Qed.

Lemma switch_calls_not_reading env si sm d st :
  Forall not_reading (switch_calls env si sm d st).
Proof.
  unfold switch_calls.
  destruct (g_pEffect st), (FAILED (hr_CreateEffect env (n_effects st))),
    (FAILED (hr_Start env (n_effects st))); simpl; repeat constructor.
Qed.

Lemma still_early_append start endTime st st' new :
  trace st' = trace st ++ new -> Forall not_reading new ->
  still_early start endTime st -> still_early start endTime st'.
Proof.
  intros E F (rs & R & B). exists rs. split; [|exact B].
  now rewrite E, readings_append.
Qed.

Lemma timed_out_append start endTime st st' new :
  trace st' = trace st ++ new -> Forall not_reading new ->
  timed_out start endTime st -> timed_out start endTime st'.
Proof.
  intros E F (rs & t & R & B). exists rs, t. split; [|exact B].
  now rewrite E, readings_append.
Qed.

Lemma oscillation_loop_readings env endTime si sm start fuel d l st :
  still_early start endTime st ->
  match fst (oscillation_loop fuel env endTime si sm d l st) with
  | LoopDone => timed_out start endTime (snd (oscillation_loop fuel env endTime si sm d l st))
  | _ => still_early start endTime (snd (oscillation_loop fuel env endTime si sm d l st))
  end.
Proof.
  apply (loop_rule env endTime si sm (fun _ _ => still_early start endTime)
           (fun x s => match x with
                       | LoopDone => timed_out start endTime s
                       | _ => still_early start endTime s
                       end)); auto.
  clear fuel d l st. intros d l st (rs & R & B). rewrite loop_body_eq. cbv zeta.
  assert (R1 : readings (trace (snd (GetTickCount env st))) =
               start :: rs ++ [dword (tick env (n_ticks st))]).
  { cbn [GetTickCount snd]. rewrite trace_emit. cbn [trace].
    rewrite readings_app, R. reflexivity. }
  destruct (_ <? _) eqn:Hlt.
  - apply Z.ltb_lt in Hlt.
    assert (H1 : still_early start endTime (snd (GetTickCount env st))).
    { exists (rs ++ [dword (tick env (n_ticks st))]). split; [exact R1|].
      apply Forall_app. split; [exact B|]. repeat constructor. exact Hlt. }
    destruct (_ >? _).
    + rewrite switch_direction_eq.
      destruct (FAILED _);
        apply (still_early_append start endTime (snd (GetTickCount env st)) _
                 (switch_calls env si sm d (snd (GetTickCount env st))));
        auto using switch_calls_not_reading.
    + apply (still_early_append start endTime (snd (GetTickCount env st)) _ [ESleep 10]);
        auto. repeat constructor.
  - apply Z.ltb_ge in Hlt. exists rs, (dword (tick env (n_ticks st))). auto.
Qed.

Lemma untimed_not_reading e : untimed e -> not_reading e.
Proof. destruct e; simpl; auto. Qed.

Lemma started_no_readings env arg st : started env arg st -> readings (trace st) = [].
Proof.
  intros H. apply readings_quiet.
  eapply Forall_impl; [|apply (started_untimed env arg st H)]. apply untimed_not_reading.
Qed.

Lemma cleaned_readings st :
  readings (trace (emit ECoUninitialize (CleanupAll st))) = readings (trace st).
Proof.
  rewrite trace_emit, CleanupAll_eq. cbn [trace]. rewrite <- app_assoc.
  apply readings_append. apply Forall_app. split; [|repeat constructor].
  apply cleanup_calls_Forall; intros; exact I.
Qed.

(** X7. A run that exits after the pattern was played without a failed
    [CreateEffect] has polled the clock until the end time was reached: its
    clock readings are the start time, then readings all below the end time
    (start + 300 ms on the wrapping clock), then one last reading that is
    not below it. *)
Theorem pattern_runs_to_end_time (fuel : nat) (env : Env) (arg : cmdline)
    (code : Z) (st : state) :
  main fuel env arg = Exit code st ->
  readings (trace st) <> [] ->
  (forall dev eff, ~ In (ECreateEffect dev eff None) (trace st)) ->
  timed_out (dword (tick env 0))
    (dword (dword (tick env 0) + OSCILLATION_DURATION)) st.
Proof.
  intros Hrun Hr Hnf.
  destruct (main_cases fuel env arg)
    as [[_ E]|[(s & Hs & _ & E)|[(s & Hs & _ & E)|(s & Hs & Hok & _ & E)]]];
    rewrite E in Hrun.
  - injection Hrun as _ <-. now elim Hr.
  - injection Hrun as _ <-. elim Hr. rewrite cleaned_readings.
    now apply (started_no_readings env arg).
  - injection Hrun as _ <-. elim Hr. rewrite cleaned_readings.
    unfold printf. rewrite trace_emit, readings_append; [|repeat constructor].
    now apply (started_no_readings env arg).
  - cbv zeta in Hrun. rewrite ApplyGentleOscillation_of in Hrun.
    assert (N : n_ticks s = 0%nat) by apply Hs.
    assert (H2 : still_early (dword (tick env 0))
                   (dword (dword (tick env 0) + OSCILLATION_DURATION))
                   (printf (snd (oscillation_params (parse_feedbackType arg))) []
                      (snd (GetTickCount env s)))).
    { exists []. split; [|constructor]. unfold printf. rewrite trace_emit.
      rewrite readings_append; [|repeat constructor].
      cbn [GetTickCount snd]. rewrite trace_emit. cbn [trace].
      rewrite readings_app, (started_no_readings env arg s Hs), N. reflexivity. }
    generalize (oscillation_loop_readings env
                  (dword (dword (tick env 0) + OSCILLATION_DURATION))
                  (fst (fst (oscillation_params (parse_feedbackType arg))))
                  (snd (fst (oscillation_params (parse_feedbackType arg))))
                  (dword (tick env 0)) fuel 1 (dword (tick env 0)) _ H2).
    generalize (oscillation_of_exit fuel env (parse_feedbackType arg) s
                  (started_polling env arg s Hs)).
    unfold oscillation_of in *. rewrite N in *.
    match goal with |- context [oscillation_loop ?f ?e ?en ?si ?sm ?d ?l ?s0] =>
      set (r := oscillation_loop f e en si sm d l s0) in * end.
    destruct (fst r); cbn [fst snd] in Hrun; intros Hab Ht.
    + injection Hrun as _ <-.
      apply (timed_out_append _ _ (snd r) _
               ((match g_pEffect (snd r) with Some e => [EEffectStop e] | None => [] end
                 ++ cleanup_calls (stop_effect (snd r))) ++ [ECoUninitialize]));
        [| |exact Ht].
      * rewrite trace_emit, CleanupAll_eq. cbn [trace]. unfold stop_effect.
        destruct (g_pEffect (snd r)); cbn [trace emit app];
          now rewrite <- ?app_assoc.
      * apply Forall_app. split; [apply Forall_app; split|repeat constructor].
        -- destruct (g_pEffect (snd r)); repeat constructor.
        -- apply cleanup_calls_Forall; intros; exact I.
    + injection Hrun as _ <-. exfalso.
      destruct Hab as (pre & dev & eff & hr & T & _).
      apply (Hnf dev eff). rewrite trace_emit, CleanupAll_eq. cbn [trace]. rewrite T.
      apply in_or_app. left. apply in_or_app. left. apply in_or_app. right. now left.
    + discriminate.
Qed.

Lemma pattern_runs_to_end_time_witness :
  exists st rs t,
    main 100 good_env (Some 1) = Exit 0 st /\
    readings (trace st) = 1000 :: rs ++ [t] /\
    Forall (fun r => r < 1300) rs /\ 1300 <= t.
Proof.
  destruct (main 100 good_env (Some 1)) as [code st|st] eqn:E; [|vm_compute in E; discriminate].
  assert (C : code = 0) by (vm_compute in E; now injection E as <- _).
  subst code.
  assert (Et : trace st = trace (state_of (main 100 good_env (Some 1)))) by now rewrite E.
  assert (Hr : readings (trace st) <> []).
  { rewrite Et. vm_compute. discriminate. }
  assert (Hn : forall dev eff, ~ In (ECreateEffect dev eff None) (trace st)).
  { intros dev eff. rewrite Et. vm_compute. intuition discriminate. }
  destruct (pattern_runs_to_end_time 100 good_env (Some 1) 0 st E Hr Hn)
    as (rs & t & R & B & T).
  exists st, rs, t. auto.
Defined.

(** ** The tick counter wrapping during the pattern *)

(** X8. If the pattern starts less than 300 ms before the tick counter
    wraps and the counter has not wrapped yet at the first poll, the end
    time has wrapped below the readings and the loop is left at that first
    poll: the run makes two clock readings, creates no effect at all and
    exits with code 0. *)
Theorem pattern_skipped_before_wrap (fuel : nat) (env : Env) (arg : cmdline) :
  FAILED (hr_CoInitialize env) = false -> init_ok env = true ->
  parse_feedbackType arg <> FEEDBACK_NONE -> (0 < fuel)%nat ->
  DWORD_MOD - OSCILLATION_DURATION <= dword (tick env 0) ->
  dword (tick env 0) <= dword (tick env 1) ->
  exists st,
    main fuel env arg = Exit 0 st /\
    readings (trace st) = [dword (tick env 0); dword (tick env 1)] /\
    (forall e, In e (trace st) ->
       e = EGetTickCount (dword (tick env 0)) \/ e = EGetTickCount (dword (tick env 1)) \/
       ~ oscillation_event e).
Proof.
  intros Fco Hok Hft Hfuel Hwrap Hmono.
  destruct (main_cases fuel env arg)
    as [[F _]|[(s & _ & F & _)|[(s & _ & F & _)|(s & Hs & _ & _ & E)]]];
    try congruence.
  rewrite E. cbv zeta. rewrite ApplyGentleOscillation_of. unfold oscillation_of.
  assert (N : n_ticks s = 0%nat) by apply Hs.
  assert (Ge : g_pEffect s = None) by apply Hs.
  rewrite N.
  set (line := snd (oscillation_params (parse_feedbackType arg))).
  set (s2 := printf line [] (snd (GetTickCount env s))).
  set (s3 := snd (GetTickCount env s2)).
  assert (N2 : n_ticks s2 = 1%nat).
  { unfold s2. cbn [GetTickCount printf emit n_ticks snd]. now rewrite N. }
  assert (T3 : trace s3 =
               trace s ++ [EGetTickCount (dword (tick env 0)); EPrintf line [];
                           EGetTickCount (dword (tick env 1))]).
  { unfold s3. cbn [GetTickCount snd]. rewrite trace_emit. cbn [trace]. rewrite N2.
    unfold s2, printf. rewrite trace_emit. cbn [GetTickCount snd]. rewrite trace_emit.
    cbn [trace]. rewrite N. now rewrite <- !app_assoc. }
  assert (G3 : g_pEffect s3 = None) by exact Ge.
  assert (End : dword (dword (tick env 0) + OSCILLATION_DURATION)
                = dword (tick env 0) + OSCILLATION_DURATION - DWORD_MOD).
  { generalize (dword_range (tick env 0)). intros R.
    unfold dword at 1. unfold OSCILLATION_DURATION, DWORD_MOD in *.
    symmetry. apply Z.mod_unique with (q := 1); lia. }
  assert (L : forall si sm,
            oscillation_loop fuel env (dword (dword (tick env 0) + OSCILLATION_DURATION))
              si sm 1 (dword (tick env 0)) s2 = (LoopDone, s3)).
  { intros si sm. destruct fuel as [|fuel']; [lia|]. cbn [oscillation_loop].
    rewrite loop_body_eq. cbv zeta. rewrite N2.
    replace (dword (tick env 1) <? dword (dword (tick env 0) + OSCILLATION_DURATION))
      with false; [reflexivity|].
    symmetry. apply Z.ltb_ge. rewrite End.
    generalize (dword_range (tick env 0)). unfold OSCILLATION_DURATION, DWORD_MOD. lia. }
  rewrite L. cbn [fst snd]. unfold stop_effect. rewrite G3.
  eexists. split; [reflexivity|].
  destruct Hs as (_ & Hx & _).
  rewrite trace_emit, CleanupAll_eq. cbn [trace]. rewrite T3. split.
  - rewrite <- app_assoc, readings_append.
    + rewrite readings_app, (readings_quiet (trace s)); [reflexivity|].
      rewrite Forall_forall. intros e Hin.
      generalize (extends_startup_quiet arg s e Hx Hin). destruct e; simpl; tauto.
    + apply Forall_app. split; [|repeat constructor].
      apply cleanup_calls_Forall; intros; exact I.
  - intros e Hin.
    apply in_app_or in Hin as [Hin|[<-|[]]]; [|right; right; simpl; tauto].
    apply in_app_or in Hin as [Hin|Hin];
      [|right; right; now apply (cleanup_calls_quiet s3)].
    apply in_app_or in Hin as [Hin|Hin];
      [right; right; now apply (extends_startup_quiet arg s)|].
    simpl in Hin. destruct Hin as [<-|[<-|[<-|[]]]]; auto.
Qed.

Lemma pattern_skipped_before_wrap_witness :
  DWORD_MOD - OSCILLATION_DURATION <= dword (tick wrapping_env 0) /\
  dword (tick wrapping_env 0) <= dword (tick wrapping_env 1) /\
  exists st,
    main 100 wrapping_env (Some 1) = Exit 0 st /\
    readings (trace st) = [dword (tick wrapping_env 0); dword (tick wrapping_env 1)].
Proof.
  assert (A : DWORD_MOD - OSCILLATION_DURATION <= dword (tick wrapping_env 0))
    by (vm_compute; discriminate).
  assert (B : dword (tick wrapping_env 0) <= dword (tick wrapping_env 1))
    by (vm_compute; discriminate).
  split; [exact A|]. split; [exact B|].
  destruct (pattern_skipped_before_wrap 100 wrapping_env (Some 1))
    as (st & E & R & _); try reflexivity; try lia; try discriminate; auto.
  exists st. auto.
Defined.

(** ** The number of switches *)

Section Pacing.
Variables (env : Env) (sm : Q) (start : Z).
Hypothesis start_range : 0 <= start.
Hypothesis no_wrap : start + OSCILLATION_DURATION < DWORD_MOD.
Hypothesis forward :
  forall n, dword (tick env n) < start + OSCILLATION_DURATION ->
            dword (tick env n) <= dword (tick env (S n)).

Lemma paced_bound d l st :
  paced env start d l st -> (List.length (submitted (trace st)) <= 11)%nat.
Proof.
  unfold paced, OSCILLATION_DURATION. cbv zeta. intros (A & B & _ & _ & C). lia.
Qed.

Lemma oscillation_loop_paced fuel d l st :
  paced env start d l st ->
  (List.length
     (submitted (trace (snd (oscillation_loop fuel env (start + OSCILLATION_DURATION)
                               25 sm d l st)))) <= 11)%nat.
Proof.
  apply (loop_rule env (start + OSCILLATION_DURATION) 25 sm (paced env start)
           (fun _ s => (List.length (submitted (trace s)) <= 11)%nat)).
  - intros d0 l0 s. apply paced_bound.
  - clear fuel d l st. intros d l st H. generalize (paced_bound d l st H). intros Hb.
    destruct H as (A & B & N & T & C). cbv zeta in A.
    rewrite loop_body_eq. cbv zeta.
    destruct (timed_tick env st) as (S1 & _ & T1 & N1). cbv zeta in S1, T1, N1.
    assert (Hnow : latest_tick 0 (trace st) <= dword (tick env (n_ticks st))).
    { destruct (n_ticks st) as [|n]; [lia|]. simpl pred in T. rewrite T in C |- *.
      now apply forward. }
    destruct (_ <? _) eqn:Hlt; [|now rewrite S1].
    apply Z.ltb_lt in Hlt.
    destruct (_ >? _) eqn:Hgt.
    + rewrite Z.gtb_ltb in Hgt. apply Z.ltb_lt in Hgt.
      assert (Hd : dword (dword (tick env (n_ticks st)) - l) =
                   dword (tick env (n_ticks st)) - l).
      { apply dword_small. generalize (dword_range (tick env (n_ticks st))).
        unfold DWORD_MOD in *. lia. }
      rewrite Hd in Hgt. change (dword 25) with 25 in Hgt.
      assert (P : forall p,
                paced env start (d * -1) (dword (tick env (n_ticks st)))
                  (switched env 25 sm d p (snd (GetTickCount env st)))).
      { intros p.
        destruct (timed_switched env 25 sm d p (snd (GetTickCount env st)))
          as (S2 & _ & T2 & N2). cbv zeta in S2, T2, N2.
        unfold paced. cbv zeta. rewrite S2, T2, N2, S1, T1, N1, length_app.
        cbn [List.length pred]. rewrite Nat.add_1_r, Nat2Z.inj_succ.
        repeat split; try lia. }
      rewrite switch_direction_eq. destruct (FAILED _).
      * eapply paced_bound. apply P.
      * apply P.
    + unfold paced, Sleep. cbv zeta. rewrite trace_emit.
      destruct (untimed_app (trace (snd (GetTickCount env st))) [ESleep 10])
        as (S2 & _ & T2); [repeat constructor|].
      rewrite S2, T2, S1, T1. cbn [n_ticks emit]. rewrite N1. cbn [pred].
      repeat split; try lia.
Qed.
End Pacing.

Lemma cleaned_submitted st :
  submitted (trace (emit ECoUninitialize (CleanupAll st))) = submitted (trace st).
Proof.
  rewrite trace_emit, CleanupAll_eq. cbn [trace]. rewrite <- app_assoc.
  apply untimed_app. apply Forall_app. split; [|repeat constructor].
  apply cleanup_calls_Forall; intros; exact I.
Qed.

Lemma started_no_submitted env arg st : started env arg st -> submitted (trace st) = [].
Proof. intros H. apply (untimed_list _ (started_untimed env arg st H) 0). Qed.

(** X9. When the end time of the pattern does not wrap and the clock
    does not go backwards while it is below the end time, a run hands at
    most 11 descriptors to [CreateEffect]: consecutive switches are at least
    26 ms apart and all fall before start + 300 ms. *)
Theorem at_most_eleven_switches (fuel : nat) (env : Env) (arg : cmdline) :
  dword (tick env 0) + OSCILLATION_DURATION < DWORD_MOD ->
  (forall n, dword (tick env n) < dword (tick env 0) + OSCILLATION_DURATION ->
             dword (tick env n) <= dword (tick env (S n))) ->
  (List.length (submitted (trace (state_of (main fuel env arg)))) <= 11)%nat.
Proof.
  intros Hw Hf.
  destruct (main_cases fuel env arg)
    as [[_ E]|[(s & Hs & _ & E)|[(s & Hs & _ & E)|(s & Hs & _ & Hft & E)]]];
    rewrite E; cbn [state_of].
  - simpl. lia.
  - rewrite cleaned_submitted, (started_no_submitted env arg s Hs). simpl. lia.
  - rewrite cleaned_submitted. unfold printf. rewrite trace_emit.
    destruct (untimed_app (trace s) [EPrintf Fmt.no_feedback []]) as (-> & _);
      [repeat constructor|].
    rewrite (started_no_submitted env arg s Hs). simpl. lia.
  - cbv zeta. rewrite ApplyGentleOscillation_of. unfold oscillation_of.
    assert (N : n_ticks s = 0%nat) by apply Hs. rewrite N.
    assert (Hsi : fst (fst (oscillation_params (parse_feedbackType arg))) = 25).
    { destruct (parse_feedbackType_range arg) as [X|[X|X]]; [contradiction| |];
        rewrite X; reflexivity. }
    rewrite Hsi.
    assert (He : dword (dword (tick env 0) + OSCILLATION_DURATION) =
                 dword (tick env 0) + OSCILLATION_DURATION).
    { apply dword_small. generalize (dword_range (tick env 0)).
      unfold OSCILLATION_DURATION in *. lia. }
    rewrite He.
    set (s2 := printf (snd (oscillation_params (parse_feedbackType arg))) []
                 (snd (GetTickCount env s))).
    assert (H2 : paced env (dword (tick env 0)) 1 (dword (tick env 0)) s2).
    { destruct (timed_tick env s) as (S1 & _ & T1 & N1). cbv zeta in S1, T1, N1.
      destruct (untimed_app (trace (snd (GetTickCount env s)))
                  [EPrintf (snd (oscillation_params (parse_feedbackType arg))) []])
        as (S2 & _ & T2); [repeat constructor|].
      unfold paced, s2, printf. cbv zeta. rewrite trace_emit, S2, T2, S1, T1.
      cbn [n_ticks emit]. rewrite N1, N, (started_no_submitted env arg s Hs).
      cbn [List.length pred]. unfold OSCILLATION_DURATION. repeat split; lia. }
    generalize (oscillation_loop_paced env
                  (snd (fst (oscillation_params (parse_feedbackType arg))))
                  (dword (tick env 0)) (proj1 (dword_range (tick env 0))) Hw Hf
                  fuel 1 (dword (tick env 0)) s2 H2).
    set (r := oscillation_loop _ _ _ _ _ _ _ s2). intros Hr.
    assert (Hstop : submitted (trace (stop_effect (snd r))) = submitted (trace (snd r))).
    { unfold stop_effect. destruct (g_pEffect (snd r)); [|reflexivity].
      rewrite trace_emit. apply untimed_app. repeat constructor. }
    destruct (fst r); cbn [fst snd state_of]; rewrite ?cleaned_submitted, ?Hstop; exact Hr.
Qed.

Lemma brisk_forward n :
  dword (tick brisk_env n) < dword (tick brisk_env 0) + OSCILLATION_DURATION ->
  dword (tick brisk_env n) <= dword (tick brisk_env (S n)).
Proof.
  cbn [tick brisk_env]. unfold steady_clock.
  change (dword (1000 + 26 * Z.of_nat 0)) with 1000. unfold OSCILLATION_DURATION.
  rewrite Nat2Z.inj_succ.
  replace (1000 + 26 * Z.succ (Z.of_nat n)) with ((1000 + 26 * Z.of_nat n) + 26) by lia.
  generalize (1000 + 26 * Z.of_nat n). intros a H.
  generalize (dword_range a). intros R.
  assert (E : dword (a + 26) = dword a + 26).
  { unfold dword. rewrite Z.add_mod by discriminate.
    rewrite (Z.mod_small 26) by (unfold DWORD_MOD; lia).
    apply Z.mod_small. unfold dword, DWORD_MOD in *. lia. }
  rewrite E. lia.
Qed.

Lemma at_most_eleven_switches_witness :
  dword (tick brisk_env 0) + OSCILLATION_DURATION < DWORD_MOD /\
  List.length (submitted (trace (state_of (main 100 brisk_env (Some 1))))) = 11%nat /\
  (List.length (submitted (trace (state_of (main 100 brisk_env (Some 1%Z))))) <= 11)%nat.
Proof.
  assert (A : dword (tick brisk_env 0) + OSCILLATION_DURATION < DWORD_MOD)
    by (vm_compute; reflexivity).
  split; [exact A|]. split; [vm_compute; reflexivity|].
  exact (at_most_eleven_switches 100 brisk_env (Some 1) A brisk_forward).
Defined.

(** ** Playback: every created effect is started, and nothing else is *)

Lemma grows_trans (T : list event -> Prop) st1 st2 st3 :
  (forall a b, T a -> T b -> T (a ++ b)) ->
  grows T st1 st2 -> grows T st2 st3 -> grows T st1 st3.
Proof.
  intros Tapp (n1 & E1 & F1) (n2 & E2 & F2). exists (n1 ++ n2). split.
  - now rewrite E2, E1, app_assoc.
  - now apply Tapp.
Qed.

Lemma extends_grows (T : list event -> Prop) st st' :
  (forall new, Forall plain_event new -> T new) ->
  extends plain_event st st' -> grows T st st'.
Proof. intros Tp (new & E & F). exists new. auto. Qed.

(** A property of runs of calls that is kept by concatenation, and holds of
    every run of plain calls, of every line and of the calls of every
    direction switch, holds of the calls of [ApplyGentleOscillation]. *)
Lemma ApplyGentleOscillation_grows (T : list event -> Prop) fuel env ft st :
  (forall a b, T a -> T b -> T (a ++ b)) ->
  (forall new, Forall plain_event new -> T new) ->
  (forall f args, T [EPrintf f args]) ->
  (forall si sm d s, T (switch_calls env si sm d s)) ->
  grows T st (snd (ApplyGentleOscillation fuel env ft st)).
Proof.
  intros Tapp Tp Tline Tswitch.
  assert (Tone : forall e, plain_event e -> T [e]).
  { intros e He. apply Tp. now constructor. }
  assert (Step : forall e s, T [e] -> grows T st s -> grows T st (emit e s)).
  { intros e s He H. apply (grows_trans T st s); [exact Tapp|exact H|].
    exists [e]. split; [apply trace_emit|exact He]. }
  rewrite ApplyGentleOscillation_eq. cbv zeta.
  set (st2 := printf _ _ _).
  set (r := oscillation_loop _ _ _ _ _ _ _ st2).
  assert (X2 : grows T st st2).
  { unfold st2, printf. apply Step; [apply Tline|].
    apply extends_grows; [exact Tp|]. apply extends_GetTickCount. intros; exact I. }
  assert (Xr : grows T st (snd r)).
  { unfold r. apply (loop_rule_state env _ _ _ (fun s => grows T st s)); [| | |exact X2].
    - intros s H. apply (grows_trans T st s); [exact Tapp|exact H|].
      apply extends_grows; [exact Tp|]. apply extends_GetTickCount. intros; exact I.
    - intros s H. unfold Sleep. apply Step; [apply Tone; reflexivity|exact H].
    - intros d p s H _. apply (grows_trans T st s); [exact Tapp|exact H|].
      exists (switch_calls env (fst (fst (oscillation_params ft)))
                (snd (fst (oscillation_params ft))) d s).
      split; [reflexivity|apply Tswitch]. }
  destruct (fst r); cbn [snd]; auto.
  unfold stop_effect. destruct (g_pEffect (snd r)); [|exact Xr].
  apply Step; [apply Tone; exact I|exact Xr].
Qed.

(** The same for the calls of a whole run. *)
Lemma main_trace_rule (T : list event -> Prop) fuel env arg :
  (forall a b, T a -> T b -> T (a ++ b)) ->
  (forall new, Forall plain_event new -> T new) ->
  (forall f args, T [EPrintf f args]) ->
  (forall si sm d s, T (switch_calls env si sm d s)) ->
  T (trace (state_of (main fuel env arg))).
Proof.
  intros Tapp Tp Tline Tswitch.
  assert (Pid : forall e, plain_event e -> plain_event e) by auto.
  assert (From : forall st, grows T (com_ready arg) st -> T (trace st)).
  { intros st (new & -> & H). apply Tapp; [|exact H]. apply Tp.
    simpl. repeat constructor; simpl; tauto. }
  assert (Tclean : forall st, grows T (com_ready arg) st ->
                     T (trace (emit ECoUninitialize (CleanupAll st)))).
  { intros st H. rewrite trace_emit, CleanupAll_eq. cbn [trace]. rewrite <- app_assoc.
    apply Tapp; [now apply From|]. apply Tp. apply Forall_app. split.
    - apply cleanup_calls_Forall; intros; simpl; tauto.
    - repeat constructor. }
  rewrite main_eq. cbv zeta.
  destruct (FAILED (hr_CoInitialize env)).
  - cbn [state_of]. apply From. apply extends_grows; [exact Tp|].
    unfold printf. apply extends_emit; [simpl; tauto|apply extends_refl].
  - generalize (InitializeDirectInput_extends plain_event env (com_ready arg) Pid).
    set (r := InitializeDirectInput env (com_ready arg)). intros Xr.
    destruct (negb (fst r)); [cbn [state_of]|].
    { apply Tclean. now apply extends_grows. }
    destruct (parse_feedbackType arg =? FEEDBACK_NONE); cbn [negb].
    + cbn [fst snd state_of]. apply Tclean. apply extends_grows; [exact Tp|].
      unfold printf. apply extends_emit; [simpl; tauto|exact Xr].
    + assert (Xa : grows T (com_ready arg)
                     (snd (ApplyGentleOscillation fuel env (parse_feedbackType arg) (snd r)))).
      { apply (grows_trans T _ (snd r)); [exact Tapp|now apply extends_grows|].
        now apply ApplyGentleOscillation_grows. }
      destruct (fst (ApplyGentleOscillation _ _ _ _)); cbn [state_of]; auto.
Qed.

Lemma start_after_create_app a b :
  start_after_create a -> start_after_create b -> start_after_create (a ++ b).
Proof.
  intros [A1 A2] [B1 B2]. split.
  - intros pre dev eff h suf E.
    apply app_eq_app in E. destruct E as (l & [[E1 E2]|[E1 E2]]).
    + destruct l as [|x l].
      * simpl in E2. exact (B1 [] dev eff h suf (eq_sym E2)).
      * simpl in E2. injection E2 as <- E2. subst suf.
        destruct (A1 _ _ _ _ _ E1) as (suf' & ->). now exists (suf' ++ b).
    + exact (B1 _ _ _ _ _ E2).
  - intros pre h it fl suf E.
    apply app_eq_app in E. destruct E as (l & [[E1 E2]|[E1 E2]]).
    + destruct l as [|x l].
      * simpl in E2.
        destruct (B2 [] h it fl suf (eq_sym E2)) as (pre' & dev & eff & N).
        now destruct pre'.
      * simpl in E2. injection E2 as <- E2.
        exact (A2 _ _ _ _ _ E1).
    + destruct (B2 _ _ _ _ _ E2) as (pre' & dev & eff & ->).
      exists (a ++ pre'), dev, eff. now rewrite E1, app_assoc.
Qed.

Lemma start_after_create_plain new :
  Forall plain_event new -> start_after_create new.
Proof.
  intros F. rewrite Forall_forall in F. split.
  - intros pre dev eff h suf E. exfalso.
    apply (F (ECreateEffect dev eff (Some h))). rewrite E. apply in_or_app. right. now left.
  - intros pre h it fl suf E. exfalso.
    apply (F (EEffectStart h it fl)). rewrite E. apply in_or_app. right. now left.
Qed.

Lemma start_after_create_none new :
  (forall e, In e new -> match e with
                         | ECreateEffect _ _ (Some _) | EEffectStart _ _ _ => False
                         | _ => True
                         end) ->
  start_after_create new.
Proof.
  intros H. split.
  - intros pre dev eff h suf E. exfalso.
    apply (H (ECreateEffect dev eff (Some h))). rewrite E. apply in_or_app. right. now left.
  - intros pre h it fl suf E. exfalso.
    apply (H (EEffectStart h it fl)). rewrite E. apply in_or_app. right. now left.
Qed.

Lemma start_after_create_pair dev eff h :
  start_after_create [ECreateEffect dev eff (Some h); EEffectStart h 1 0].
Proof.
  split.
  - intros pre dev' eff' h' suf E.
    destruct pre as [|x [|y [|z pre]]]; simpl in E.
    + injection E as _ _ <- <-. now exists [].
    + discriminate.
    + injection E as _ _ E. discriminate.
    + injection E as _ _ E. discriminate.
  - intros pre h' it fl suf E.
    destruct pre as [|x [|y [|z pre]]]; simpl in E.
    + discriminate.
    + injection E as <- <- _ _ _. now exists [], dev, eff.
    + injection E as _ _ E. discriminate.
    + injection E as _ _ E. discriminate.
Qed.

Lemma start_after_create_switch_calls env si sm d st :
  start_after_create (switch_calls env si sm d st).
Proof.
  unfold switch_calls. apply start_after_create_app.
  - apply start_after_create_none. destruct (g_pEffect st); simpl;
      intros e H; repeat (destruct H as [<-|H]; [exact I|]); destruct H.
  - destruct (FAILED (hr_CreateEffect env (n_effects st))).
    + apply start_after_create_none. simpl. intros e [<-|[<-|[]]]; exact I.
    + apply start_after_create_app; [apply start_after_create_pair|].
      apply start_after_create_none. destruct (FAILED (hr_Start env (n_effects st))); simpl;
        intros e H; repeat (destruct H as [<-|H]; [exact I|]); destruct H.
Qed.

(** X10. In every run, finished or still polling, each successful
    [CreateEffect] is directly followed by [Start] of the effect it
    returned, for one iteration and without flags, and [Start] is called at
    no other moment: every effect is started exactly once, as soon as it
    exists. *)
Theorem started_once_created (fuel : nat) (env : Env) (arg : cmdline) :
  start_after_create (trace (state_of (main fuel env arg))).
Proof.
  apply main_trace_rule.
  - apply start_after_create_app.
  - apply start_after_create_plain.
  - intros f args. apply start_after_create_none. intros e [<-|[]]. exact I.
  - intros. apply start_after_create_switch_calls.
Qed.

(** ** Pacing of the polls *)

Lemma sleeps_app a b : sleeps (a ++ b) = (sleeps a + sleeps b)%nat.
Proof.
  induction a as [|e a IH]; simpl; [reflexivity|]. destruct e; simpl; now rewrite ?IH.
Qed.

Lemma awake_list new : Forall awake new -> sleeps new = 0%nat /\ readings new = [].
Proof.
  induction 1 as [|e new He _ IH]; simpl; [auto|].
  destruct e; simpl in *; auto; destruct He.
Qed.

Lemma awake_append tr new : Forall awake new ->
  sleeps (tr ++ new) = sleeps tr /\ readings (tr ++ new) = readings tr.
Proof.
  intros F. rewrite sleeps_app, readings_app.
  destruct (awake_list new F) as [-> ->]. now rewrite Nat.add_0_r, app_nil_r.
Qed.

Lemma switch_calls_sleeps env si sm d st :
  sleeps (switch_calls env si sm d st) =
    (if FAILED (hr_CreateEffect env (n_effects st)) then 0 else 1)%nat /\
  readings (switch_calls env si sm d st) = [].
Proof.
  unfold switch_calls.
  destruct (g_pEffect st), (FAILED (hr_CreateEffect env (n_effects st))),
    (FAILED (hr_Start env (n_effects st))); simpl; auto.
Qed.

(** At each evaluation of the loop condition one more clock reading than
    [Sleep]s has been made; when the loop is left, two more. *)
Lemma oscillation_loop_sleeps env endTime si sm fuel d l st :
  List.length (readings (trace st)) = S (sleeps (trace st)) ->
  let r := oscillation_loop fuel env endTime si sm d l st in
  List.length (readings (trace (snd r))) =
    match fst r with
    | LoopPolling => S (sleeps (trace (snd r)))
    | _ => S (S (sleeps (trace (snd r))))
    end.
Proof.
  apply (loop_rule env endTime si sm
           (fun _ _ s => List.length (readings (trace s)) = S (sleeps (trace s)))
           (fun x s => List.length (readings (trace s)) =
                       match x with
                       | LoopPolling => S (sleeps (trace s))
                       | _ => S (S (sleeps (trace s)))
                       end)); auto.
  clear fuel d l st. intros d l st H. rewrite loop_body_eq. cbv zeta.
  assert (H1 : List.length (readings (trace (snd (GetTickCount env st)))) =
               S (S (sleeps (trace (snd (GetTickCount env st)))))).
  { cbn [GetTickCount snd]. rewrite trace_emit. cbn [trace].
    rewrite readings_app, sleeps_app, length_app, H. simpl. lia. }
  destruct (_ <? _); [|exact H1].
  destruct (_ >? _).
  - rewrite switch_direction_eq.
    destruct (switch_calls_sleeps env si sm d (snd (GetTickCount env st))) as [S R].
    destruct (FAILED _); unfold switched; cbn [trace];
      rewrite readings_app, sleeps_app, R, S, app_nil_r, H1; lia.
  - unfold Sleep. rewrite trace_emit, readings_app, sleeps_app, length_app, H1. simpl. lia.
Qed.

Lemma startup_awake e : startup_event e -> awake e.
Proof. destruct e; simpl; auto. Qed.

Lemma started_awake env arg st :
  started env arg st -> sleeps (trace st) = 0%nat /\ readings (trace st) = [].
Proof.
  intros (_ & (new & -> & F) & _). apply awake_list. apply Forall_app. split.
  - simpl. repeat constructor.
  - eapply Forall_impl; [|exact F]. apply startup_awake.
Qed.

Lemma cleaned_awake st :
  sleeps (trace (emit ECoUninitialize (CleanupAll st))) = sleeps (trace st) /\
  readings (trace (emit ECoUninitialize (CleanupAll st))) = readings (trace st).
Proof.
  rewrite trace_emit, CleanupAll_eq. cbn [trace]. rewrite <- app_assoc.
  apply awake_append. apply Forall_app. split; [|repeat constructor].
  apply cleanup_calls_Forall; intros; exact I.
Qed.

(** X11. The polling loop never spins: every [Sleep] of a run is for
    10 ms, and every pass of the loop that goes on makes exactly one.  So a
    run still polling has read the clock once more than it has slept (the
    start time), a run that exits after the pattern twice more (the start
    time and the reading that left the loop), and a run that plays no pattern
    neither reads the clock nor sleeps. *)
Theorem one_sleep_per_pass (fuel : nat) (env : Env) (arg : cmdline) :
  Forall short_sleep (trace (state_of (main fuel env arg))) /\
  match main fuel env arg with
  | Running st => List.length (readings (trace st)) = S (sleeps (trace st))
  | Exit _ st =>
      if (FAILED (hr_CoInitialize env) || negb (init_ok env)
          || (parse_feedbackType arg =? FEEDBACK_NONE))%bool
      then readings (trace st) = [] /\ sleeps (trace st) = 0%nat
      else List.length (readings (trace st)) = S (S (sleeps (trace st)))
  end.
Proof.
  split.
  - apply main_every_call.
    + intros e He. destruct e; simpl in *; auto.
    + intros _. split; [exact I|]. intros d s. unfold switch_calls.
      destruct (g_pEffect s), (FAILED (hr_CreateEffect env (n_effects s))),
        (FAILED (hr_Start env (n_effects s))); simpl; repeat constructor.
  - destruct (main_cases fuel env arg)
      as [[Fco E]|[(s & Hs & Hok & E)|[(s & Hs & Hft & E)|(s & Hs & Hok & Hft & E)]]];
      rewrite E.
    + rewrite Fco. cbn [orb]. unfold printf. rewrite trace_emit. simpl. auto.
    + rewrite Hok. cbn [negb orb]. rewrite Bool.orb_true_r. cbn [orb].
      destruct (cleaned_awake s) as [-> ->]. destruct (started_awake env arg s Hs). auto.
    + rewrite Hft, Z.eqb_refl, Bool.orb_true_r.
      destruct (cleaned_awake (printf Fmt.no_feedback [] s)) as [-> ->].
      unfold printf. rewrite trace_emit.
      destruct (awake_append (trace s) [EPrintf Fmt.no_feedback []]) as [-> ->];
        [repeat constructor|].
      destruct (started_awake env arg s Hs). auto.
    + cbv zeta. rewrite ApplyGentleOscillation_eq. cbv zeta.
      set (st2 := printf _ _ _).
      assert (H2 : List.length (readings (trace st2)) = S (sleeps (trace st2))).
      { unfold st2, printf. rewrite trace_emit.
        destruct (awake_append (trace (snd (GetTickCount env s)))
                    [EPrintf (snd (oscillation_params (parse_feedbackType arg))) []])
          as [-> ->]; [repeat constructor|].
        cbn [GetTickCount snd]. rewrite trace_emit. cbn [trace].
        rewrite readings_app, sleeps_app.
        destruct (started_awake env arg s Hs) as [-> ->]. reflexivity. }
      generalize (oscillation_loop_sleeps env
                    (dword (dword (tick env (n_ticks s)) + OSCILLATION_DURATION))
                    (fst (fst (oscillation_params (parse_feedbackType arg))))
                    (snd (fst (oscillation_params (parse_feedbackType arg))))
                    fuel 1 (dword (tick env (n_ticks s))) st2 H2).
      cbv zeta. set (r := oscillation_loop _ _ _ _ _ _ _ st2).
      assert (B : (FAILED (hr_CoInitialize env) || negb (init_ok env)
                   || (parse_feedbackType arg =? FEEDBACK_NONE))%bool = false).
      { rewrite Hok. apply Z.eqb_neq in Hft. rewrite Hft.
        destruct (FAILED (hr_CoInitialize env)) eqn:Fco; [|reflexivity].
        exfalso. generalize (main_eq fuel env arg). rewrite Fco, E. cbv zeta.
        rewrite ApplyGentleOscillation_eq. cbv zeta. fold st2. fold r.
        destruct (fst r); cbn [fst]; discriminate. }
      destruct (fst r); cbn [fst snd]; intros Hr; rewrite ?B.
      * destruct (cleaned_awake (stop_effect (snd r))) as [-> ->].
        unfold stop_effect. destruct (g_pEffect (snd r)); [|exact Hr].
        rewrite trace_emit.
        destruct (awake_append (trace (snd r)) [EEffectStop h]) as [-> ->];
          [repeat constructor|exact Hr].
      * destruct (cleaned_awake (snd r)) as [-> ->]. exact Hr.
      * exact Hr.
Qed.
